(** * The catalog compositor and the feature-id replacement of facesjs

    A shallow embedding of [tools/generate-catalog.mjs] (the SVG contact-sheet
    generator) and of [replaceFeatureIds], with the properties their
    specification states.

    Conventions of the model.
    - A JavaScript string is a [string]: a sequence of code units, here the
      code units below 256 (one [ascii] each).
    - A JavaScript number is a [jsnum]: NaN, the two infinities, the two zeros
      and the non-zero finite values, which are rationals.  A finite result
      is rounded to the nearest binary64 number, ties to even, as every
      operation of the language on numbers is.
    - A regular expression literal is a [regex] value, run by a backtracking
      matcher with the priorities of the ECMAScript one. *)

From Stdlib Require Import String Ascii List ZArith QArith Qround Qminmax Qabs Qpower.
From Stdlib Require Import Lia Lqa Bool.
From Stdlib Require Import DecimalString DecimalPos.
From Stdlib Require Import Sorting.Sorted Sorting.Permutation.
From stdpp Require Import base option gmap strings.

Open Scope string_scope.
Open Scope Z_scope.

(** String concatenation computes on a text that starts with a character. *)
#[global] Arguments String.append !_ _ / : simpl nomatch.

Module Str.

(** The double quote, which a string literal of this file cannot hold. *)
Definition dq : string := String "034"%char "".

Definition len (s : string) : nat := String.length s.

(** [String.prototype.startsWith]. *)
Fixpoint startsWith (p s : string) : bool :=
  match p, s with
  | EmptyString, _ => true
  | String a p', String b s' => Ascii.eqb a b && startsWith p' s'
  | String _ _, EmptyString => false
  end.

Fixpoint take (n : nat) (s : string) : string :=
  match n, s with
  | S n', String c s' => String c (take n' s')
  | _, _ => ""
  end.

Fixpoint drop (n : nat) (s : string) : string :=
  match n, s with
  | S n', String _ s' => drop n' s'
  | _, _ => s
  end.

(** [String.prototype.endsWith]. *)
Definition endsWith (p s : string) : bool :=
  (len p <=? len s)%nat && String.eqb (drop (len s - len p) s) p.

Fixpoint rev_onto (acc s : string) : string :=
  match s with
  | EmptyString => acc
  | String c s' => rev_onto (String c acc) s'
  end.

Definition rev (s : string) : string := rev_onto "" s.

(** [Array.prototype.join]. *)
Fixpoint join (sep : string) (l : list string) : string :=
  match l with
  | [] => ""
  | [s] => s
  | s :: rest => s +:+ sep +:+ join sep rest
  end.

End Str.

(** ** Regular expressions

    The constructs the sources use: literals, character classes, greedy and
    lazy repetition of a character class, alternation, one capture group and
    the end anchor.  [run] is the backtracking matcher: alternatives are
    tried left to right, a greedy repetition takes the longest run first, a
    lazy one the shortest, and the first success wins. *)
Module RegExp.

Inductive regex : Type :=
| Eps
| Chr (p : ascii -> bool)
| Seq (r1 r2 : regex)
| Alt (r1 r2 : regex)
| Star (greedy : bool) (p : ascii -> bool)
| Grp (r : regex)
| Eos.

(** What a match yields: the characters consumed and the capture. *)
Definition result : Type := nat * option string.

Section Matcher.
Context {R : Type}.

Fixpoint star_greedy (p : ascii -> bool) (k : string -> option R) (s : string)
  : option R :=
  match s with
  | String c s' =>
      if p c then
        match star_greedy p k s' with
        | Some x => Some x
        | None => k s
        end
      else k s
  | EmptyString => k s
  end.

Fixpoint star_lazy (p : ascii -> bool) (k : string -> option R) (s : string)
  : option R :=
  match k s with
  | Some x => Some x
  | None =>
      match s with
      | String c s' => if p c then star_lazy p k s' else None
      | EmptyString => None
      end
  end.

Fixpoint run (r : regex) (s : string) (cap : option string)
    (k : string -> option string -> option R) : option R :=
  match r with
  | Eps => k s cap
  | Chr p =>
      match s with
      | String c s' => if p c then k s' cap else None
      | EmptyString => None
      end
  | Seq r1 r2 => run r1 s cap (fun s' cap' => run r2 s' cap' k)
  | Alt r1 r2 =>
      match run r1 s cap k with
      | Some x => Some x
      | None => run r2 s cap k
      end
  | Star true p => star_greedy p (fun s' => k s' cap) s
  | Star false p => star_lazy p (fun s' => k s' cap) s
  | Grp r1 =>
      run r1 s cap
        (fun s' _ => k s' (Some (Str.take (Str.len s - Str.len s') s)))
  | Eos =>
      match s with
      | EmptyString => k s cap
      | String _ _ => None
      end
  end.
End Matcher.

(** A match of [r] that starts at the head of [s]. *)
Definition match_at (r : regex) (s : string) : option result :=
  run r s None (fun rest cap => Some ((Str.len s - Str.len rest)%nat, cap)).

(** *** Character classes and literals *)

Definition only (c : ascii) : ascii -> bool := Ascii.eqb c.
Definition except (c : ascii) : ascii -> bool := fun x => negb (Ascii.eqb c x).
Definition any : ascii -> bool := fun _ => true.

(** [\s] on the code units below 256: tab, line feed, vertical tab, form
    feed, carriage return, space and the no-break space. *)
Definition space : ascii -> bool := fun c =>
  let n := nat_of_ascii c in
  ((9 <=? n) && (n <=? 13) || (n =? 32) || (n =? 160))%nat.

(** The canonical form of a character under the [i] flag: ASCII letters
    fold to upper case, every other code unit below 256 to itself. *)
Definition upcase (c : ascii) : ascii :=
  let n := nat_of_ascii c in
  if ((97 <=? n) && (n <=? 122))%nat then ascii_of_nat (n - 32) else c.

Definition only_i (c : ascii) : ascii -> bool := fun x => Ascii.eqb (upcase c) (upcase x).

Fixpoint lit (s : string) : regex :=
  match s with
  | EmptyString => Eps
  | String c EmptyString => Chr (only c)
  | String c s' => Seq (Chr (only c)) (lit s')
  end.

Fixpoint lit_i (s : string) : regex :=
  match s with
  | EmptyString => Eps
  | String c EmptyString => Chr (only_i c)
  | String c s' => Seq (Chr (only_i c)) (lit_i s')
  end.

Definition plus (greedy : bool) (p : ascii -> bool) : regex :=
  Seq (Chr p) (Star greedy p).

(** [x?]: with [x] first, then without. *)
Definition opt (p : ascii -> bool) : regex := Alt (Chr p) Eps.

Fixpoint seq (l : list regex) : regex :=
  match l with
  | [] => Eps
  | [r] => r
  | r :: rest => Seq r (seq rest)
  end.

(** *** The drivers: [exec], [replace] and [split]

    [replace_all] is [replace] with the [g] flag and the empty replacement,
    the only one the sources use with that flag. *)

Record found : Type := Found {
  before : string;
  matched : string;
  after : string;
  group1 : option string
}.

(** [RegExp.prototype.exec] without the [g] flag: the leftmost position with
    a match.  [pre] is the text already passed, reversed. *)
Fixpoint search_from (r : regex) (pre : string) (s : string) : option found :=
  match match_at r s with
  | Some (n, cap) =>
      Some (Found (Str.rev pre) (Str.take n s) (Str.drop n s) cap)
  | None =>
      match s with
      | String c s' => search_from r (String c pre) s'
      | EmptyString => None
      end
  end.

Definition exec (r : regex) (s : string) : option found := search_from r "" s.

(** [s.replace(r, rep)] for [r] without the [g] flag and [rep] without [$]:
    the first match becomes [rep]. *)
Definition replace_first (r : regex) (rep : string) (s : string) : string :=
  match exec r s with
  | Some f => before f +:+ rep +:+ after f
  | None => s
  end.

(** [s.replace(r, "")] for [r] with the [g] flag.  [skip] counts the
    characters of the current match still to drop; after an empty match the
    scan moves on by one character, which is kept. *)
Fixpoint replace_all_from (r : regex) (skip : nat) (s : string) : string :=
  match s with
  | EmptyString => ""
  | String c s' =>
      match skip with
      | S n => replace_all_from r n s'
      | O =>
          match match_at r s with
          | Some (S n, _) => replace_all_from r n s'
          | Some (O, _) | None => String c (replace_all_from r 0 s')
          end
      end
  end.

Definition replace_all (r : regex) (s : string) : string :=
  replace_all_from r 0 s.

(** [s.split(r)] for an [r] without capture groups.  [cur] is the piece
    being read, reversed.  A match is a separator unless it is empty and
    stands where the piece starts; no match is tried at the end of [s]. *)
Fixpoint split_from (r : regex) (skip : nat) (cur : string) (s : string)
  : list string :=
  match s with
  | EmptyString => [Str.rev cur]
  | String c s' =>
      match skip with
      | S n => split_from r n cur s'
      | O =>
          match match_at r s with
          | Some (S n, _) => Str.rev cur :: split_from r n "" s'
          | Some (O, _) =>
              match cur with
              | EmptyString => split_from r 0 (String c "") s'
              | String _ _ => Str.rev cur :: split_from r 0 (String c "") s'
              end
          | None => split_from r 0 (String c cur) s'
          end
      end
  end.

Definition split (r : regex) (s : string) : list string :=
  match s with
  | EmptyString =>
      match match_at r s with Some _ => [] | None => [""] end
  | String _ _ => split_from r 0 "" s
  end.

End RegExp.

(** ** The fragment sanitizer of [generate-catalog.mjs] *)
Module Sanitizer.
Import RegExp.

(** [(?:sodipodi|inkscape)] and [(?:inkscape|sodipodi)], under the [i] flag. *)
Definition editor_ns : regex := Alt (lit_i "sodipodi") (lit_i "inkscape").
Definition editor_ns' : regex := Alt (lit_i "inkscape") (lit_i "sodipodi").

(** [/<\?xml[^>]*?>/gi] *)
Definition re_xml_decl : regex :=
  seq [lit_i "<?xml"; Star false (except ">"); Chr (only ">")].

(** [/<!--[\s\S]*?-->/g] *)
Definition re_comment : regex :=
  seq [lit "<!--"; Star false any; lit "-->"].

(** [/<!DOCTYPE[^>]*?>/gi] *)
Definition re_doctype : regex :=
  seq [lit_i "<!DOCTYPE"; Star false (except ">"); Chr (only ">")].

(** [/<metadata[\s\S]*?<\/metadata>/gi] *)
Definition re_metadata : regex :=
  seq [lit_i "<metadata"; Star false any; lit_i "</metadata>"].

(** [/<\s*(?:sodipodi|inkscape):[^>]*?\/?>/gi] *)
Definition re_editor_tag : regex :=
  seq [Chr (only "<"); Star true space; editor_ns; Chr (only ":");
       Star false (except ">"); opt (only "/"); Chr (only ">")].

(** [/<\s*(?:sodipodi|inkscape):[^>]*?\/?>[\s\S]*?<\/\s*(?:sodipodi|inkscape):[^>]*?>/gi] *)
Definition re_editor_block : regex :=
  seq [re_editor_tag; Star false any;
       lit "</"; Star true space; editor_ns; Chr (only ":");
       Star false (except ">"); Chr (only ">")].

(** [/\s+(?:inkscape|sodipodi):[^=\s]+=\x22[^\x22]*\x22/gi], the double
    quote of the source written [\x22] here. *)
Definition re_editor_attr : regex :=
  seq [plus true space; editor_ns'; Chr (only ":");
       plus true (fun c => negb (Ascii.eqb "=" c) && negb (space c));
       lit ("=" +:+ Str.dq); Star true (except "034"); Chr (only "034")].

(** [/viewBox=\x22([^\x22]+)\x22/i], the double quote written [\x22]. *)
Definition re_viewBox : regex :=
  seq [lit_i ("viewBox=" +:+ Str.dq); Grp (plus true (except "034"));
       Chr (only "034")].

(** [/<svg[^>]*>/i] and [/<\/svg>/i] *)
Definition re_svg_open : regex :=
  seq [lit_i "<svg"; Star true (except ">"); Chr (only ">")].
Definition re_svg_close : regex := lit_i "</svg>".

Definition stripProlog (svg : string) : string :=
  replace_all re_doctype (replace_all re_comment (replace_all re_xml_decl svg)).

Definition sanitize (svg : string) : string :=
  replace_all re_editor_attr
    (replace_all re_editor_tag
       (replace_all re_editor_block (replace_all re_metadata svg))).

Definition extractInner (svg : string) : string :=
  replace_first re_svg_close "" (replace_first re_svg_open "" svg).

(** What [main] embeds of a fragment: [extractInner(sanitize(stripProlog(raw)))]. *)
Definition sanitized_inner (raw : string) : string :=
  extractInner (sanitize (stripProlog raw)).

End Sanitizer.

(** ** Numbers

    [Fin q] holds a non-zero rational; the two zeros are [Zero false] (+0)
    and [Zero true] (-0).  The operations follow IEEE 754: on the special
    values by cases, and on finite ones by rounding the exact result to
    binary64 (53 binary places, exponents from -1022 to 1023, gradual
    underflow), to the nearest number and to the even one of two. *)
Module JsNum.

Inductive jsnum : Type :=
| NaN
| Inf (neg : bool)
| Zero (neg : bool)
| Fin (q : Q).

(** *** Rounding to binary64 *)

Definition prec : Z := 53.
Definition emin : Z := -1022.
Definition emax : Z := 1024.

(** The greatest [e] with [2 ^ e <= a / d]. *)
Definition ilog2 (a d : positive) : Z :=
  let e0 := Z.log2 (Zpos a) - Z.log2 (Zpos d) in
  let reaches :=
    if 0 <=? e0 then Zpos d * 2 ^ e0 <=? Zpos a
    else Zpos d <=? Zpos a * 2 ^ (- e0) in
  if reaches then e0 else e0 - 1.

(** The integer nearest to [n / d], the even one of two that are as near. *)
Definition nearest_even (n d : Z) : Z :=
  let q := n / d in
  match 2 * (n mod d) ?= d with
  | Lt => q
  | Gt => q + 1
  | Eq => if Z.even q then q else q + 1
  end.

(** The exponent of the last place of the binary64 numbers next to [a / d],
    and [a / d] in units of that place, rounded. *)
Definition ulp_exp (a d : positive) : Z := Z.max (ilog2 a d) emin - (prec - 1).

Definition mantissa (a d : positive) : Z :=
  let e := ulp_exp a d in
  if 0 <=? e then nearest_even (Zpos a) (Zpos d * 2 ^ e)
  else nearest_even (Zpos a * 2 ^ (- e)) (Zpos d).

(** [m * 2 ^ e] *)
Definition scaled (m e : Z) : Q :=
  if 0 <=? e then inject_Z (m * 2 ^ e) else Qmake m (Z.to_pos (2 ^ (- e))).

(** The binary64 number nearest to [q], ties to even; a value that rounds
    to [2 ^ 1024] or beyond is infinite, and a zero keeps the sign of [q]. *)
Definition round (q : Q) : jsnum :=
  let r := Qred q in
  match Qnum r with
  | Z0 => Zero false
  | Zpos a =>
      let m := mantissa a (Qden r) in
      let e := ulp_exp a (Qden r) in
      if m =? 0 then Zero false
      else if Qle_bool (inject_Z (2 ^ emax)) (scaled m e) then Inf false
      else Fin (Qred (scaled m e))
  | Zneg a =>
      let m := mantissa a (Qden r) in
      let e := ulp_exp a (Qden r) in
      if m =? 0 then Zero true
      else if Qle_bool (inject_Z (2 ^ emax)) (scaled m e) then Inf true
      else Fin (Qred (- scaled m e))
  end.

(** The number a real result [q] becomes; [z] is the sign an exact zero
    takes. *)
Definition of_Q (z : bool) (q : Q) : jsnum :=
  if Qeq_bool q 0 then Zero z else round q.

(** The number of an integer literal. *)
Definition of_Z (n : Z) : jsnum := of_Q false (inject_Z n).

(** The sign bit. *)
Definition negative (x : jsnum) : bool :=
  match x with
  | NaN => false
  | Inf s | Zero s => s
  | Fin q => Qnum q <? 0
  end.

Definition neg (x : jsnum) : jsnum :=
  match x with
  | NaN => NaN
  | Inf s => Inf (negb s)
  | Zero s => Zero (negb s)
  | Fin q => Fin (Qopp q)
  end.

Definition add (x y : jsnum) : jsnum :=
  match x, y with
  | NaN, _ | _, NaN => NaN
  | Inf a, Inf b => if Bool.eqb a b then Inf a else NaN
  | Inf a, _ => Inf a
  | _, Inf b => Inf b
  | Zero a, Zero b => Zero (a && b)
  | Zero _, Fin q => Fin q
  | Fin p, Zero _ => Fin p
  | Fin p, Fin q => of_Q false (p + q)
  end.

Definition sub (x y : jsnum) : jsnum := add x (neg y).

Definition mul (x y : jsnum) : jsnum :=
  match x, y with
  | NaN, _ | _, NaN => NaN
  | Inf _, Zero _ | Zero _, Inf _ => NaN
  | Inf a, _ => Inf (xorb a (negative y))
  | _, Inf b => Inf (xorb (negative x) b)
  | Zero a, _ => Zero (xorb a (negative y))
  | _, Zero b => Zero (xorb (negative x) b)
  | Fin p, Fin q => of_Q false (p * q)
  end.

Definition div (x y : jsnum) : jsnum :=
  match x, y with
  | NaN, _ | _, NaN => NaN
  | Inf _, Inf _ => NaN
  | Zero _, Zero _ => NaN
  | Inf a, _ => Inf (xorb a (negative y))
  | _, Inf b => Zero (xorb (negative x) b)
  | Zero a, Fin _ => Zero (xorb a (negative y))
  | Fin _, Zero b => Inf (xorb (negative x) b)
  | Fin p, Fin q => of_Q false (p / q)
  end.

(** [x < y] or [x = y] in the order of [Math.min], where -0 is below +0. *)
Definition leb (x y : jsnum) : bool :=
  match x, y with
  | NaN, _ | _, NaN => false
  | Inf true, _ => true
  | _, Inf false => true
  | Inf false, _ => false
  | _, Inf true => false
  | Zero a, Zero b => a || negb b
  | Zero _, Fin q => 0 <? Qnum q
  | Fin p, Zero _ => Qnum p <? 0
  | Fin p, Fin q => Qle_bool p q
  end.

(** [Math.min] of two arguments. *)
Definition min (x y : jsnum) : jsnum :=
  match x, y with
  | NaN, _ | _, NaN => NaN
  | _, _ => if leb x y then x else y
  end.

(** The value of a finite number, for statements about it. *)
Definition to_Q (x : jsnum) : option Q :=
  match x with
  | Fin q => Some q
  | Zero _ => Some 0%Q
  | NaN | Inf _ => None
  end.

End JsNum.

(** ** [parseFloat] and the view box of a fragment *)
Module ViewBox.
Import RegExp JsNum.

Definition digit (c : ascii) : option Z :=
  let n := nat_of_ascii c in
  if ((48 <=? n) && (n <=? 57))%nat then Some (Z.of_nat (n - 48)) else None.

(** Reads the longest run of decimal digits at the head of [s] on top of
    [acc]: the value, how many digits were read, and the rest. *)
Fixpoint digits (acc : Z) (cnt : nat) (s : string) : Z * nat * string :=
  match s with
  | String c s' =>
      match digit c with
      | Some d => digits (10 * acc + d) (S cnt) s'
      | None => (acc, cnt, s)
      end
  | EmptyString => (acc, cnt, s)
  end.

Fixpoint trim_start (s : string) : string :=
  match s with
  | String c s' => if space c then trim_start s' else s
  | EmptyString => s
  end.

(** The exponent part [e±ddd] at the head of [s], 0 when there is none. *)
Definition exponent (s : string) : Z :=
  match s with
  | String c r =>
      if Ascii.eqb (upcase c) "E" then
        let '(sgn, r') :=
          match r with
          | String "-" t => (true, t)
          | String "+" t => (false, t)
          | _ => (false, r)
          end in
        let '(v, n, _) := digits 0 0 r' in
        if (0 <? n)%nat then (if sgn then - v else v) else 0
      else 0
  | EmptyString => 0
  end.

(** [parseFloat]: leading white space is skipped and the longest prefix
    that is a decimal literal is read; NaN when there is none.  The value
    of the literal is rounded to the nearest binary64 number, as V8 does
    for a literal of any length. *)
Definition parseFloat (input : string) : jsnum :=
  let s := trim_start input in
  let '(sgn, s1) :=
    match s with
    | String "-" r => (true, r)
    | String "+" r => (false, r)
    | _ => (false, s)
    end in
  if Str.startsWith "Infinity" s1 then Inf sgn else
  let '(ip, ni, s2) := digits 0 0 s1 in
  let '(m, nf, s3) :=
    match s2 with
    | String "." r => digits ip 0 r
    | _ => (ip, 0%nat, s2)
    end in
  if (ni + nf =? 0)%nat then NaN else
  let q := (inject_Z m * Qpower (inject_Z 10) (exponent s3 - Z.of_nat nf))%Q in
  of_Q sgn (if sgn then Qopp q else q).

(** A field is [None] where the source's is [undefined]. *)
Record viewBox : Type := {
  minX : option jsnum;
  minY : option jsnum;
  width : option jsnum;
  height : option jsnum
}.

Definition default_viewBox : viewBox :=
  {| minX := Some (of_Z 0); minY := Some (of_Z 0);
     width := Some (of_Z 400); height := Some (of_Z 600) |}.

(** [match[1].split(/\s+/).map((n) => parseFloat(n))], destructured. *)
Definition parse_viewBox (value : string) : viewBox :=
  let nums := map parseFloat (split (plus true space) value) in
  {| minX := nums !! 0%nat; minY := nums !! 1%nat;
     width := nums !! 2%nat; height := nums !! 3%nat |}.

(** The capture group of [re_viewBox] takes part in every match, so the
    default of [from_option] is never used. *)
Definition extractViewBox (svg : string) : viewBox :=
  match exec Sanitizer.re_viewBox svg with
  | None => default_viewBox
  | Some f => parse_viewBox (from_option id "" (group1 f))
  end.

(** [ToNumber] of a field: [undefined] is NaN. *)
Definition num (v : option jsnum) : jsnum := from_option id NaN v.

End ViewBox.

(** ** What the platform supplies

    [localeCompare] is the host's collation and the printing of a number
    that is no integer up to 2^53 is the host's shortest round-trip
    algorithm: both are parameters of the model, as is the directory the
    script is installed in. *)
Class Platform : Type := {
  (** the sign of [a.localeCompare(b, undefined, { numeric: true })] *)
  localeCompare_numeric : string -> string -> comparison;
  (** [String(x)] for a finite [x] that is not an integer up to 2^53 *)
  number_toString_other : Q -> string;
  (** [path.join(import.meta.dirname, "..", "svgs")] *)
  svgRoot : string
}.

(** ** Sorting *)
Module Sort.

Section By.
Context {A : Type} (cmp : A -> A -> comparison).

(** [x] goes before the first element that it does not have to follow. *)
Fixpoint insert (x : A) (l : list A) : list A :=
  match l with
  | [] => [x]
  | y :: l' =>
      match cmp x y with
      | Gt => y :: insert x l'
      | _ => x :: l
      end
  end.

(** [Array.prototype.sort(cmp)]: the stable sort, as the insertion sort that
    takes the elements from the right, so that of two elements [cmp] does
    not tell apart the one that came first stays first. *)
Fixpoint sort_by (l : list A) : list A :=
  match l with
  | [] => []
  | x :: l' => insert x (sort_by l')
  end.

(** [a] may stand before [b]. *)
Definition le (a b : A) : Prop := cmp a b <> Gt.

End By.

(** The order of [Array.prototype.sort()] without a comparator on strings:
    code unit by code unit. *)
Definition code_unit_compare : string -> string -> comparison := String.compare.

Definition sort : list string -> list string := sort_by code_unit_compare.

(** *** A numeric collation of plain names

    An instance of what [localeCompare] with [numeric: true] does on names
    made of ASCII letters, digits and punctuation: a name is read as a
    sequence of numbers (the runs of decimal digits) and single characters;
    numbers compare by value, characters by code unit, and a number stands
    after the characters below the digit zero and before all others. *)
Inductive token : Type :=
| TNum (v : Z)
| TChr (c : ascii).

(** [acc] is the value of the run of digits being read, if any. *)
Fixpoint tokenize (acc : option Z) (s : string) : list token :=
  match s with
  | EmptyString =>
      match acc with Some v => [TNum v] | None => [] end
  | String c s' =>
      match ViewBox.digit c, acc with
      | Some d, Some v => tokenize (Some (10 * v + d)) s'
      | Some d, None => tokenize (Some d) s'
      | None, Some v => TNum v :: TChr c :: tokenize None s'
      | None, None => TChr c :: tokenize None s'
      end
  end.

Definition token_compare (a b : token) : comparison :=
  match a, b with
  | TNum u, TNum v => Z.compare u v
  | TChr x, TChr y => Ascii.compare x y
  | TNum _, TChr y => if (N_of_ascii y <? 48)%N then Gt else Lt
  | TChr x, TNum _ => if (N_of_ascii x <? 48)%N then Lt else Gt
  end.

(** The first difference decides; a proper prefix comes first. *)
Fixpoint lex_compare {T} (c : T -> T -> comparison) (l1 l2 : list T)
  : comparison :=
  match l1, l2 with
  | [], [] => Eq
  | [], _ :: _ => Lt
  | _ :: _, [] => Gt
  | x :: l1', y :: l2' =>
      match c x y with
      | Eq => lex_compare c l1' l2'
      | r => r
      end
  end.

Definition numeric_compare (a b : string) : comparison :=
  lex_compare token_compare (tokenize None a) (tokenize None b).

End Sort.
(** ** The layout engine *)
Module Layout.
Import JsNum ViewBox.

Definition padding : Z := 24.
Definition cols : Z := 5.
Definition thumbWidth : Z := 180.
Definition thumbHeight : Z := 240.
Definition labelHeight : Z := 18.
Definition colWidth : Z := 200.
Definition blockHeight : Z := thumbHeight + labelHeight + 12.
Definition categoryGap : Z := 32.
(** The height of a title row: the literal of [y += 22]. *)
Definition titleHeight : Z := 22.

Definition innerW : Z := thumbWidth - 16.
Definition innerH : Z := thumbHeight - 32.

(** The fit transform of a fragment: [scale], [tx] and [ty] of [main]. *)
Record fit : Type := { scale : jsnum; tx : jsnum; ty : jsnum }.

Definition fit_of (vb : viewBox) : fit :=
  let scale :=
    min (div (of_Z innerW) (num (width vb)))
        (div (of_Z innerH) (num (height vb))) in
  let tx :=
    sub (add (of_Z 8)
             (div (sub (of_Z innerW) (mul (num (width vb)) scale)) (of_Z 2)))
        (mul (num (minX vb)) scale) in
  let ty :=
    sub (add (of_Z 8)
             (div (sub (of_Z innerH) (mul (num (height vb)) scale)) (of_Z 2)))
        (mul (num (minY vb)) scale) in
  {| scale := scale; tx := tx; ty := ty |}.

(** [idx % cols] and [Math.floor(idx / cols)]. *)
Definition col_of (idx : nat) : Z := Z.of_nat idx mod cols.
Definition row_of (idx : nat) : Z := Qfloor (inject_Z (Z.of_nat idx) / inject_Z cols).

(** [Math.ceil(files.length / cols)]. *)
Definition rows_of (n : nat) : Z := Qceiling (inject_Z (Z.of_nat n) / inject_Z cols).

(** The origin of the cell of the fragment with index [idx], in a category
    whose grid starts at [y]. *)
Definition cell_x (idx : nat) : Z := padding + col_of idx * colWidth.
Definition cell_y (y : Z) (idx : nat) : Z := y + row_of idx * blockHeight.

End Layout.

(** ** The chunks of the composite document and their text *)
Module Doc.
Import JsNum Layout.

(** What [main] pushes on [chunks]: a category title, or the grouped block
    of one fragment. *)
Inductive chunk : Type :=
| Title (y : Z) (category : string)
| Block (x yOffset : Z) (f : fit) (inner id : string).

Definition is_title (c : chunk) : bool :=
  match c with Title _ _ => true | Block _ _ _ _ _ => false end.

Definition is_block (c : chunk) : bool := negb (is_title c).

(** The text a chunk shows: the name of the category or of the fragment. *)
Definition chunk_id (c : chunk) : string :=
  match c with
  | Title _ category => category
  | Block _ _ _ _ id => id
  end.

Definition nl : string := String "010"%char "".

(** [name="value"] *)
Definition attr (name value : string) : string :=
  name +:+ "=" +:+ Str.dq +:+ value +:+ Str.dq.

Definition titleFont : string := attr "font-family" "Arial, sans-serif".

Definition show_int (z : Z) : string := NilEmpty.string_of_int (Z.to_int z).

Section Text.
Context {P : Platform}.

(** [String(x)], as a template literal applies it to a number. *)
Definition number_toString (x : jsnum) : string :=
  match x with
  | NaN => "NaN"
  | Inf false => "Infinity"
  | Inf true => "-Infinity"
  | Zero _ => "0"
  | Fin q =>
      if (Qden q =? 1)%positive && (Z.abs (Qnum q) <=? 2 ^ 53)
      then show_int (Qnum q)
      else number_toString_other q
  end.

(** The text of an integer of the layout, which is computed on [Z]: an
    integer prints in plain decimal below 1e21. *)
Definition show (z : Z) : string :=
  if Z.abs z <? 10 ^ 21 then show_int z else number_toString (of_Z z).

Definition render_chunk (c : chunk) : string :=
  match c with
  | Title y category =>
      "<text " +:+ attr "x" (show padding) +:+ " " +:+ attr "y" (show y)
      +:+ " " +:+ titleFont +:+ " " +:+ attr "font-size" "18" +:+ " "
      +:+ attr "font-weight" "bold" +:+ ">" +:+ category +:+ "</text>"
  | Block x yOffset f inner id =>
      "<g " +:+ attr "transform"
                 ("translate(" +:+ show x +:+ " " +:+ show yOffset +:+ ")")
      +:+ ">"
      +:+ "<rect " +:+ attr "width" (show thumbWidth) +:+ " "
      +:+ attr "height" (show thumbHeight) +:+ " " +:+ attr "rx" "8" +:+ " "
      +:+ attr "ry" "8" +:+ " " +:+ attr "fill" "#f7f7f7" +:+ " "
      +:+ attr "stroke" "#ddd" +:+ "/>"
      +:+ "<g " +:+ attr "transform"
                 ("translate(" +:+ number_toString (tx f) +:+ " "
                  +:+ number_toString (ty f) +:+ ") scale("
                  +:+ number_toString (scale f) +:+ ")")
      +:+ ">"
      +:+ inner
      +:+ "</g>"
      +:+ "<text "
      +:+ attr "x" (number_toString (div (of_Z thumbWidth) (of_Z 2)))
      +:+ " " +:+ attr "y" (show (thumbHeight - 6)) +:+ " " +:+ titleFont
      +:+ " " +:+ attr "font-size" "14" +:+ " "
      +:+ attr "text-anchor" "middle" +:+ " " +:+ attr "fill" "#333" +:+ ">"
      +:+ id +:+ "</text>"
      +:+ "</g>"
  end.

(** The composite document: its size and its chunks. *)
Record document : Type := {
  doc_width : Z;
  doc_height : Z;
  doc_chunks : list chunk
}.

(** The opening tag of the root element. *)
Definition render_root_tag (width height : Z) : string :=
  "<svg " +:+ attr "xmlns" "http://www.w3.org/2000/svg" +:+ " "
  +:+ attr "width" (show width) +:+ " " +:+ attr "height" (show height)
  +:+ " "
  +:+ attr "viewBox" ("0 0 " +:+ show width +:+ " " +:+ show height)
  +:+ ">".

(** The text of [output] in [main]. *)
Definition render (d : document) : string :=
  render_root_tag (doc_width d) (doc_height d) +:+ nl
  +:+ Str.join nl (map render_chunk (doc_chunks d)) +:+ nl
  +:+ "</svg>" +:+ nl.

End Text.
End Doc.
(** ** The world the script runs in

    The file system is a map from paths to nodes, read and written through
    the calls of [node:fs] the script makes; the console is the list of
    lines written so far.  A computation takes a world and either returns
    or throws, and leaves a world. *)
Module IO.

Inductive node : Type :=
| File (content : string)
| Dir (entries : list string).

Inductive stream : Type := Log | Warn | Error.

Record world : Type := {
  fs : gmap string node;
  console : list (stream * string)
}.

Inductive outcome (A : Type) : Type :=
| Return (a : A)
| Throw (e : string).
Arguments Return {A} a.
Arguments Throw {A} e.

Definition M (A : Type) : Type := world -> outcome A * world.

Definition ret {A} (a : A) : M A := fun w => (Return a, w).
Definition throw {A} (e : string) : M A := fun w => (Throw e, w).

Definition bind {A B} (m : M A) (k : A -> M B) : M B := fun w =>
  match m w with
  | (Return a, w') => k a w'
  | (Throw e, w') => (Throw e, w')
  end.

(** [try { m } catch (error) { h }] *)
Definition try_catch {A} (m : M A) (h : string -> M A) : M A := fun w =>
  match m w with
  | (Return a, w') => (Return a, w')
  | (Throw e, w') => h e w'
  end.

Notation "'let*' x ':=' m 'in' k" := (bind m (fun x => k))
  (at level 10, x name, m at level 100, k at level 200).
Notation "'let*' ' p ':=' m 'in' k" := (bind m (fun p => k))
  (at level 10, p strict pattern, m at level 100, k at level 200).
Notation "m ';;' k" := (bind m (fun _ => k))
  (at level 100, k at level 200, right associativity).

(** [path.join] of a directory and a name that holds no separator. *)
Definition join (dir name : string) : string := dir +:+ "/" +:+ name.

Definition readdirSync (dir : string) : M (list string) := fun w =>
  match fs w !! dir with
  | Some (Dir entries) => (Return entries, w)
  | Some (File _) => (Throw ("ENOTDIR: " +:+ dir), w)
  | None => (Throw ("ENOENT: " +:+ dir), w)
  end.

(** [fs.statSync(path).isDirectory()] *)
Definition isDirectory (path : string) : M bool := fun w =>
  match fs w !! path with
  | Some (Dir _) => (Return true, w)
  | Some (File _) => (Return false, w)
  | None => (Throw ("ENOENT: " +:+ path), w)
  end.

Definition readFileSync (path : string) : M string := fun w =>
  match fs w !! path with
  | Some (File content) => (Return content, w)
  | Some (Dir _) => (Throw ("EISDIR: " +:+ path), w)
  | None => (Throw ("ENOENT: " +:+ path), w)
  end.

(** The directory and the name of a path: what stands before and after
    its last separator. *)
Fixpoint split_path (path : string) : option (string * string) :=
  match path with
  | EmptyString => None
  | String c rest =>
      match split_path rest with
      | Some (dir, name) => Some (String c dir, name)
      | None => if Ascii.eqb c "/" then Some ("", rest) else None
      end
  end.

(** Writing the file at [path]: it is created or replaced, and a new name
    is added to the entries of its directory. *)
Definition writeFileSync (path content : string) : M unit := fun w =>
  match fs w !! path with
  | Some (Dir _) => (Throw ("EISDIR: " +:+ path), w)
  | Some (File _) =>
      (Return tt,
       {| fs := <[path := File content]> (fs w); console := console w |})
  | None =>
      match split_path path with
      | Some (dir, name) =>
          match fs w !! dir with
          | Some (Dir entries) =>
              (Return tt,
               {| fs := <[path := File content]>
                          (<[dir := Dir (entries ++ [name])%list]> (fs w));
                  console := console w |})
          | Some (File _) => (Throw ("ENOTDIR: " +:+ path), w)
          | None => (Throw ("ENOENT: " +:+ path), w)
          end
      | None => (Throw ("ENOENT: " +:+ path), w)
      end
  end.

Definition print (s : stream) (line : string) : M unit := fun w =>
  (Return tt, {| fs := fs w; console := console w ++ [(s, line)] |}).

(** [xs.filter(f)] for a callback that may throw. *)
Fixpoint filterM {A} (f : A -> M bool) (l : list A) : M (list A) :=
  match l with
  | [] => ret (@nil A)
  | x :: l' =>
      let* b := f x in
      let* rest := filterM f l' in
      ret (if b then x :: rest else rest)
  end.

(** [xs.forEach((x, idx) => ...)] for a callback that yields a value each
    time, from index [idx] on. *)
Fixpoint mapM_from {A B} (f : nat -> A -> M B) (idx : nat) (l : list A)
  : M (list B) :=
  match l with
  | [] => ret (@nil B)
  | x :: l' =>
      let* b := f idx x in
      let* rest := mapM_from f (S idx) l' in
      ret (b :: rest)
  end.

(** [for (const x of xs) ...] with the loop's variables as [s]. *)
Fixpoint foldM {A S} (f : S -> A -> M S) (s : S) (l : list A) : M S :=
  match l with
  | [] => ret s
  | x :: l' => let* s' := f s x in foldM f s' l'
  end.

End IO.

(** ** The script: [main], [tryWritePng] and the handler of a rejection *)
Module Catalog.
Import RegExp Sanitizer ViewBox Layout Doc IO Sort.

(** [/\.svg$/i] *)
Definition re_svg_ext : regex := seq [lit_i ".svg"; Eos].

(** [path.basename(file, ".svg")] for a file name without separators. *)
Definition basename_svg (file : string) : string :=
  if Str.endsWith ".svg" file && negb (String.eqb file ".svg")
  then Str.take (Str.len file - 4) file
  else if String.eqb file ".svg" then "" else file.

(** What [main] pushes for the fragment [file] with text [raw], the
    [idx]-th of a category whose grid starts at [y]. *)
Definition block_of (y : Z) (idx : nat) (file raw : string) : chunk :=
  let clean := sanitize (stripProlog raw) in
  let vb := extractViewBox raw in
  let inner := extractInner clean in
  Block (cell_x idx) (cell_y y idx) (fit_of vb) inner (basename_svg file).

Section Script.
Context {P : Platform}.

(** The external rasterization engine: [None] when [import("sharp")]
    rejects, else the conversion of the bytes of an SVG to those of a PNG,
    [None] where it throws. *)
Variable sharp : option (string -> option string).

Definition outputPath : string := join svgRoot "catalog.svg".

(** The callback of the [filter] over the entries of [svgRoot]. *)
Definition is_category (name : string) : M bool :=
  if Str.startsWith "." name then ret false
  else isDirectory (join svgRoot name).

Definition scan_categories : M (list string) :=
  let* names := readdirSync svgRoot in
  let* dirs := filterM is_category names in
  ret (sort dirs).

Definition list_files (entries : list string) : list string :=
  sort_by localeCompare_numeric (List.filter (Str.endsWith ".svg") entries).

(** The body of the loop over the categories; the state is [y] and
    [chunks]. *)
Definition category_step (st : Z * list chunk) (category : string)
  : M (Z * list chunk) :=
  let '(y, chunks) := st in
  let dir := join svgRoot category in
  let* entries := readdirSync dir in
  let files := list_files entries in
  let chunks := (chunks ++ [Title y category])%list in
  let y := y + titleHeight in
  let* blocks :=
    mapM_from
      (fun idx file =>
         let* raw := readFileSync (join dir file) in
         ret (block_of y idx file raw))
      0 files in
  let rows := rows_of (length files) in
  ret (y + rows * blockHeight + categoryGap, (chunks ++ blocks)%list).

(** [main] up to the computation of [width] and [height]. *)
Definition build : M document :=
  let* categories := scan_categories in
  let* '(y, chunks) := foldM category_step (padding, []) categories in
  ret {| doc_width := padding * 2 + cols * colWidth;
         doc_height := y + padding;
         doc_chunks := chunks |}.

(** The body of the [try] of [tryWritePng]. *)
Definition png_attempt (svgPath pngPath : string) : M unit :=
  match sharp with
  | None => throw "ERR_MODULE_NOT_FOUND: sharp"
  | Some convert =>
      let* svgBuffer := readFileSync svgPath in
      match convert svgBuffer with
      | None => throw "sharp: conversion failed"
      | Some png =>
          writeFileSync pngPath png ;;
          print Log ("Wrote " +:+ pngPath)
      end
  end.

Definition skip_message (pngPath : string) : string :=
  "Skipping PNG output for " +:+ pngPath
  +:+ ". Install sharp to enable PNG export (pnpm add -D sharp).".

Definition tryWritePng (svgPath pngPath : string) : M unit :=
  try_catch (png_attempt svgPath pngPath)
            (fun _ => print Warn (skip_message pngPath)).

Definition main : M unit :=
  let* d := build in
  writeFileSync outputPath (render d) ;;
  print Log ("Wrote " +:+ outputPath) ;;
  let pngPath := replace_first re_svg_ext ".png" outputPath in
  tryWritePng outputPath pngPath.

(** [main().catch((error) => { console.error(error); process.exit(1); })]:
    the exit code of the process and the world it leaves. *)
Definition script (w : world) : Z * world :=
  match main w with
  | (Return _, w') => (0, w')
  | (Throw e, w') => (1, snd (print Error e w'))
  end.

End Script.
End Catalog.

(** ** Faces: objects in a store, and [replaceFeatureIds] *)
Module Face.

(** The primitive values a face holds. *)
Inductive prim : Type :=
| PUndefined
| PNull
| PBool (b : bool)
| PNum (x : JsNum.jsnum)
| PStr (s : string).

Definition loc : Type := positive.

(** A value is a primitive or a reference to an object of the store. *)
Inductive val : Type :=
| Prim (p : prim)
| Ref (l : loc).

(** An object: its own properties, in order. *)
Definition object : Type := list (string * val).

(** [ToBoolean]. *)
Definition truthy_prim (p : prim) : bool :=
  match p with
  | PUndefined | PNull => false
  | PBool b => b
  | PNum JsNum.NaN | PNum (JsNum.Zero _) => false
  | PNum _ => true
  | PStr s => negb (String.eqb s "")
  end.

Definition truthy (v : val) : bool :=
  match v with
  | Prim p => truthy_prim p
  | Ref _ => true
  end.

(** [typeof v === "object"]. *)
Definition typeof_object (v : val) : bool :=
  match v with
  | Ref _ | Prim PNull => true
  | Prim _ => false
  end.

(** [o[k]] on the own properties of [o]; the prototype of an object is not
    modelled. *)
Fixpoint get (k : string) (o : object) : val :=
  match o with
  | [] => Prim PUndefined
  | (k', v) :: rest => if String.eqb k k' then v else get k rest
  end.

(** [o[k] = v]: the property keeps its place, a new one goes last. *)
Fixpoint set (k : string) (v : val) (o : object) : object :=
  match o with
  | [] => [(k, v)]
  | (k', v') :: rest =>
      if String.eqb k k' then (k, v) :: rest else (k', v') :: set k v rest
  end.

(** What [JSON.stringify] sees of a value: a tree. *)
Inductive tree : Type :=
| Leaf (p : prim)
| Node (fs : fields)
with fields : Type :=
| FNil
| FCons (k : string) (t : tree) (rest : fields).

(** Reads the fields of an object with [rd]. *)
Fixpoint read_fields (rd : val -> option tree) (o : object) : option fields :=
  match o with
  | [] => Some FNil
  | (k, v) :: rest =>
      match rd v, read_fields rd rest with
      | Some t, Some ts => Some (FCons k t ts)
      | _, _ => None
      end
  end.

(** Reads the tree under [v], through at most [fuel] references. *)
Fixpoint read (fuel : nat) (h : gmap loc object) (v : val) : option tree :=
  match v with
  | Prim p => Some (Leaf p)
  | Ref l =>
      match fuel with
      | O => None
      | S fuel' =>
          match h !! l with
          | Some o =>
              match read_fields (read fuel' h) o with
              | Some ts => Some (Node ts)
              | None => None
              end
          | None => None
          end
      end
  end.

(** Builds [t] out of fresh objects, the fields of an object first. *)
Fixpoint alloc (t : tree) (h : gmap loc object) : val * gmap loc object :=
  match t with
  | Leaf p => (Prim p, h)
  | Node fs =>
      let '(o, h1) := alloc_fields fs h in
      let l := fresh (dom h1) in
      (Ref l, <[l := o]> h1)
  end
with alloc_fields (fs : fields) (h : gmap loc object)
  : object * gmap loc object :=
  match fs with
  | FNil => ([], h)
  | FCons k t rest =>
      let '(v, h1) := alloc t h in
      let '(o, h2) := alloc_fields rest h1 in
      ((k, v) :: o, h2)
  end.

(** Modelled from the spec: [deepCopy] of [utils.js], which is not among
    the sources.  A deep copy shares no object with its argument: the tree
    under the argument is read and built again out of fresh objects.  [None]
    stands for the exception thrown on a structure that has a cycle.
    [replaceFeatureIds] below takes its [deepCopy] as a parameter; this one
    is the instance the examples run. *)
Definition structural_clone (h : gmap loc object) (v : val)
  : option (val * gmap loc object) :=
  match read (S (size h)) h v with
  | Some t => Some (alloc t h)
  | None => None
  end.

(** The replacement ids: the entries of a [FeatureIdMap], whose values are
    strings or [undefined] by its type; any primitive is allowed here. *)
Definition replacements : Type := list (string * prim).

(** [v[k]] in the store. *)
Definition get_prop (h : gmap loc object) (v : val) (k : string) : val :=
  match v with
  | Ref l =>
      match h !! l with
      | Some o => get k o
      | None => Prim PUndefined
      end
  | Prim _ => Prim PUndefined
  end.

(** [v[k] = x] in the store, for an object [v]. *)
Definition set_prop (h : gmap loc object) (v : val) (k : string) (x : val)
  : gmap loc object :=
  match v with
  | Ref l =>
      match h !! l with
      | Some o => <[l := set k x o]> h
      | None => h
      end
  | Prim _ => h
  end.

(** One turn of the loop of [replaceFeatureIds] on the store. *)
Definition replace_one (next : val) (h : gmap loc object)
    (entry : string * prim) : gmap loc object :=
  let '(feature, newId) := entry in
  if negb (truthy_prim newId) then h
  else
    let target := get_prop h next feature in
    if truthy target && typeof_object target
    then set_prop h target "id" (Prim newId)
    else h.

(** [replaceFeatureIds(face, replacements)] in the store [h], with the
    [deepCopy] it imports: the new face and the store it leaves, [None] when
    [deepCopy] throws. *)
Definition replaceFeatureIds
    (deepCopy : gmap loc object -> val -> option (val * gmap loc object))
    (h : gmap loc object) (face : loc) (r : replacements)
  : option (val * gmap loc object) :=
  match deepCopy h (Ref face) with
  | Some (next, h1) => Some (next, fold_left (replace_one next) r h1)
  | None => None
  end.

End Face.

(** ** The script that copies the description file into the build directory *)
Module CopyScript.
Import IO.

(** [fs.existsSync(path)] *)
Definition existsSync (path : string) : M bool := fun w =>
  match fs w !! path with
  | Some _ => (Return true, w)
  | None => (Return false, w)
  end.

(** [fs.mkdirSync(path, { recursive: true })]: a directory that exists is
    left alone, the missing ancestors are made first, and each new
    directory is added to the entries of its parent.  The recursion follows
    the separators of [path], of which there are fewer than [fuel]. *)
Fixpoint mkdir_recursive (fuel : nat) (path : string) : M unit := fun w =>
  match fs w !! path with
  | Some (Dir _) => (Return tt, w)
  | Some (File _) => (Throw ("EEXIST: " +:+ path), w)
  | None =>
      match fuel, split_path path with
      | S fuel', Some (dir, name) =>
          match mkdir_recursive fuel' dir w with
          | (Return _, w1) =>
              match fs w1 !! dir with
              | Some (Dir entries) =>
                  (Return tt,
                   {| fs := <[path := Dir []]>
                              (<[dir := Dir (entries ++ [name])%list]> (fs w1));
                      console := console w1 |})
              | _ => (Throw ("ENOTDIR: " +:+ path), w1)
              end
          | (Throw e, w1) => (Throw e, w1)
          end
      | _, _ => (Throw ("ENOENT: " +:+ path), w)
      end
  end.

Definition mkdirSync_recursive (path : string) : M unit :=
  mkdir_recursive (String.length path) path.

(** [fs.copyFileSync(src, dest)]: [dest] is created or replaced. *)
Definition copyFileSync (src dest : string) : M unit :=
  let* content := readFileSync src in
  writeFileSync dest content.

Section Script.
(** [path.join(import.meta.dirname, "..")] *)
Variable root : string.

Definition src : string := join (join root "svgs") "faces_descriptions.json".
Definition destDir : string := join root "build".
Definition dest : string := join destDir "faces_descriptions.json".

Definition script : M unit :=
  let* present := existsSync destDir in
  (if negb present then mkdirSync_recursive destDir else ret tt) ;;
  copyFileSync src dest ;;
  print Log ("Copied faces_descriptions.json to " +:+ dest).

End Script.
End CopyScript.


(** * The vocabulary of the statements

    Predicates and functions the properties below are stated with.  They
    describe texts, stores and worlds; none of them is part of the program. *)

Module RegExpSpec.
Import Str RegExp.

(** A regular expression that consumes at least one character whenever it
    matches. *)
Fixpoint nonempty (r : regex) : bool :=
  match r with
  | Chr _ => true
  | Seq r1 r2 => nonempty r1 || nonempty r2
  | Alt r1 r2 => nonempty r1 && nonempty r2
  | Grp r1 => nonempty r1
  | Eps | Star _ _ | Eos => false
  end.

End RegExpSpec.

Module SanitizerSpec.
Import Str RegExp Sanitizer.

(** One removal: of every match ([true]) or of the first one ([false]). *)
Definition stage : Type := bool * regex.

Definition apply_stage (st : stage) (s : string) : string :=
  if fst st then replace_all (snd st) s else replace_first (snd st) "" s.

Definition run_stages (l : list stage) (s : string) : string :=
  fold_left (fun acc st => apply_stage st acc) l s.

(** The removals of [extractInner(sanitize(stripProlog(svg)))], in order. *)
Definition stages : list stage :=
  [(true, re_xml_decl); (true, re_comment); (true, re_doctype);
   (true, re_metadata); (true, re_editor_block); (true, re_editor_tag);
   (true, re_editor_attr); (false, re_svg_open); (false, re_svg_close)].

(** No removal of the chain finds anything in [s]. *)
Definition clean (s : string) : Prop :=
  Forall (fun st : stage => exec (snd st) s = None) stages.

End SanitizerSpec.

Module ViewBoxSpec.
Import Str RegExp Sanitizer ViewBox JsNum.

Fixpoint upcase_all (s : string) : string :=
  match s with
  | EmptyString => ""
  | String c s' => String (upcase c) (upcase_all s')
  end.

(** The same text up to the case of ASCII letters. *)
Definition same_nocase (a b : string) : Prop := upcase_all a = upcase_all b.

Fixpoint all (p : ascii -> bool) (s : string) : bool :=
  match s with
  | EmptyString => true
  | String c s' => p c && all p s'
  end.

Definition no_quote (v : string) : Prop := all (except "034") v = true.

(** The attribute name with its equals sign and opening quote. *)
Definition viewBox_eq : string := "viewBox=" +:+ dq.

(** [raw] holds, after [pre], a view box attribute with the non-empty value
    [v], followed by [post]. *)
Definition viewBox_at (raw pre v post : string) : Prop :=
  exists head,
    raw = pre +:+ head +:+ v +:+ dq +:+ post /\
    same_nocase head viewBox_eq /\ v <> "" /\ no_quote v.

(** [p] stands at the head of [s], up to the case of ASCII letters. *)
Fixpoint prefix_i (p s : string) : bool :=
  match p, s with
  | EmptyString, _ => true
  | String a p', String b s' => Ascii.eqb (upcase a) (upcase b) && prefix_i p' s'
  | String _ _, EmptyString => false
  end.

(** The longest prefix whose characters satisfy [p], and the rest. *)
Fixpoint span (p : ascii -> bool) (s : string) : string * string :=
  match s with
  | String c s' =>
      if p c then let '(v, rest) := span p s' in (String c v, rest)
      else ("", s)
  | EmptyString => ("", "")
  end.

End ViewBoxSpec.

Module JsNumSpec.
Import JsNum.

(** [x] is finite and its value is [q]. *)
Definition repr (x : jsnum) (q : Q) : Prop :=
  match x with
  | Fin p => (p == q)%Q /\ ~ (p == 0)%Q
  | Zero _ => (q == 0)%Q
  | NaN | Inf _ => False
  end.

(** The bound on the error of one rounding of [q]: half a unit in the last
    of 53 binary places, and half the least positive number where [q] is
    below the normal range. *)
Definition rounding (q : Q) : Q := (Qabs q * 2 ^ (-53) + 2 ^ (-1075))%Q.

(** [x] is finite and its value is [q] up to one rounding. *)
Definition near (x : jsnum) (q : Q) : Prop :=
  exists p, repr x p /\ (Qabs (p - q) <= rounding q)%Q.

End JsNumSpec.

Module SortSpec.
Import Sort.

Section By.
Context {A : Type} (cmp : A -> A -> comparison).

(** What a comparator has to satisfy for the result to be ordered: two
    elements are never each strictly after the other, and "not after" is
    transitive. *)
Definition asymmetric : Prop := forall a b, cmp a b = Gt -> cmp b a <> Gt.
Definition transitive : Prop :=
  forall a b c, cmp a b <> Gt -> cmp b c <> Gt -> cmp a c <> Gt.

End By.

End SortSpec.

Module CatalogSpec.
Import Str RegExp Sanitizer ViewBox Layout Doc IO Sort Catalog.

(** A computation that leaves the world as it found it. *)
Definition pure {A} (m : M A) : Prop := forall w r w', m w = (r, w') -> w' = w.

(** How many chunks of a document satisfy [p]. *)
Definition count (p : chunk -> bool) (l : list chunk) : nat :=
  length (List.filter p l).

(** The engine is absent, or its conversion of [svg] throws. *)
Definition raster_fails (sharp : option (string -> option string))
    (svg : string) : Prop :=
  match sharp with
  | None => True
  | Some convert => convert svg = None
  end.

Section Script.
Context {P : Platform}.

(** An entry of [svgRoot] that is kept: not hidden, and a directory. *)
Definition is_category_in (w : world) (name : string) : bool :=
  negb (startsWith "." name) &&
  match fs w !! join svgRoot name with
  | Some (Dir _) => true
  | _ => false
  end.

Definition is_file (w : world) (path : string) : Prop :=
  exists content, fs w !! path = Some (File content).

Definition content_of (w : world) (path : string) : string :=
  match fs w !! path with
  | Some (File content) => content
  | _ => ""
  end.

Fixpoint blocks_in (w : world) (y : Z) (dir : string) (idx : nat)
    (files : list string) : list chunk :=
  match files with
  | [] => []
  | file :: rest =>
      block_of y idx file (content_of w (join dir file))
      :: blocks_in w y dir (S idx) rest
  end.

(** [main] up to the line that logs the written path. *)
Definition write_catalog : M document :=
  let* d := build in
  (writeFileSync outputPath (render d) ;;
   print Log ("Wrote " +:+ outputPath)) ;;
  ret d.

End Script.

End CatalogSpec.

(** Reading a tag of a written text. *)
Module RootSpec.
Import Str RegExp ViewBox Doc.

(** The opening tag of the root element: the text up to its first [>]. *)
Fixpoint root_tag (s : string) : string :=
  match s with
  | EmptyString => ""
  | String c s' => if Ascii.eqb c ">" then ">" else String c (root_tag s')
  end.

(** A space, [name], an equals sign and a value between double quotes,
    which is captured. *)
Definition re_attribute (name : string) : regex :=
  seq [lit (" " +:+ name +:+ "=" +:+ dq); Grp (Star true (except "034"));
       Chr (only "034")].

(** The value of the first attribute [name] of a tag. *)
Definition attribute (name tag : string) : option string :=
  match exec (re_attribute name) tag with
  | Some f => group1 f
  | None => None
  end.

Definition is_digit (c : ascii) : bool :=
  match digit c with Some _ => true | None => false end.

(** The value of a run of digits read on top of [a]. *)
Fixpoint uint_value (a : Z) (d : Decimal.uint) : Z :=
  match d with
  | Decimal.Nil => a
  | Decimal.D0 l => uint_value (10 * a + 0) l
  | Decimal.D1 l => uint_value (10 * a + 1) l
  | Decimal.D2 l => uint_value (10 * a + 2) l
  | Decimal.D3 l => uint_value (10 * a + 3) l
  | Decimal.D4 l => uint_value (10 * a + 4) l
  | Decimal.D5 l => uint_value (10 * a + 5) l
  | Decimal.D6 l => uint_value (10 * a + 6) l
  | Decimal.D7 l => uint_value (10 * a + 7) l
  | Decimal.D8 l => uint_value (10 * a + 8) l
  | Decimal.D9 l => uint_value (10 * a + 9) l
  end.

Definition stops (rest : string) : Prop :=
  match rest with
  | String c _ => digit c = None
  | EmptyString => True
  end.

(** The root tag with [sw] and [sh] for the width and the height. *)
Definition tag_of (sw sh : string) : string :=
  "<svg " +:+ attr "xmlns" "http://www.w3.org/2000/svg" +:+ " "
  +:+ attr "width" sw +:+ " " +:+ attr "height" sh +:+ " "
  +:+ attr "viewBox" ("0 0 " +:+ sw +:+ " " +:+ sh) +:+ ">".

End RootSpec.

(** The text of the nodes of a document, for statements about its text. *)
Module DocSpec.
Import Str.

(** A value between double quotes. *)
Definition quoted (v : string) : string := dq +:+ v +:+ dq.

(** A title node: the name of a category at height [y]. *)
Definition title_text (y category : string) : string :=
  "<text x=" +:+ quoted "24" +:+ " y=" +:+ quoted y
  +:+ " font-family=" +:+ quoted "Arial, sans-serif"
  +:+ " font-size=" +:+ quoted "18" +:+ " font-weight=" +:+ quoted "bold"
  +:+ ">" +:+ category +:+ "</text>".

(** A grouped fragment block: the cell at [(x, y)], its frame, the inner
    markup under its fit transform, and the label. *)
Definition block_text (x y tx ty scale inner id : string) : string :=
  "<g transform=" +:+ quoted ("translate(" +:+ x +:+ " " +:+ y +:+ ")") +:+ ">"
  +:+ "<rect width=" +:+ quoted "180" +:+ " height=" +:+ quoted "240"
  +:+ " rx=" +:+ quoted "8" +:+ " ry=" +:+ quoted "8"
  +:+ " fill=" +:+ quoted "#f7f7f7" +:+ " stroke=" +:+ quoted "#ddd" +:+ "/>"
  +:+ "<g transform="
  +:+ quoted ("translate(" +:+ tx +:+ " " +:+ ty +:+ ") scale(" +:+ scale +:+ ")")
  +:+ ">" +:+ inner +:+ "</g>"
  +:+ "<text x=" +:+ quoted "90" +:+ " y=" +:+ quoted "234"
  +:+ " font-family=" +:+ quoted "Arial, sans-serif"
  +:+ " font-size=" +:+ quoted "14" +:+ " text-anchor=" +:+ quoted "middle"
  +:+ " fill=" +:+ quoted "#333" +:+ ">" +:+ id +:+ "</text>"
  +:+ "</g>".

(** The text of a document of [width] by [height] with the [nodes]. *)
Definition document_text (width height : string) (nodes : list string) : string :=
  "<svg xmlns=" +:+ quoted "http://www.w3.org/2000/svg"
  +:+ " width=" +:+ quoted width +:+ " height=" +:+ quoted height
  +:+ " viewBox=" +:+ quoted ("0 0 " +:+ width +:+ " " +:+ height) +:+ ">"
  +:+ String "010"%char "" +:+ join (String "010"%char "") nodes
  +:+ String "010"%char "" +:+ "</svg>" +:+ String "010"%char "".

End DocSpec.

Module FaceSpec.
Import Face.

Fixpoint tget (k : string) (fs : fields) : option tree :=
  match fs with
  | FNil => None
  | FCons k' t rest => if String.eqb k k' then Some t else tget k rest
  end.

Fixpoint tset (k : string) (t : tree) (fs : fields) : fields :=
  match fs with
  | FNil => FCons k t FNil
  | FCons k' t' rest =>
      if String.eqb k k' then FCons k t rest else FCons k' t' (tset k t rest)
  end.

Fixpoint keys (fs : fields) : list string :=
  match fs with
  | FNil => []
  | FCons k _ rest => k :: keys rest
  end.

Fixpoint depth (t : tree) : nat :=
  match t with
  | Leaf _ => 0
  | Node fs => S (depth_fields fs)
  end
with depth_fields (fs : fields) : nat :=
  match fs with
  | FNil => 0
  | FCons _ t rest => Nat.max (depth t) (depth_fields rest)
  end.

(** A feature with its [id] set: an object gets the field, any other value
    stays. *)
Definition with_id (newId : prim) (t : tree) : tree :=
  match t with
  | Node sub => Node (tset "id" (Leaf newId) sub)
  | Leaf _ => t
  end.

(** One turn of the loop, on the tree of the copy. *)
Definition replace_one_tree (fs : fields) (entry : string * prim) : fields :=
  let '(feature, newId) := entry in
  if negb (truthy_prim newId) then fs
  else
    match tget feature fs with
    | Some (Node sub) => tset feature (Node (tset "id" (Leaf newId) sub)) fs
    | _ => fs
    end.

(** *** Objects of the store that stand for a tree

    [repr h v t F]: in [h], the value [v] is the root of the tree [t], whose
    objects are those of [F], each used once. *)
Inductive repr (h : gmap loc object) : val -> tree -> gset loc -> Prop :=
| repr_leaf p : repr h (Prim p) (Leaf p) ∅
| repr_node l o fs F :
    h !! l = Some o -> repr_fields h o fs F -> l ∉ F ->
    repr h (Ref l) (Node fs) ({[l]} ∪ F)
with repr_fields (h : gmap loc object) : object -> fields -> gset loc -> Prop :=
| repr_nil : repr_fields h [] FNil ∅
| repr_cons k v t o fs F1 F2 :
    repr h v t F1 -> repr_fields h o fs F2 -> F1 ## F2 ->
    repr_fields h ((k, v) :: o) (FCons k t fs) (F1 ∪ F2).

Scheme repr_mut := Minimality for repr Sort Prop
  with repr_fields_mut := Minimality for repr_fields Sort Prop.
Combined Scheme repr_both from repr_mut, repr_fields_mut.

Scheme tree_mut := Induction for tree Sort Prop
  with fields_mut := Induction for fields Sort Prop.
Combined Scheme tree_both from tree_mut, fields_mut.

(** What a deep copy is: for an argument under which a tree can be read,
    it returns a value that stands for the same tree in a store that
    extends the given one, built of objects the given store did not hold,
    each used once. *)
Definition deep_copy
    (deepCopy : gmap loc object -> val -> option (val * gmap loc object))
  : Prop :=
  forall h v t,
    read (S (size h)) h v = Some t ->
    exists v' h' F,
      deepCopy h v = Some (v', h') /\ h ⊆ h' /\ repr h' v' t F /\ F ## dom h.

End FaceSpec.

(** Where chunks stand, and what a document shows. *)
Module GridSpec.
Import Layout Doc IO.

(** [c1], pushed before [c2], is drawn clear of it: a title and the next
    one are a title row and a gap apart, a block starts a title row below
    the title of its category, a title comes a gap below the cell of every
    block before it, and of two blocks the later one stands in a later row
    or in the same row a column pitch to the right. *)
Definition apart (c1 c2 : chunk) : Prop :=
  match c1, c2 with
  | Title y1 _, Title y2 _ => y1 + titleHeight + categoryGap <= y2
  | Title y1 _, Block _ y2 _ _ _ => y1 + titleHeight <= y2
  | Block _ y1 _ _ _, Title y2 _ => y1 + blockHeight + categoryGap <= y2
  | Block x1 y1 _ _ _, Block x2 y2 _ _ _ =>
      y1 + blockHeight <= y2 \/ (y1 = y2 /\ x1 + colWidth <= x2)
  end.

(** [c] lies on a canvas of [width] by [height], the padding kept free:
    the baseline of a title, the rectangle of a block. *)
Definition inside (width height : Z) (c : chunk) : Prop :=
  match c with
  | Title y _ => padding <= y /\ y + titleHeight <= height - padding
  | Block x y _ _ _ =>
      padding <= x /\ x + thumbWidth <= width - padding /\
      padding + titleHeight <= y /\ y + thumbHeight <= height - padding
  end.

(** The entries of the directory [dir], none where it is no directory. *)
Definition entries_of (w : world) (dir : string) : list string :=
  match fs w !! dir with
  | Some (Dir entries) => entries
  | _ => []
  end.

(** A block of the grid that starts at [y], with an index from [s] up to
    [s + n]. *)
Definition block_at (y : Z) (s n : nat) (b : chunk) : Prop :=
  exists i f inner id,
    (s <= i < s + n)%nat /\ b = Block (cell_x i) (cell_y y i) f inner id.

(** What a document shows, in order: whether a chunk is a title, and its
    text. *)
Definition outline (chunks : list chunk) : list (bool * string) :=
  map (fun c => (is_title c, chunk_id c)) chunks.

(** The chunks pushed so far lie on a canvas that ends a padding below
    [y], a gap above [y], and clear of one another. *)
Definition laid_out (st : Z * list chunk) : Prop :=
  let '(y, chunks) := st in
  padding <= y /\
  Forall (inside (2 * padding + cols * colWidth) (y + padding)) chunks /\
  Forall (fun c => apart c (Title y "")) chunks /\
  ForallOrdPairs apart chunks.

(** What the category adds to the outline in the world [w]: its title
    and the labels of its files. *)
Definition section_of {P : Platform} (w : world) (category : string)
  : list (bool * string) :=
  (true, category)
  :: map (fun file => (false, Catalog.basename_svg file))
         (Catalog.list_files (entries_of w (join svgRoot category))).

(** The height the category takes in the world [w]: its title row, its
    rows of blocks and the gap after it. *)
Definition band_of {P : Platform} (w : world) (category : string) : Z :=
  titleHeight
  + rows_of (length (Catalog.list_files (entries_of w (join svgRoot category))))
    * blockHeight
  + categoryGap.

Fixpoint total (l : list Z) : Z :=
  match l with
  | [] => 0
  | x :: rest => x + total rest
  end.

End GridSpec.

(** What a run reads and leaves. *)
Module ScriptSpec.
Import Str Doc IO Sort Catalog CatalogSpec GridSpec.

Section Script.
Context {P : Platform}.

(** What [main] needs to read is there: the root is a directory, each of
    its entries that is not hidden exists, and in each category every entry
    that ends in [.svg] is a file. *)
Definition readable (w : world) : Prop :=
  exists names,
    fs w !! svgRoot = Some (Dir names) /\
    Forall (fun name => startsWith "." name = true \/
                        is_Some (fs w !! join svgRoot name)) names /\
    Forall (fun category =>
              Forall (fun file => is_file w (join (join svgRoot category) file))
                     (list_files (entries_of w (join svgRoot category))))
           (List.filter (is_category_in w) names).

(** One turn of the loop over the categories and the whole document, as
    functions of the file system. *)
Definition category_layout (w : world) (st : Z * list chunk)
    (category : string) : Z * list chunk :=
  let '(y, chunks) := st in
  let files := list_files (entries_of w (join svgRoot category)) in
  (y + Layout.titleHeight
   + Layout.rows_of (length files) * Layout.blockHeight + Layout.categoryGap,
   (chunks
    ++ Title y category
       :: blocks_in w (y + Layout.titleHeight) (join svgRoot category) 0 files)%list).

Definition document_of (w : world) : document :=
  let '(y, chunks) :=
    fold_left (category_layout w)
      (sort (List.filter (is_category_in w) (entries_of w svgRoot)))
      (Layout.padding, []) in
  {| doc_width := Layout.padding * 2 + Layout.cols * Layout.colWidth;
     doc_height := y + Layout.padding;
     doc_chunks := chunks |}.

End Script.

Definition is_dir (w : world) (path : string) : Prop :=
  exists entries, fs w !! path = Some (Dir entries).

(** A name without a separator. *)
Definition plain_name (name : string) : Prop :=
  ViewBoxSpec.all (RegExp.except "/") name = true.

(** [w2] is [w] after a file named [name] was written into the root: the
    file is there, the root lists it, once more if it is new, and every
    other path is as it was. *)
Definition wrote_in_root {P : Platform} (name : string) (w w2 : world) : Prop :=
  (forall q, q <> join svgRoot name -> q <> svgRoot -> fs w2 !! q = fs w !! q) /\
  is_file w2 (join svgRoot name) /\
  ~ is_dir w (join svgRoot name) /\
  exists names,
    fs w !! svgRoot = Some (Dir names) /\
    (fs w2 !! svgRoot = Some (Dir names) \/
     (fs w !! join svgRoot name = None /\
      fs w2 !! svgRoot = Some (Dir (names ++ [name])%list))).

(** The catalog is up to date: it holds the text of the document of the
    file system as it is, and where the engine converts that text, the PNG
    holds the result, unless its path is a directory. *)
Definition settled {P : Platform} (sharp : option (string -> option string))
    (w : world) : Prop :=
  readable w /\
  fs w !! Catalog.outputPath = Some (File (render (document_of w))) /\
  forall convert png,
    sharp = Some convert -> convert (render (document_of w)) = Some png ->
    is_dir w (join svgRoot "catalog.png") \/
    fs w !! join svgRoot "catalog.png" = Some (File png).

End ScriptSpec.

(** Texts. *)
Module TextSpec.

(** [a] is [b] with some of its characters left out. *)
Inductive subseq : string -> string -> Prop :=
| subseq_nil : subseq "" ""
| subseq_keep c a b : subseq a b -> subseq (String c a) (String c b)
| subseq_drop c a b : subseq a b -> subseq a (String c b).

End TextSpec.

Module TagSpec.
Import Str RegExp ViewBoxSpec.

(** [pre] is empty, or its last character is none of [p], whatever the
    case. *)
Definition ends_clear_of (p pre : string) : Prop :=
  pre = "" \/
  exists pre0 c,
    pre = pre0 +:+ String c "" /\
    all (fun x => negb (Ascii.eqb (upcase x) (upcase c))) p = true.

End TagSpec.

(** * Sample inputs *)

(** A host's printing of numbers: the digits of [Number::toString], the
    shortest decimal that reads back as the number. *)
Module Printer.
Import JsNum Doc.

(** [10 ^ e] *)
Definition pow10 (e : Z) : Q := Qpower 10 e.

Fixpoint raise (fuel : nat) (x : Q) (n : Z) : Z :=
  match fuel with
  | O => n
  | S fuel' => if Qle_bool (pow10 n) x then raise fuel' x (n + 1) else n
  end.

Fixpoint lower (fuel : nat) (x : Q) (n : Z) : Z :=
  match fuel with
  | O => n
  | S fuel' => if Qle_bool (pow10 (n - 1)) x then n else lower fuel' x (n - 1)
  end.

(** The [n] with [10 ^ (n - 1) <= x < 10 ^ n], for a positive [x]: found
    from the binary exponent, which is off by one at most. *)
Definition decimal_exponent (x : Q) : Z :=
  let r := Qred x in
  let e2 := ilog2 (Z.to_pos (Qnum r)) (Qden r) in
  lower 4 x (raise 4 x (e2 * 30103 / 100000)).

(** [s * 10 ^ (n - k)] reads back as [x]. *)
Definition reads_as (x : Q) (s n k : Z) : bool :=
  match round (inject_Z s * pow10 (n - k)) with
  | Fin y => Qeq_bool y x
  | _ => false
  end.

(** The decimals of [k] digits that read back as [x], each with its
    decimal exponent, the nearest to [x] first and the even one first of
    two that are as near. *)
Definition decimals (x : Q) (n k : Z) : list (Z * Z) :=
  let unit := pow10 (n - k) in
  let s0 := Qfloor (x / unit) in
  let below := if reads_as x s0 n k then [(s0, n)] else [] in
  let above :=
    if reads_as x (s0 + 1) n k
    then [if s0 + 1 =? 10 ^ k then (10 ^ (k - 1), n + 1) else (s0 + 1, n)]
    else [] in
  let d0 := (x - inject_Z s0 * unit)%Q in
  let d1 := (inject_Z (s0 + 1) * unit - x)%Q in
  match Qcompare d0 d1 with
  | Lt => (below ++ above)%list
  | Gt => (above ++ below)%list
  | Eq => if Z.even s0 then (below ++ above)%list else (above ++ below)%list
  end.

(** The least number of digits that will do, from [k] on. *)
Fixpoint shortest_from (fuel : nat) (x : Q) (n k : Z) : Z * Z * Z :=
  match fuel with
  | O => (0, n, k)
  | S fuel' =>
      match decimals x n k with
      | (s, n') :: _ => (s, n', k)
      | [] => shortest_from fuel' x n (k + 1)
      end
  end.

Definition zeros (n : Z) : string :=
  Str.join "" (List.repeat "0" (Z.to_nat n)).

(** [Number::toString] of a positive [x]. *)
Definition print_positive (x : Q) : string :=
  let '(s, n, k) := shortest_from 17 x (decimal_exponent x) 1 in
  let digits := show_int s in
  if (k <=? n) && (n <=? 21) then digits +:+ zeros (n - k)
  else if (0 <? n) && (n <=? 21)
  then Str.take (Z.to_nat n) digits +:+ "." +:+ Str.drop (Z.to_nat n) digits
  else if (-6 <? n) && (n <=? 0) then "0." +:+ zeros (- n) +:+ digits
  else
    let e := n - 1 in
    let exp := (if e <? 0 then "-" else "+") +:+ show_int (Z.abs e) in
    if k =? 1 then digits +:+ "e" +:+ exp
    else Str.take 1 digits +:+ "." +:+ Str.drop 1 digits +:+ "e" +:+ exp.

Definition print (q : Q) : string :=
  if Qle_bool 0 q then print_positive q else "-" +:+ print_positive (- q).

End Printer.

Module Example.
Import Str Doc IO Face.

(** A platform: the token-wise comparison for the numeric collation, and
    the printing of numbers of [Printer]. *)
#[export] Instance platform : Platform := {|
  localeCompare_numeric := Sort.numeric_compare;
  number_toString_other := Printer.print;
  svgRoot := "/facesjs/svgs"
|}.

(** A fragment with a nested [svg] element. *)
Definition nested_svg : string := "<svg><svg><path/></svg></svg>".

Definition plain_svg : string := "<svg><path/></svg>".

Definition boxed_svg : string :=
  "<svg viewBox=" +:+ dq +:+ "0 0 100 50" +:+ dq +:+ "><path/></svg>".

(** A fragment whose view box attribute holds no number. *)
Definition unparsable_svg : string :=
  "<svg viewBox=" +:+ dq +:+ "abc" +:+ dq +:+ "><path/></svg>".

(** A fragment that is nothing but a path in a view box. *)
Definition fragment (box : string) : string :=
  "<svg viewBox=" +:+ dq +:+ box +:+ dq +:+ "><path/></svg>".

(** A fragment whose comment holds a view box ahead of the one of the
    [svg] element, and two whose metadata block and editor element do. *)
Definition commented_svg : string :=
  "<!-- viewBox=" +:+ dq +:+ "0 0 10 10" +:+ dq +:+ " -->"
  +:+ fragment "0 0 100 100".

Definition metadata_svg : string :=
  "<metadata viewBox=" +:+ dq +:+ "0 0 10 10" +:+ dq +:+ "></metadata>"
  +:+ fragment "0 0 100 100".

Definition editor_svg : string :=
  "<sodipodi:namedview viewBox=" +:+ dq +:+ "0 0 10 10" +:+ dq +:+ "/>"
  +:+ fragment "0 0 100 100".

(** A root with one category, which holds no fragment. *)
Definition empty_category_world : world :=
  {| fs := list_to_map
             [("/facesjs/svgs", Dir ["eyes"]);
              ("/facesjs/svgs/eyes", Dir ["README.md"])];
     console := [] |}.

(** The scenario, as a directory tree that lists its entries out of order. *)
Definition scenario_world : world :=
  {| fs := list_to_map
             [("/facesjs/svgs", Dir ["mouths"; "eyes"]);
              ("/facesjs/svgs/eyes", Dir ["right.svg"; "notes.txt"; "left.svg"]);
              ("/facesjs/svgs/mouths", Dir ["smile.svg"]);
              ("/facesjs/svgs/eyes/left.svg", File (fragment "0 0 100 100"));
              ("/facesjs/svgs/eyes/right.svg", File (fragment "0 0 50 200"));
              ("/facesjs/svgs/eyes/notes.txt", File "not a fragment");
              ("/facesjs/svgs/mouths/smile.svg", File (fragment "0 0 200 50"))];
     console := [] |}.

(** A face in a store: two features, a number and a feature that is
    [null]. *)
Definition face_store : gmap loc object :=
  list_to_map
    [(1%positive, [("fatness", Prim (PNum (JsNum.Fin (1 # 2)))); ("hair", Ref 2%positive);
                   ("eye", Ref 3%positive); ("glasses", Prim PNull)]);
     (2%positive, [("id", Prim (PStr "short")); ("flip", Prim (PBool false))]);
     (3%positive, [("id", Prim (PStr "eye1")); ("angle", Prim (PNum (JsNum.Fin 5)))])].

Definition some_replacements : replacements :=
  [("hair", PStr "afro"); ("eye", PStr ""); ("fatness", PStr "x");
   ("glasses", PStr "round"); ("nose", PStr "nose2")].

End Example.

Module Sample.

(** An engine for the examples: its PNG is the text it was given behind
    a mark. *)
Definition engine (svg : string) : option string := Some ("PNG of " +:+ svg).

End Sample.

Module CopySample.
Import IO.

(** A checkout that was never built, and one whose description file is
    missing. *)
Definition fresh_checkout : world :=
  {| fs := list_to_map
             [("/facesjs", Dir ["svgs"; "tools"]);
              ("/facesjs/svgs", Dir ["faces_descriptions.json"]);
              ("/facesjs/svgs/faces_descriptions.json", File "{}")];
     console := [] |}.

Definition bare_checkout : world :=
  {| fs := list_to_map [("/facesjs", Dir ["svgs"]); ("/facesjs/svgs", Dir [])];
     console := [] |}.

End CopySample.

(** * Properties *)

(** ** Strings *)
Module StrFacts.
Import Str.

Lemma len_app (s t : string) : len (s +:+ t) = (len s + len t)%nat.
Proof. induction s as [|c s IH]; simpl; [reflexivity | now rewrite <- IH]. Qed.

Lemma app_nil_r (s : string) : s +:+ "" = s.
Proof. induction s as [|c s IH]; simpl; [reflexivity | now rewrite IH]. Qed.

Lemma app_assoc (s t u : string) : (s +:+ t) +:+ u = s +:+ (t +:+ u).
Proof. induction s as [|c s IH]; simpl; [reflexivity | now rewrite IH]. Qed.

Lemma rev_onto_app (acc s : string) : rev_onto acc s = rev s +:+ acc.
Proof.
  unfold rev. revert acc.
  induction s as [|c s IH]; intros acc; simpl; [reflexivity|].
  rewrite (IH (String c acc)), (IH (String c "")), app_assoc. reflexivity.
Qed.

Lemma rev_cons (c : ascii) (s : string) : rev (String c s) = rev s +:+ String c "".
Proof. unfold rev at 1. simpl. apply rev_onto_app. Qed.

Lemma rev_app (s t : string) : rev (s +:+ t) = rev t +:+ rev s.
Proof.
  induction s as [|c s IH]; simpl.
  - now rewrite app_nil_r.
  - now rewrite !rev_cons, IH, app_assoc.
Qed.

Lemma rev_rev (s : string) : rev (rev s) = s.
Proof.
  induction s as [|c s IH]; [reflexivity|].
  now rewrite rev_cons, rev_app, IH.
Qed.

Lemma take_drop (n : nat) (s : string) : take n s +:+ drop n s = s.
Proof.
  revert s. induction n as [|n IH]; intros [|c s]; simpl; try reflexivity.
  now rewrite IH.
Qed.

Lemma len_take (n : nat) (s : string) : (n <= len s)%nat -> len (take n s) = n.
Proof.
  revert s. induction n as [|n IH]; intros [|c s]; simpl; intros H;
    try reflexivity; try lia.
  rewrite IH; [reflexivity | lia].
Qed.

Lemma take_app (v w : string) : take (len v) (v +:+ w) = v.
Proof. induction v as [|c v IH]; simpl; [now destruct w | now rewrite IH]. Qed.

Lemma drop_app (v w : string) : drop (len v) (v +:+ w) = w.
Proof. induction v as [|c v IH]; simpl; [reflexivity | exact IH]. Qed.

Lemma len_drop (n : nat) (s : string) : len (drop n s) = (len s - n)%nat.
Proof.
  revert s. induction n as [|n IH]; intros [|c s]; simpl; try reflexivity.
  apply IH.
Qed.

End StrFacts.

(** ** The matcher *)
Module RegExpFacts.
Import Str StrFacts RegExp.
Export RegExpSpec.

Section Continuations.
Context {R : Type}.

Lemma star_greedy_cont p (k : string -> option R) s x :
  star_greedy p k s = Some x ->
  exists s', k s' = Some x /\ (len s' <= len s)%nat.
Proof.
  induction s as [|c s IH]; simpl.
  - intros H. exists ""; auto.
  - destruct (p c).
    + destruct (star_greedy p k s) as [y|] eqn:E.
      * intros [= ->]. destruct (IH eq_refl) as (s' & Hk & Hl).
        exists s'; split; [assumption | lia].
      * intros H. exists (String c s); auto.
    + intros H. exists (String c s); auto.
Qed.

Lemma star_lazy_cont p (k : string -> option R) s x :
  star_lazy p k s = Some x ->
  exists s', k s' = Some x /\ (len s' <= len s)%nat.
Proof.
  induction s as [|c s IH]; simpl.
  - destruct (k "") eqn:E; [|discriminate]. intros [= ->]. exists ""; auto.
  - destruct (k (String c s)) eqn:E.
    + intros [= ->]. exists (String c s); auto.
    + destruct (p c); [|discriminate]. intros H.
      destruct (IH H) as (s' & Hk & Hl). exists s'; split; [assumption | lia].
Qed.

(** Whatever [run] returns was returned by its continuation, on a suffix no
    longer than the input, and shorter where [r] is [nonempty]. *)
Lemma run_cont r : forall s cap (k : string -> option string -> option R) x,
  run r s cap k = Some x ->
  exists s' cap', k s' cap' = Some x /\ (len s' <= len s)%nat /\
                  (nonempty r = true -> (len s' < len s)%nat).
Proof.
  induction r as [|p|r1 IH1 r2 IH2|r1 IH1 r2 IH2|g p|r1 IH1|]; intros s cap k x; simpl.
  - intros H. exists s, cap. repeat split; auto; discriminate.
  - destruct s as [|c s]; [discriminate|]. destruct (p c); [|discriminate].
    intros H. exists s, cap. simpl. repeat split; auto; lia.
  - intros H. destruct (IH1 _ _ _ _ H) as (s1 & c1 & H1 & L1 & N1).
    destruct (IH2 _ _ _ _ H1) as (s2 & c2 & H2 & L2 & N2).
    exists s2, c2. repeat split; [assumption | lia |].
    intros Hn. apply orb_true_iff in Hn as [Hn|Hn]; [specialize (N1 Hn) | specialize (N2 Hn)]; lia.
  - destruct (run r1 s cap k) as [y|] eqn:E.
    + intros [= ->]. destruct (IH1 _ _ _ _ E) as (s1 & c1 & H1 & L1 & N1).
      exists s1, c1. repeat split; auto. intros Hn. apply andb_true_iff in Hn as [Hn _]. auto.
    + intros H. destruct (IH2 _ _ _ _ H) as (s1 & c1 & H1 & L1 & N1).
      exists s1, c1. repeat split; auto. intros Hn. apply andb_true_iff in Hn as [_ Hn]. auto.
  - destruct g; intros H;
      [apply star_greedy_cont in H | apply star_lazy_cont in H];
      destruct H as (s' & Hk & Hl); exists s', cap; repeat split; auto; discriminate.
  - intros H. destruct (IH1 _ _ _ _ H) as (s1 & c1 & H1 & L1 & N1).
    eexists s1, _. repeat split; eauto.
  - destruct s; [|discriminate]. intros H. exists "", cap. repeat split; auto; discriminate.
Qed.

End Continuations.

Lemma match_at_len r s n cap :
  match_at r s = Some (n, cap) ->
  (n <= len s)%nat /\ (nonempty r = true -> (0 < n)%nat).
Proof.
  unfold match_at. intros H.
  apply run_cont in H as (s' & c' & [= <- <-] & L & N).
  split; [lia|]. intros Hn. specialize (N Hn). lia.
Qed.

(** *** No match, no change *)

Lemma search_from_None r pre s :
  search_from r pre s = None ->
  match_at r s = None /\
  match s with
  | String c s' => search_from r (String c pre) s' = None
  | EmptyString => True
  end.
Proof.
  destruct s as [|c s]; simpl;
    destruct (match_at r _) as [[n cap]|]; try discriminate; auto.
Qed.

Lemma replace_all_from_id r s : forall pre,
  search_from r pre s = None -> replace_all_from r 0 s = s.
Proof.
  induction s as [|c s IH]; intros pre H; [reflexivity|].
  apply search_from_None in H as [Hm Hs]. simpl in *.
  unfold match_at in Hm. simpl in Hm. unfold match_at. simpl. rewrite Hm.
  f_equal. eauto.
Qed.

Lemma replace_all_id r s : exec r s = None -> replace_all r s = s.
Proof. apply replace_all_from_id. Qed.

Lemma replace_first_id r rep s : exec r s = None -> replace_first r rep s = s.
Proof. unfold replace_first. now intros ->. Qed.

(** *** A match shortens the text *)

Lemma len_replace_all_from r s : forall skip,
  (len (replace_all_from r skip s) <= len s)%nat.
Proof.
  induction s as [|c s IH]; intros skip; simpl; [lia|].
  destruct skip as [|k]; [|specialize (IH k); lia].
  destruct (match_at r (String c s)) as [[[|n] cap]|]; simpl;
    [specialize (IH 0%nat) | specialize (IH n) | specialize (IH 0%nat)]; lia.
Qed.

Lemma len_replace_all r s : (len (replace_all r s) <= len s)%nat.
Proof. apply len_replace_all_from. Qed.

Lemma replace_all_from_shorter r s : nonempty r = true -> forall pre f,
  search_from r pre s = Some f ->
  (len (replace_all_from r 0 s) < len s)%nat.
Proof.
  intros Hr. induction s as [|c s IH]; intros pre f.
  - simpl. destruct (match_at r "") as [[n cap]|] eqn:E; [|discriminate].
    apply match_at_len in E as [L N]. specialize (N Hr). simpl in L. lia.
  - cbn [search_from replace_all_from].
    destruct (match_at r (String c s)) as [[n cap]|] eqn:E.
    + apply match_at_len in E as [L N]. specialize (N Hr).
      destruct n as [|n]; [lia|]. intros _.
      pose proof (len_replace_all_from r s n). simpl. lia.
    + intros H. specialize (IH _ _ H). simpl. lia.
Qed.

Lemma replace_all_shorter r s :
  nonempty r = true -> exec r s <> None ->
  (len (replace_all r s) < len s)%nat.
Proof.
  intros Hr H. destruct (exec r s) as [f|] eqn:E; [|congruence].
  eapply replace_all_from_shorter; eauto.
Qed.

(** What [search_from] found: the text splits into what stands before the
    match, the match and what follows. *)
Lemma search_from_split r s : forall pre f,
  search_from r pre s = Some f ->
  rev pre +:+ s = before f +:+ matched f +:+ after f /\
  (nonempty r = true -> (0 < len (matched f))%nat).
Proof.
  induction s as [|c s IH]; intros pre f; cbn [search_from].
  - destruct (match_at r "") as [[n cap]|] eqn:E; [|discriminate].
    intros [= <-]. simpl. apply match_at_len in E as [L N].
    split; [now destruct n | intros Hr; specialize (N Hr); simpl in L; lia].
  - destruct (match_at r (String c s)) as [[n cap]|] eqn:E.
    + intros [= <-]. cbn [before matched after].
      apply match_at_len in E as [L N]. rewrite take_drop. split; [reflexivity|].
      intros Hr. rewrite len_take by assumption. auto.
    + intros H. destruct (IH _ _ H) as [H1 H2]. split; [|assumption].
      rewrite <- H1, rev_cons, app_assoc. reflexivity.
Qed.

Lemma len_replace_first r s : (len (replace_first r "" s) <= len s)%nat.
Proof.
  unfold replace_first, exec. destruct (search_from r "" s) as [f|] eqn:E; [|lia].
  apply search_from_split in E as [E _]. simpl in E. rewrite E.
  rewrite !len_app. simpl. lia.
Qed.

Lemma replace_first_shorter r s :
  nonempty r = true -> exec r s <> None ->
  (len (replace_first r "" s) < len s)%nat.
Proof.
  unfold replace_first, exec. intros Hr H.
  destruct (search_from r "" s) as [f|] eqn:E; [|congruence].
  apply search_from_split in E as [E N]. simpl in E. rewrite E.
  specialize (N Hr). rewrite !len_app. simpl. lia.
Qed.

End RegExpFacts.

(** ** The sanitizer is a chain of removals *)
Module SanitizerFacts.
Import Str StrFacts RegExp RegExpFacts Sanitizer.
Export SanitizerSpec.

Lemma sanitized_inner_stages s : sanitized_inner s = run_stages stages s.
Proof. reflexivity. Qed.

Lemma stages_nonempty : forallb (fun st : stage => nonempty (snd st)) stages = true.
Proof. reflexivity. Qed.

Lemma len_apply_stage st s : (len (apply_stage st s) <= len s)%nat.
Proof.
  unfold apply_stage. destruct (fst st);
    [apply len_replace_all | apply len_replace_first].
Qed.

Lemma len_run_stages l : forall s, (len (run_stages l s) <= len s)%nat.
Proof.
  induction l as [|st l IH]; intros s; simpl; [lia|].
  specialize (IH (apply_stage st s)). pose proof (len_apply_stage st s). lia.
Qed.

Lemma apply_stage_id st s : exec (snd st) s = None -> apply_stage st s = s.
Proof.
  unfold apply_stage. destruct (fst st);
    [apply replace_all_id | apply replace_first_id].
Qed.

Lemma apply_stage_shorter st s :
  nonempty (snd st) = true -> exec (snd st) s <> None ->
  (len (apply_stage st s) < len s)%nat.
Proof.
  unfold apply_stage. destruct (fst st);
    [apply replace_all_shorter | apply replace_first_shorter].
Qed.

(** A chain of removals leaves a text as it is exactly when none of them
    finds a match in it. *)
Lemma run_stages_fixed l :
  forallb (fun st : stage => nonempty (snd st)) l = true ->
  forall s, run_stages l s = s <->
            Forall (fun st : stage => exec (snd st) s = None) l.
Proof.
  induction l as [|st l IH]; intros Hn s; simpl.
  - split; [constructor | reflexivity].
  - simpl in Hn. apply andb_true_iff in Hn as [Hst Hl]. split.
    + intros H.
      assert (Hex : exec (snd st) s = None).
      { destruct (exec (snd st) s) as [f|] eqn:E; [exfalso | reflexivity].
        assert (Hne : exec (snd st) s <> None) by congruence.
        pose proof (apply_stage_shorter st s Hst Hne).
        pose proof (len_run_stages l (apply_stage st s)).
        fold (run_stages l (apply_stage st s)) in H. rewrite H in *. lia. }
      constructor; [assumption|].
      apply IH; [assumption|]. rewrite (apply_stage_id _ _ Hex) in H. exact H.
    + intros H. inversion H as [|? ? Hex Hrest]; subst.
      rewrite (apply_stage_id _ _ Hex). apply IH; assumption.
Qed.

Lemma sanitized_inner_fixed s : sanitized_inner s = s <-> clean s.
Proof.
  rewrite sanitized_inner_stages. apply run_stages_fixed, stages_nonempty.
Qed.

End SanitizerFacts.

Module C4.
Import Sanitizer SanitizerFacts.

(** C4 (as stated, refuted): sanitizing the sanitized text of a fragment
    with a nested [svg] element strips the inner wrapper as well, so the
    second pass does not return what the first one did. *)
Lemma sanitize_twice_differs :
  sanitized_inner Example.nested_svg = "<svg><path/></svg>" /\
  sanitized_inner (sanitized_inner Example.nested_svg) = "<path/>" /\
  sanitized_inner (sanitized_inner Example.nested_svg) <> sanitized_inner Example.nested_svg.
Proof. repeat split; [vm_compute; reflexivity .. | vm_compute; discriminate]. Qed.

(** C4 (amended): sanitizing the sanitized text of a fragment once more
    returns it unchanged exactly when none of the patterns the pipeline
    removes (XML declaration, comment, doctype, metadata block, editor
    element, editor attribute, [svg] open and close tag) still matches in
    it. *)
Theorem sanitize_idempotent_iff_clean (raw : string) :
  sanitized_inner (sanitized_inner raw) = sanitized_inner raw <->
  clean (sanitized_inner raw).
Proof. apply sanitized_inner_fixed. Qed.

End C4.

(** ** Where [extractViewBox] finds its attribute *)
Module ViewBoxFacts.
Import Str StrFacts RegExp RegExpFacts Sanitizer ViewBox JsNum.
Export ViewBoxSpec.

Lemma run_lit_i {R} p : forall s cap (k : string -> option string -> option R),
  run (lit_i p) s cap k = if prefix_i p s then k (drop (len p) s) cap else None.
Proof.
  induction p as [|a p IH]; intros s cap k; [reflexivity|].
  destruct p as [|a2 p].
  - destruct s as [|b s]; simpl; [reflexivity|].
    unfold only_i. destruct (Ascii.eqb (upcase a) (upcase b)); reflexivity.
  - change (lit_i (String a (String a2 p)))
      with (Seq (Chr (only_i a)) (lit_i (String a2 p))).
    destruct s as [|b s]; [reflexivity|].
    cbn [run prefix_i]. unfold only_i at 1.
    destruct (Ascii.eqb (upcase a) (upcase b)); [|reflexivity].
    rewrite IH. reflexivity.
Qed.

Lemma prefix_i_iff p : forall s,
  prefix_i p s = true <->
  exists a t, s = a +:+ t /\ same_nocase a p /\ drop (len p) s = t.
Proof.
  unfold same_nocase.
  induction p as [|c p IH]; intros s; simpl.
  - split; [intros _; exists "", s; auto|reflexivity].
  - destruct s as [|b s]; simpl.
    + split; [discriminate|]. intros (a & t & H & Hc & _).
      destruct a; simpl in *; discriminate.
    + rewrite andb_true_iff, IH, Ascii.eqb_eq. split.
      * intros (Hb & a & t & -> & Ha & Hd). exists (String b a), t.
        simpl. rewrite Ha, Hb. auto.
      * intros (a & t & H & Ha & Hd). destruct a as [|b' a]; [discriminate|].
        simpl in *. injection H as <- ->. injection Ha as Hb Ha.
        split; [congruence|]. exists a, t. auto.
Qed.

Lemma span_spec p s v rest :
  span p s = (v, rest) ->
  s = v +:+ rest /\ all p v = true /\
  match rest with String c _ => p c = false | EmptyString => True end.
Proof.
  revert v rest. induction s as [|c s IH]; intros v rest; simpl.
  - intros [= <- <-]. auto.
  - destruct (p c) eqn:E.
    + destruct (span p s) as [v' rest'] eqn:Es. intros [= <- <-].
      destruct (IH _ _ eq_refl) as (-> & Ha & Hr). simpl. rewrite E. auto.
    + intros [= <- <-]. simpl. auto.
Qed.

Lemma span_app p v c rest :
  all p v = true -> p c = false -> span p (v +:+ String c rest) = (v, String c rest).
Proof.
  induction v as [|b v IH]; simpl; intros Ha Hc.
  - now rewrite Hc.
  - apply andb_true_iff in Ha as [Hb Ha]. rewrite Hb, IH; auto.
Qed.

(** A greedy run before a continuation that wants a character outside the
    class: the run takes the whole [span]. *)
Lemma star_greedy_span {R} p (k : string -> option R) :
  k "" = None -> (forall c s, p c = true -> k (String c s) = None) ->
  forall s, star_greedy p k s = k (snd (span p s)).
Proof.
  intros H0 Hp. induction s as [|c s IH]; simpl; [reflexivity|].
  destruct (p c) eqn:E; [|reflexivity].
  rewrite IH. destruct (span p s) as [v rest]. simpl.
  destruct (k rest); [reflexivity | now apply Hp].
Qed.

(** The match of [re_viewBox] at the head of a text, in closed form. *)
Lemma match_at_viewBox s :
  match_at re_viewBox s =
  if prefix_i viewBox_eq s then
    match span (except "034") (drop 9 s) with
    | (String c v, String _ _) =>
        Some ((10 + len (String c v))%nat, Some (String c v))
    | _ => None
    end
  else None.
Proof.
  unfold match_at, re_viewBox.
  change (seq [lit_i ("viewBox=" +:+ dq); Grp (plus true (except "034")); Chr (only "034")])
    with (Seq (lit_i viewBox_eq)
              (Seq (Grp (Seq (Chr (except "034")) (Star true (except "034"))))
                   (Chr (only "034")))).
  cbn [run]. rewrite run_lit_i.
  destruct (prefix_i viewBox_eq s) eqn:Ep; [|reflexivity].
  apply prefix_i_iff in Ep as (a & t & Hs & Ha & Hd).
  assert (La : len a = 9%nat).
  { unfold same_nocase in Ha.
    assert (forall x, len (upcase_all x) = len x) as Hl
      by (induction x; simpl; congruence).
    rewrite <- (Hl a), Ha. reflexivity. }
  change (len viewBox_eq) with 9%nat in *. rewrite Hd.
  destruct t as [|c t]; [reflexivity|].
  cbn [span]. destruct (except "034" c) eqn:Ec; [|reflexivity].
  rewrite star_greedy_span.
  - destruct (span (except "034") t) as [v rest] eqn:Es. cbn [snd].
    destruct rest as [|q rest]; [reflexivity|].
    apply span_spec in Es as (Ht & Hv & Hq).
    unfold only. unfold except in Hq. apply negb_false_iff in Hq. rewrite Hq.
    f_equal. subst s t. f_equal.
    + rewrite !len_app. simpl. rewrite !len_app. simpl. lia.
    + f_equal.
      change (String c (v +:+ String q rest)) with (String c v +:+ String q rest).
      rewrite len_app.
      replace (len (String c v) + len (String q rest) - len (String q rest))%nat
        with (len (String c v)) by lia.
      apply take_app.
  - reflexivity.
  - intros b u Hb. unfold only. unfold except in Hb.
    apply negb_true_iff in Hb. now rewrite Hb.
Qed.

Lemma match_at_viewBox_Some s v post :
  viewBox_at s "" v post ->
  match_at re_viewBox s = Some ((10 + len v)%nat, Some v).
Proof.
  intros (head & Hs & Hh & Hv & Hq). simpl in Hs.
  rewrite match_at_viewBox.
  assert (Hp : prefix_i viewBox_eq s = true /\ drop 9 s = v +:+ dq +:+ post).
  { assert (E : prefix_i viewBox_eq s = true).
    { apply prefix_i_iff. exists head, (v +:+ dq +:+ post).
      split; [assumption|]. split; [assumption|].
      assert (forall x, len (upcase_all x) = len x) as Hl
        by (induction x; simpl; congruence).
      assert (La : len head = len viewBox_eq).
      { rewrite <- (Hl head), Hh. apply Hl. }
      rewrite <- La, Hs. apply drop_app. }
    split; [assumption|].
    apply prefix_i_iff in E as (a & t & Hs' & Ha & Hd).
    assert (forall x, len (upcase_all x) = len x) as Hl
      by (induction x; simpl; congruence).
    assert (La : len head = 9%nat).
    { rewrite <- (Hl head), Hh. reflexivity. }
    rewrite <- La, Hs. apply drop_app. }
  destruct Hp as [-> ->]. unfold dq. simpl.
  rewrite span_app by (assumption || reflexivity).
  destruct v as [|c v]; [congruence | reflexivity].
Qed.

Lemma match_at_viewBox_inv s n cap :
  match_at re_viewBox s = Some (n, cap) ->
  exists v post, viewBox_at s "" v post /\ cap = Some v.
Proof.
  rewrite match_at_viewBox.
  destruct (prefix_i viewBox_eq s) eqn:Ep; [|discriminate].
  apply prefix_i_iff in Ep as (a & t & Hs & Ha & Hd).
  change (len viewBox_eq) with 9%nat in Hd. rewrite Hd.
  destruct (span (except "034") t) as [v rest] eqn:Es.
  destruct v as [|c v]; [discriminate|]. destruct rest as [|q rest]; [discriminate|].
  intros [= <- <-]. apply span_spec in Es as (Ht & Hv & Hq).
  unfold except in Hq. apply negb_false_iff, Ascii.eqb_eq in Hq. subst q.
  exists (String c v), rest. split; [|reflexivity].
  exists a. simpl. subst s t. repeat split; auto; discriminate.
Qed.

(** *** The leftmost match *)

Lemma search_from_skip r a : forall b pre,
  (forall a1 a2, a = a1 +:+ a2 -> a2 <> "" -> match_at r (a2 +:+ b) = None) ->
  search_from r pre (a +:+ b) = search_from r (rev_onto pre a) b.
Proof.
  induction a as [|c a IH]; intros b pre H; [reflexivity|].
  assert (Hm : match_at r (String c a +:+ b) = None)
    by (apply (H "" (String c a)); [reflexivity | discriminate]).
  simpl in *. rewrite Hm.
  apply IH. intros a1 a2 -> Hne. apply (H (String c a1)); [reflexivity | assumption].
Qed.

Lemma search_from_here r pre s n cap :
  match_at r s = Some (n, cap) ->
  search_from r pre s = Some (Found (rev pre) (take n s) (drop n s) cap).
Proof. intros H. destruct s; simpl; rewrite H; reflexivity. Qed.

Lemma search_from_Some r s : forall pre f,
  search_from r pre s = Some f ->
  exists a b n, s = a +:+ b /\ match_at r b = Some (n, group1 f).
Proof.
  induction s as [|c s IH]; intros pre f; cbn [search_from].
  - destruct (match_at r "") as [[n cap]|] eqn:E; [|discriminate].
    intros [= <-]. exists "", "", n. auto.
  - destruct (match_at r (String c s)) as [[n cap]|] eqn:E.
    + intros [= <-]. exists "", (String c s), n. auto.
    + intros H. destruct (IH _ _ H) as (a & b & n & -> & Hm).
      exists (String c a), b, n. auto.
Qed.

(** Without an attribute anywhere, the default box. *)
Lemma extractViewBox_absent raw :
  (forall pre v post, ~ viewBox_at raw pre v post) ->
  extractViewBox raw = default_viewBox.
Proof.
  intros H. unfold extractViewBox, exec.
  destruct (search_from re_viewBox "" raw) as [f|] eqn:E; [exfalso | reflexivity].
  apply search_from_Some in E as (a & b & n & -> & Hm).
  apply match_at_viewBox_inv in Hm as (v & post & (head & Hb & Hrest) & _).
  apply (H a v post). exists head. split; [|exact Hrest].
  rewrite Hb. reflexivity.
Qed.

(** With an attribute, the value of the first one is what is parsed. *)
Lemma extractViewBox_first raw pre v post :
  viewBox_at raw pre v post ->
  (forall pre' v' post',
     viewBox_at raw pre' v' post' -> (len pre <= len pre')%nat) ->
  extractViewBox raw = parse_viewBox v.
Proof.
  intros (head & Hraw & Hh & Hv & Hq) Hmin.
  unfold extractViewBox, exec. rewrite Hraw, search_from_skip.
  - rewrite (search_from_here _ _ _ (10 + len v)%nat (Some v)); [reflexivity|].
    apply (match_at_viewBox_Some _ v post). exists head. auto.
  - intros a1 a2 -> Hne.
    destruct (match_at re_viewBox (a2 +:+ head +:+ v +:+ dq +:+ post))
      as [[n cap]|] eqn:E; [exfalso | reflexivity].
    apply match_at_viewBox_inv in E as (v' & post' & (head' & Hb & Hrest) & _).
    assert (Hat : viewBox_at raw a1 v' post').
    { exists head'. split; [|exact Hrest].
      rewrite Hraw, app_assoc, Hb. reflexivity. }
    apply Hmin in Hat. rewrite len_app in Hat.
    destruct a2; [congruence | simpl in Hat; lia].
Qed.

(** An attribute somewhere is a match somewhere. *)
Lemma search_from_complete r b x :
  match_at r b = Some x -> forall a pre, search_from r pre (a +:+ b) <> None.
Proof.
  intros Hb. induction a as [|c a IH]; intros pre.
  - destruct x as [n cap]. simpl. now rewrite (search_from_here _ _ _ _ _ Hb).
  - simpl. destruct (match_at r (String c (a +:+ b))) as [[n cap]|];
      [discriminate | apply IH].
Qed.

Lemma viewBox_at_match raw pre v post :
  viewBox_at raw pre v post ->
  match_at re_viewBox (drop (len pre) raw) = Some ((10 + len v)%nat, Some v).
Proof.
  intros (head & -> & Hrest). rewrite drop_app.
  apply (match_at_viewBox_Some _ v post). exists head. auto.
Qed.

Lemma viewBox_at_exec raw pre v post :
  viewBox_at raw pre v post -> exec re_viewBox raw <> None.
Proof.
  intros H. pose proof (viewBox_at_match _ _ _ _ H) as Hm.
  destruct H as (head & -> & _). rewrite drop_app in Hm.
  apply (search_from_complete _ _ _ Hm).
Qed.

End ViewBoxFacts.

Module C6.
Import Str RegExp Sanitizer ViewBox JsNum ViewBoxFacts.

(** C6 (as stated, refuted): for an attribute that is present and holds no
    number there is no fallback: [minX] is NaN and the other three fields are
    [undefined], which is not the default box. *)
Lemma extractViewBox_unparsable :
  extractViewBox Example.unparsable_svg =
    {| minX := Some NaN; minY := None; width := None; height := None |} /\
  extractViewBox Example.unparsable_svg <> default_viewBox.
Proof. split; [vm_compute; reflexivity | vm_compute; discriminate]. Qed.

(** C6 (amended): for a fragment whose raw text holds no view box attribute
    with a non-empty value (the name in any letter case), extraction returns
    the default box (0, 0, 400, 600).  Where the text holds one, the value
    of the first is split at white space and the first four pieces are read
    by [parseFloat], without a fallback. *)
Theorem extractViewBox_default_or_parsed (raw : string) :
  ((forall pre v post, ~ viewBox_at raw pre v post) ->
   extractViewBox raw = default_viewBox /\
   default_viewBox =
     {| minX := Some (of_Z 0); minY := Some (of_Z 0);
        width := Some (of_Z 400); height := Some (of_Z 600) |}) /\
  (forall pre v post,
     viewBox_at raw pre v post ->
     (forall pre' v' post',
        viewBox_at raw pre' v' post' -> (len pre <= len pre')%nat) ->
     extractViewBox raw = parse_viewBox v /\
     parse_viewBox v =
       let nums := map parseFloat (split (plus true space) v) in
       {| minX := nums !! 0%nat; minY := nums !! 1%nat;
          width := nums !! 2%nat; height := nums !! 3%nat |}).
Proof.
  split.
  - intros H. split; [now apply extractViewBox_absent | reflexivity].
  - intros pre v post Hat Hmin. split; [|reflexivity].
    eapply extractViewBox_first; eauto.
Qed.

Lemma extractViewBox_default_or_parsed_witness :
  extractViewBox Example.plain_svg = default_viewBox /\
  extractViewBox Example.boxed_svg =
    {| minX := Some (Zero false); minY := Some (Zero false);
       width := Some (Fin 100); height := Some (Fin 50) |}.
Proof.
  split.
  - apply (proj1 (extractViewBox_default_or_parsed Example.plain_svg)).
    intros pre v post H. apply viewBox_at_exec in H. vm_compute in H. congruence.
  - assert (Hat : viewBox_at Example.boxed_svg "<svg " "0 0 100 50" "><path/></svg>").
    { exists viewBox_eq. repeat split. discriminate. }
    destruct (proj2 (extractViewBox_default_or_parsed Example.boxed_svg) _ _ _ Hat)
      as [-> _]; [|reflexivity].
    intros pre' v' post' H. apply viewBox_at_match in H.
    destruct (len pre') as [|[|[|[|[|k]]]]]; try (vm_compute in H; discriminate).
    simpl. lia.
Defined.

End C6.

(** ** Rounding to binary64 *)
Module RoundFacts.
Import JsNum JsNumSpec.
Local Open Scope Q_scope.

Lemma pow2_pos e : 0 < 2 ^ e.
Proof. apply Qpower_0_lt. reflexivity. Qed.

Lemma pow2_Z n : (0 <= n)%Z -> inject_Z (2 ^ n) == 2 ^ n.
Proof. intros H. now rewrite Zpower_Qpower. Qed.

Lemma pow2_plus a b : 2 ^ (a + b) == 2 ^ a * 2 ^ b.
Proof. apply Qpower_plus. discriminate. Qed.

Lemma pow2_le a b : (a <= b)%Z -> 2 ^ a <= 2 ^ b.
Proof. intros H. apply Qpower_le_compat_l; [assumption | discriminate]. Qed.

Lemma scaled_spec m e : scaled m e == inject_Z m * 2 ^ e.
Proof.
  unfold scaled. destruct (0 <=? e)%Z eqn:E.
  - apply Z.leb_le in E. now rewrite inject_Z_mult, pow2_Z.
  - apply Z.leb_gt in E. rewrite Qmake_Qdiv.
    assert (Hp : (0 < 2 ^ (- e))%Z) by (apply Z.pow_pos_nonneg; lia).
    rewrite Z2Pos.id by assumption. rewrite pow2_Z by lia.
    unfold Qdiv. rewrite <- Qpower_opp. now rewrite Z.opp_involutive.
Qed.

Lemma nearest_even_spec n d :
  (0 < d)%Z -> (2 * Z.abs (nearest_even n d * d - n) <= d)%Z.
Proof.
  intros Hd. unfold nearest_even.
  pose proof (Z.div_mod n d ltac:(lia)) as E.
  pose proof (Z.mod_pos_bound n d Hd) as B.
  set (q := (n / d)%Z) in *. set (r := (n mod d)%Z) in *.
  assert (E1 : (q * d - n = - r)%Z) by lia.
  assert (E2 : ((q + 1) * d - n = d - r)%Z) by lia.
  destruct (Z.compare_spec (2 * r) d) as [C|C|C].
  - destruct (Z.even q); rewrite ?E1, ?E2; lia.
  - rewrite E1. lia.
  - rewrite E2. lia.
Qed.

Lemma nearest_even_nonneg n d : (0 <= n)%Z -> (0 < d)%Z -> (0 <= nearest_even n d)%Z.
Proof.
  intros Hn Hd. unfold nearest_even.
  pose proof (Z.div_pos n d Hn Hd).
  destruct (2 * (n mod d) ?= d)%Z; [destruct (Z.even (n / d))| |]; lia.
Qed.

Lemma inject_Z_pos d : (0 < d)%Z -> 0 < inject_Z d.
Proof. intros H. change 0 with (inject_Z 0). now rewrite <- Zlt_Qlt. Qed.

Lemma nearest_even_Q n d :
  (0 < d)%Z ->
  Qabs (inject_Z (nearest_even n d) - inject_Z n / inject_Z d) <= 1 # 2.
Proof.
  intros Hd. pose proof (nearest_even_spec n d Hd) as H.
  set (m := nearest_even n d) in *.
  pose proof (inject_Z_pos d Hd) as HD.
  set (x := inject_Z n / inject_Z d).
  assert (Hx : x * inject_Z d == inject_Z n).
  { unfold x. field. intros E. rewrite E in HD. discriminate. }
  assert (H1 : (- d <= 2 * (m * d - n) <= d)%Z) by lia.
  destruct H1 as [Hl Hu].
  rewrite Zle_Qle in Hl, Hu. unfold Z.sub in Hl, Hu.
  repeat (rewrite inject_Z_mult in Hl, Hu || rewrite inject_Z_plus in Hl, Hu
          || rewrite inject_Z_opp in Hl, Hu).
  repeat (rewrite inject_Z_mult in Hu || rewrite inject_Z_plus in Hu
          || rewrite inject_Z_opp in Hu).
  repeat (rewrite inject_Z_mult in Hl || rewrite inject_Z_plus in Hl
          || rewrite inject_Z_opp in Hl).
  change (inject_Z 2) with 2 in Hl, Hu.
  assert (E : (inject_Z m - x) * inject_Z d == inject_Z m * inject_Z d - inject_Z n).
  { rewrite <- Hx. ring. }
  apply Qabs_Qle_condition. split.
  - apply (Qmult_le_r _ _ (inject_Z d)); [assumption|]. rewrite E. lra.
  - apply (Qmult_le_r _ _ (inject_Z d)); [assumption|]. rewrite E. lra.
Qed.

(** The rounded mantissa is within half a unit of the last place. *)
Lemma mantissa_err a d :
  let e := ulp_exp a d in
  Qabs (scaled (mantissa a d) e - (Zpos a # d)) <= 2 ^ e * (1 # 2).
Proof.
  intros e. rewrite scaled_spec. unfold mantissa. fold e.
  pose proof (pow2_pos e) as HP.
  assert (HD : 0 < inject_Z (Zpos d)) by now apply inject_Z_pos.
  assert (HD0 : ~ inject_Z (Zpos d) == 0) by (intros E; rewrite E in HD; discriminate).
  assert (HP0 : ~ 2 ^ e == 0) by (intros E; rewrite E in HP; discriminate).
  rewrite (Qmake_Qdiv (Zpos a) d).
  assert (K : forall n' d', (0 < d')%Z ->
            inject_Z n' / inject_Z d' == inject_Z (Zpos a) / inject_Z (Zpos d) / 2 ^ e ->
            Qabs (inject_Z (nearest_even n' d') * 2 ^ e
                  - inject_Z (Zpos a) / inject_Z (Zpos d)) <= 2 ^ e * (1 # 2)).
  { intros n' d' Hd' Hq. pose proof (nearest_even_Q n' d' Hd') as H.
    rewrite Hq in H.
    set (M := inject_Z (nearest_even n' d')) in *.
    set (v := inject_Z (Zpos a) / inject_Z (Zpos d)) in *.
    assert (E : M * 2 ^ e - v == (M - v / 2 ^ e) * 2 ^ e) by (field; assumption).
    rewrite E, Qabs_Qmult, (Qabs_pos (2 ^ e)) by lra.
    rewrite (Qmult_comm (2 ^ e)). apply Qmult_le_compat_r; lra. }
  destruct (0 <=? e)%Z eqn:Ee.
  - apply Z.leb_le in Ee. apply K.
    + apply Z.mul_pos_pos; [lia | apply Z.pow_pos_nonneg; lia].
    + rewrite inject_Z_mult, pow2_Z by assumption. field. split; assumption.
  - apply Z.leb_gt in Ee. apply K; [lia|].
    rewrite inject_Z_mult, pow2_Z by lia. rewrite Qpower_opp. field.
    split; assumption.
Qed.

Lemma log2_Q (a : positive) :
  2 ^ Z.log2 (Zpos a) <= inject_Z (Zpos a) /\
  inject_Z (Zpos a) < 2 ^ (Z.log2 (Zpos a) + 1).
Proof.
  pose proof (Z.log2_spec (Zpos a) ltac:(lia)) as [Hl Hu].
  pose proof (Z.log2_nonneg (Zpos a)) as H0.
  rewrite <- !pow2_Z by lia. rewrite <- Zle_Qle, <- Zlt_Qlt.
  split; [assumption | now rewrite <- Z.add_1_r in Hu].
Qed.

(** [ilog2 a d] is the exponent of [a / d]. *)
Lemma ilog2_spec a d :
  2 ^ ilog2 a d * inject_Z (Zpos d) <= inject_Z (Zpos a) /\
  inject_Z (Zpos a) < 2 ^ (ilog2 a d + 1) * inject_Z (Zpos d).
Proof.
  unfold ilog2.
  destruct (log2_Q a) as [Al Au], (log2_Q d) as [Dl Du].
  set (la := Z.log2 (Zpos a)) in *. set (ld := Z.log2 (Zpos d)) in *.
  set (A := inject_Z (Zpos a)) in *. set (D := inject_Z (Zpos d)) in *.
  set (e0 := (la - ld)%Z).
  assert (HD : 0 < D) by now apply inject_Z_pos.
  assert (R : (if (0 <=? e0)%Z then (Zpos d * 2 ^ e0 <=? Zpos a)%Z
               else (Zpos d <=? Zpos a * 2 ^ (- e0))%Z) = true
              <-> 2 ^ e0 * D <= A).
  { destruct (0 <=? e0)%Z eqn:E.
    - apply Z.leb_le in E. rewrite Z.leb_le, Zle_Qle, inject_Z_mult, pow2_Z by assumption.
      fold D A. now rewrite Qmult_comm.
    - apply Z.leb_gt in E. rewrite Z.leb_le, Zle_Qle, inject_Z_mult, pow2_Z by lia.
      fold D A. pose proof (pow2_pos e0) as P.
      assert (X : 2 ^ (- e0) * 2 ^ e0 == 1).
      { rewrite <- pow2_plus. now replace (- e0 + e0)%Z with 0%Z by lia. }
      split; intros H.
      + apply (Qmult_le_r _ _ (2 ^ e0)) in H; [|assumption].
        setoid_replace (A * 2 ^ (- e0) * 2 ^ e0) with A using relation Qeq in H
          by (rewrite <- Qmult_assoc, X; ring).
        now rewrite Qmult_comm.
      + apply (Qmult_le_r _ _ (2 ^ e0)); [assumption|].
        setoid_replace (A * 2 ^ (- e0) * 2 ^ e0) with A using relation Qeq
          by (rewrite <- Qmult_assoc, X; ring).
        now rewrite Qmult_comm. }
  assert (Ea : 2 ^ (la + 1) == 2 ^ (e0 + 1) * 2 ^ ld)
    by (rewrite <- pow2_plus; now replace (e0 + 1 + ld)%Z with (la + 1)%Z by lia).
  assert (Eb : 2 ^ la == 2 ^ (e0 - 1) * 2 ^ (ld + 1))
    by (rewrite <- pow2_plus; now replace (e0 - 1 + (ld + 1))%Z with la by lia).
  pose proof (pow2_pos (e0 + 1)) as P1. pose proof (pow2_pos (e0 - 1)) as P2.
  destruct (if (0 <=? e0)%Z then _ else _) eqn:T.
  - split; [now apply R|].
    rewrite Ea in Au. eapply Qlt_le_trans; [apply Au|].
    apply Qmult_le_l; assumption.
  - replace (e0 - 1 + 1)%Z with e0 by lia. split.
    + rewrite Eb in Al. eapply Qle_trans; [|apply Al].
      apply Qmult_le_l; [assumption | now apply Qlt_le_weak].
    + destruct (Qlt_le_dec A (2 ^ e0 * D)) as [|H]; [assumption|].
      apply R in H. congruence.
Qed.

Lemma ulp_bound a d :
  2 ^ ulp_exp a d * (1 # 2) <= (Zpos a # d) * 2 ^ (-53) + 2 ^ (-1075).
Proof.
  unfold ulp_exp, prec, emin.
  destruct (ilog2_spec a d) as [Hl _].
  assert (HD : 0 < inject_Z (Zpos d)) by now apply inject_Z_pos.
  assert (Hq : 2 ^ ilog2 a d <= Zpos a # d).
  { rewrite (Qmake_Qdiv (Zpos a) d). now apply Qle_shift_div_l. }
  set (E := ilog2 a d) in *. set (q := Zpos a # d) in *.
  assert (Hh : (1 # 2) == 2 ^ (-1)) by reflexivity.
  rewrite Hh, <- pow2_plus.
  pose proof (pow2_pos (-53)) as P53. pose proof (pow2_pos (-1075)) as P1075.
  assert (Hq0 : 0 < q) by reflexivity.
  destruct (Z.max_spec E (-1022)) as [[Hlt ->]|[Hge ->]].
  - replace (-1022 - (53 - 1) + -1)%Z with (-1075)%Z by lia.
    assert (0 <= q * 2 ^ (-53)) by (apply Qmult_le_0_compat; lra). lra.
  - replace (E - (53 - 1) + -1)%Z with (E + -53)%Z by lia.
    rewrite pow2_plus.
    assert (2 ^ E * 2 ^ (-53) <= q * 2 ^ (-53))
      by (apply Qmult_le_compat_r; lra).
    lra.
Qed.

(** The magnitude [round] gives to [a / d]. *)
Lemma magnitude_near a d :
  let v := scaled (mantissa a d) (ulp_exp a d) in
  Qabs (v - (Zpos a # d)) <= rounding (Zpos a # d) /\
  ((mantissa a d =? 0)%Z = true -> v == 0) /\
  ((mantissa a d =? 0)%Z = false -> 0 < v).
Proof.
  intros v. split; [|split].
  - unfold rounding. rewrite (Qabs_pos (Zpos a # d)) by discriminate.
    eapply Qle_trans; [apply mantissa_err | apply ulp_bound].
  - intros H. apply Z.eqb_eq in H. unfold v. rewrite scaled_spec, H. ring.
  - intros H. apply Z.eqb_neq in H. unfold v. rewrite scaled_spec.
    assert (Hm : (0 <= mantissa a d)%Z).
    { unfold mantissa. destruct (0 <=? ulp_exp a d)%Z eqn:E.
      - apply Z.leb_le in E. apply nearest_even_nonneg; [lia|].
        apply Z.mul_pos_pos; [lia | apply Z.pow_pos_nonneg; lia].
      - apply nearest_even_nonneg; [|lia].
        apply Z.mul_nonneg_nonneg; [lia | apply Z.pow_nonneg; lia]. }
    apply Qmult_lt_0_compat; [|apply pow2_pos].
    apply inject_Z_pos. lia.
Qed.

Lemma no_overflow v q :
  Qabs q <= 2 ^ 1023 -> Qabs (v - q) <= rounding q ->
  Qle_bool (inject_Z (2 ^ emax)) (Qabs v) = false.
Proof.
  intros Hq Hv. destruct (Qle_bool _ _) eqn:E; [|reflexivity].
  apply Qle_bool_iff in E. exfalso.
  assert (Hc : 2 ^ 1023 + 2 ^ 1023 * 2 ^ (-53) + 2 ^ (-1075) < inject_Z (2 ^ emax))
    by (vm_compute; reflexivity).
  unfold rounding in Hv.
  pose proof (Qabs_triangle_reverse v q) as T.
  assert (Qabs q * 2 ^ (-53) <= 2 ^ 1023 * 2 ^ (-53)).
  { apply Qmult_le_compat_r; [assumption | apply Qlt_le_weak, pow2_pos]. }
  lra.
Qed.

(** One rounding of a value within the range of the format. *)
Lemma round_near q : ~ q == 0 -> Qabs q <= 2 ^ 1023 -> near (round q) q.
Proof.
  intros H0 Hb. unfold round.
  pose proof (Qred_correct q) as Hr.
  destruct (Qred q) as [n d]. cbn [Qnum Qden].
  destruct n as [|a|a].
  - exfalso. apply H0. rewrite <- Hr. reflexivity.
  - destruct (magnitude_near a d) as (He & Hz & Hp).
    set (v := scaled (mantissa a d) (ulp_exp a d)) in *.
    unfold rounding in He. rewrite Hr in He. fold (rounding q) in He.
    destruct (mantissa a d =? 0)%Z.
    + exists 0. split; [reflexivity|]. now rewrite <- (Hz eq_refl).
    + specialize (Hp eq_refl).
      pose proof (no_overflow v q Hb He) as Ho.
      rewrite (Qabs_pos v) in Ho by lra. rewrite Ho.
      exists v. split; [|assumption].
      split; [apply Qred_correct|]. rewrite Qred_correct. lra.
  - destruct (magnitude_near a d) as (He & Hz & Hp).
    set (v := scaled (mantissa a d) (ulp_exp a d)) in *.
    assert (Hq : q == - (Zpos a # d)) by (rewrite <- Hr; reflexivity).
    assert (He' : Qabs (- v - q) <= rounding q).
    { unfold rounding in *. rewrite Hq, Qabs_opp.
      setoid_replace (- v - - (Zpos a # d)) with (- (v - (Zpos a # d)))
        using relation Qeq by ring.
      now rewrite Qabs_opp. }
    clear He.
    destruct (mantissa a d =? 0)%Z.
    + exists 0. split; [reflexivity|].
      setoid_replace (0 - q) with (- v - q) using relation Qeq; [assumption|].
      rewrite (Hz eq_refl). ring.
    + specialize (Hp eq_refl).
      pose proof (no_overflow (- v) q Hb He') as Ho.
      rewrite Qabs_opp, (Qabs_pos v) in Ho by lra. rewrite Ho.
      exists (- v). split; [|assumption].
      split; [apply Qred_correct|]. rewrite Qred_correct. lra.
Qed.

Lemma round_ext p q : p == q -> round p = round q.
Proof. intros H. unfold round. now rewrite (Qred_complete p q H). Qed.

(** *** Integers *)

Lemma Qred_inject z : Qred (inject_Z z) = inject_Z z.
Proof.
  unfold Qred, inject_Z.
  pose proof (Z.ggcd_gcd z 1) as Hg.
  pose proof (Z.ggcd_correct_divisors z 1) as Hd.
  destruct (Z.ggcd z 1) as [g [aa bb]]. simpl in Hg.
  rewrite Z.gcd_1_r in Hg. subst g. destruct Hd as [Ha Hb].
  rewrite Z.mul_1_l in Ha, Hb. now subst.
Qed.

Lemma nearest_even_exact n d :
  (0 < d)%Z -> (n mod d = 0)%Z -> nearest_even n d = (n / d)%Z.
Proof.
  intros Hd Hm. unfold nearest_even. rewrite Hm.
  destruct (Z.compare_spec (2 * 0) d); [lia | reflexivity | lia].
Qed.

Lemma ilog2_int a : ilog2 a 1 = Z.log2 (Zpos a).
Proof.
  unfold ilog2. change (Z.log2 1) with 0%Z. rewrite Z.sub_0_r.
  pose proof (Z.log2_nonneg (Zpos a)) as H0.
  pose proof (Z.log2_spec (Zpos a) ltac:(lia)) as [Hl _].
  destruct (0 <=? Z.log2 (Zpos a))%Z eqn:E; [|apply Z.leb_gt in E; lia].
  rewrite Z.mul_1_l. apply Z.leb_le in Hl. now rewrite Hl.
Qed.

(** An integer up to 2^53 is a binary64 number. *)
Lemma mantissa_int a :
  (Zpos a <= 2 ^ 53)%Z ->
  scaled (mantissa a 1) (ulp_exp a 1) == inject_Z (Zpos a).
Proof.
  intros Ha. rewrite scaled_spec. unfold mantissa, ulp_exp, prec, emin.
  rewrite ilog2_int.
  pose proof (Z.log2_nonneg (Zpos a)) as H0.
  pose proof (Z.log2_spec (Zpos a) ltac:(lia)) as [Hl Hu].
  assert (H53 : (Z.log2 (Zpos a) <= 53)%Z).
  { destruct (Z.le_gt_cases (Z.log2 (Zpos a)) 53) as [|Hgt]; [assumption|].
    assert (2 ^ 54 <= 2 ^ Z.log2 (Zpos a))%Z by (apply Z.pow_le_mono_r; lia).
    assert (2 ^ 53 < 2 ^ 54)%Z by reflexivity. lia. }
  set (la := Z.log2 (Zpos a)) in *.
  rewrite Z.max_l by lia.
  destruct (0 <=? la - (53 - 1))%Z eqn:E.
  - apply Z.leb_le in E. rewrite Z.mul_1_l.
    assert (Hdiv : (Zpos a mod 2 ^ (la - (53 - 1)) = 0)%Z).
    { assert (C : la = 52%Z \/ la = 53%Z) by lia. destruct C as [C|C]; rewrite C in *.
      - apply Z.mod_1_r.
      - assert (Zpos a = 2 ^ 53)%Z by lia. rewrite H. reflexivity. }
    rewrite nearest_even_exact;
      [|apply Z.pow_pos_nonneg; lia | assumption].
    rewrite <- pow2_Z by assumption. rewrite <- inject_Z_mult.
    apply inject_Z_injective.
    pose proof (Z.div_mod (Zpos a) (2 ^ (la - (53 - 1)))
                  ltac:(apply Z.pow_nonzero; lia)) as D.
    rewrite Hdiv in D. lia.
  - apply Z.leb_gt in E.
    rewrite nearest_even_exact by (lia || apply Z.mod_1_r).
    rewrite Z.div_1_r, inject_Z_mult, pow2_Z by lia.
    rewrite <- Qmult_assoc, <- pow2_plus.
    replace (- (la - (53 - 1)) + (la - (53 - 1)))%Z with 0%Z by lia.
    change (2 ^ 0) with 1. ring.
Qed.

Lemma round_int a : (Zpos a <= 2 ^ 53)%Z -> round (inject_Z (Zpos a)) = Fin (inject_Z (Zpos a)).
Proof.
  intros Ha. unfold round. rewrite Qred_inject. cbn [Qnum Qden inject_Z].
  pose proof (mantissa_int a Ha) as Hv.
  destruct (mantissa a 1 =? 0)%Z eqn:Em.
  - apply Z.eqb_eq in Em. rewrite scaled_spec, Em in Hv.
    exfalso. assert (X : 0 == inject_Z (Zpos a)) by (rewrite <- Hv; ring).
    discriminate X.
  - destruct (Qle_bool (inject_Z (2 ^ emax)) (scaled (mantissa a 1) (ulp_exp a 1))) eqn:Eo.
    + exfalso. apply Qle_bool_iff in Eo. rewrite Hv in Eo.
      rewrite <- Zle_Qle in Eo. assert (2 ^ 53 < 2 ^ emax)%Z by reflexivity. lia.
    + f_equal. rewrite (Qred_complete _ _ Hv). apply Qred_inject.
Qed.

End RoundFacts.

(** ** Arithmetic on finite numbers *)
Module JsNumFacts.
Import JsNum RoundFacts.
Export JsNumSpec.
Local Open Scope Q_scope.

Lemma repr_to_Q x q : repr x q -> exists p, to_Q x = Some p /\ p == q.
Proof.
  destruct x as [| |z|p]; simpl; try tauto.
  - intros H. exists 0. split; [reflexivity | now symmetry].
  - intros [H _]. exists p. auto.
Qed.

Lemma rounding_nonneg q : 0 <= rounding q.
Proof.
  unfold rounding. pose proof (Qabs_nonneg q).
  pose proof (pow2_pos (-53)). pose proof (pow2_pos (-1075)).
  assert (0 <= Qabs q * 2 ^ (-53)) by (apply Qmult_le_0_compat; lra). lra.
Qed.

Lemma rounding_ext p q : p == q -> rounding p == rounding q.
Proof. intros H. unfold rounding. now rewrite H. Qed.

Lemma repr_ext x p q : repr x p -> p == q -> repr x q.
Proof.
  destruct x as [| |z|r]; simpl; try tauto.
  - intros H1 H2. now rewrite <- H2.
  - intros [H1 H0] H2. split; [now rewrite H1 | assumption].
Qed.

Lemma near_ext x p q : near x p -> p == q -> near x q.
Proof.
  intros (r & Hr & He) H. exists r. split; [assumption|].
  rewrite <- (rounding_ext p q H).
  setoid_replace (r - q) with (r - p) using relation Qeq; [assumption|]. now rewrite H.
Qed.

(** A value that is held as it is. *)
Lemma repr_near x q : repr x q -> near x q.
Proof.
  intros H. exists q. split; [assumption|].
  setoid_replace (q - q) with 0 using relation Qeq by ring. apply rounding_nonneg.
Qed.

Lemma of_Q_near z q : Qabs q <= 2 ^ 1023 -> near (of_Q z q) q.
Proof.
  intros Hb. unfold of_Q. destruct (Qeq_bool q 0) eqn:E.
  - apply Qeq_bool_eq in E. apply repr_near. exact E.
  - apply round_near; [|assumption].
    intros H. apply Qeq_eq_bool in H. congruence.
Qed.

Lemma repr_neg x p : repr x p -> repr (neg x) (- p).
Proof.
  destruct x as [| |z|r]; simpl; try tauto.
  - intros ->. reflexivity.
  - intros [H1 H0]. split; [now rewrite H1|].
    intros H. apply H0. rewrite <- (Qopp_involutive r), H. reflexivity.
Qed.

Lemma near_add x y p q :
  repr x p -> repr y q -> Qabs (p + q) <= 2 ^ 1023 -> near (add x y) (p + q).
Proof.
  destruct x as [| |a|r], y as [| |b|s]; simpl; try tauto.
  - intros Hp Hq _. apply repr_near. simpl. rewrite Hp, Hq. reflexivity.
  - intros Hp [H1 H0] _. apply repr_near. split; [rewrite H1, Hp; ring | assumption].
  - intros [H1 H0] Hq _. apply repr_near. split; [rewrite H1, Hq; ring | assumption].
  - intros [H1 _] [H2 _] Hb. eapply near_ext.
    + apply of_Q_near. rewrite H1, H2. exact Hb.
    + now rewrite H1, H2.
Qed.

Lemma near_sub x y p q :
  repr x p -> repr y q -> Qabs (p - q) <= 2 ^ 1023 -> near (sub x y) (p - q).
Proof. intros Hx Hy Hb. apply near_add; [assumption | now apply repr_neg | exact Hb]. Qed.

Lemma near_mul x y p q :
  repr x p -> repr y q -> Qabs (p * q) <= 2 ^ 1023 -> near (mul x y) (p * q).
Proof.
  destruct x as [| |a|r], y as [| |b|s]; simpl; try tauto.
  - intros Hp Hq _. apply repr_near. simpl. rewrite Hp. ring.
  - intros Hp _ _. apply repr_near. simpl. rewrite Hp. ring.
  - intros _ Hq _. apply repr_near. simpl. rewrite Hq. ring.
  - intros [H1 _] [H2 _] Hb. eapply near_ext.
    + apply of_Q_near. rewrite H1, H2. exact Hb.
    + now rewrite H1, H2.
Qed.

Lemma near_div x y p q :
  repr x p -> repr y q -> ~ q == 0 -> Qabs (p / q) <= 2 ^ 1023 ->
  near (div x y) (p / q).
Proof.
  destruct x as [| |a|r], y as [| |b|s]; simpl; try tauto.
  - intros Hp _ _ _. apply repr_near. simpl. rewrite Hp. unfold Qdiv. ring.
  - intros [H1 _] [H2 _] _ Hb. eapply near_ext.
    + apply of_Q_near. rewrite H1, H2. exact Hb.
    + now rewrite H1, H2.
Qed.

Lemma u_literal : 2 ^ (-53) == 1 # 9007199254740992.
Proof. reflexivity. Qed.

Lemma eta_small : 0 < 2 ^ (-1075) /\ 2 ^ (-1075) <= 1 # 2 ^ 600.
Proof. split; [apply pow2_pos | vm_compute; discriminate]. Qed.

(** The error of one rounding of a value that is bounded by [B]. *)
Lemma near_elim x q B :
  near x q -> - B <= q <= B ->
  exists p, repr x p /\
            q - (B * (1 # 9007199254740992) + 2 ^ (-1075)) <= p
            /\ p <= q + (B * (1 # 9007199254740992) + 2 ^ (-1075)).
Proof.
  intros (p & Hp & He) Hb. exists p. split; [assumption|].
  apply Qabs_Qle_condition in Hb. unfold rounding in He.
  rewrite u_literal in He.
  assert (Qabs q * (1 # 9007199254740992) <= B * (1 # 9007199254740992))
    by (apply Qmult_le_compat_r; [assumption | discriminate]).
  apply Qabs_Qle_condition in He. lra.
Qed.

Lemma Qabs_bounds q : - Qabs q <= q <= Qabs q.
Proof. apply Qabs_Qle_condition, Qle_refl. Qed.

(** One axis of the fit: the translation along an axis of inner size [I]
    for a box of size [v] from [m], scaled by [s]. *)
Lemma axis_near (xI xv xm xs : jsnum) (I v m s : Q) :
  repr xI I -> repr xv v -> repr xm m -> repr xs s ->
  0 < I -> I <= 208 -> 0 <= v * s -> v * s <= I + 1 ->
  Qabs (m * s) <= 2 ^ 1020 ->
  exists t,
    repr (sub (add (of_Z 8) (div (sub xI (mul xv xs)) (of_Z 2))) (mul xm xs)) t /\
    Qabs (t - (8 + (I - v * s) / 2 - m * s))
    <= (600 + 3 * Qabs (m * s)) * 2 ^ (-53).
Proof.
  intros HI Hv Hm Hs I0 I1 P0 P1 Mb.
  destruct eta_small as [E0 E1]. set (eta := 2 ^ (-1075)) in *.
  assert (Big : 2 ^ 1020 * 4 + 4000 <= 2 ^ 1023) by (vm_compute; discriminate).
  assert (Small : (1 # 2 ^ 600) <= 1 # 9007199254740992) by (vm_compute; discriminate).
  set (big := 2 ^ 1023) in *. set (K := 2 ^ 1020) in *.
  assert (K0 : 0 <= K) by (apply Qlt_le_weak, pow2_pos).
  set (ws := v * s) in *. set (ms := m * s) in *.
  pose proof (Qabs_bounds ms) as Ams. pose proof (Qabs_nonneg ms) as Ams0.
  set (ams := Qabs ms) in *.
  assert (H8 : repr (of_Z 8) 8) by (split; [reflexivity | discriminate]).
  assert (H2 : repr (of_Z 2) 2) by (split; [reflexivity | discriminate]).
  (* v * s *)
  destruct (near_elim _ _ 209 (near_mul _ _ _ _ Hv Hs
              ltac:(fold ws; apply Qabs_Qle_condition; fold big; lra))
              ltac:(fold ws; lra)) as (P & HP & Pl & Pu).
  fold ws in Pl, Pu. fold eta in Pl, Pu.
  (* I - P *)
  destruct (near_elim _ _ 210 (near_sub _ _ _ _ HI HP
              ltac:(apply Qabs_Qle_condition; fold big; lra))
              ltac:(lra)) as (D & HD & Dl & Du).
  fold eta in Dl, Du.
  (* / 2 *)
  assert (D2 : D / 2 == D * (1 # 2)) by (unfold Qdiv; reflexivity).
  destruct (near_elim _ _ 106 (near_div _ _ _ _ HD H2 ltac:(discriminate)
              ltac:(apply Qabs_Qle_condition; fold big; lra))
              ltac:(lra)) as (E & HE & El & Eu).
  fold eta in El, Eu.
  (* 8 + E *)
  destruct (near_elim _ _ 115 (near_add _ _ _ _ H8 HE
              ltac:(apply Qabs_Qle_condition; fold big; lra))
              ltac:(lra)) as (F & HF & Fl & Fu).
  fold eta in Fl, Fu.
  (* m * s *)
  destruct (near_elim _ _ ams (near_mul _ _ _ _ Hm Hs
              ltac:(fold ms; fold ams; fold big; lra))
              ltac:(fold ms; lra)) as (G & HG & Gl & Gu).
  fold ms in Gl, Gu. fold eta in Gl, Gu.
  (* F - G *)
  destruct (near_elim _ _ (117 + 2 * ams) (near_sub _ _ _ _ HF HG
              ltac:(apply Qabs_Qle_condition; fold big; lra))
              ltac:(lra)) as (T & HT & Tl & Tu).
  fold eta in Tl, Tu.
  exists T. split; [exact HT|].
  rewrite u_literal. apply Qabs_Qle_condition.
  setoid_replace ((I - ws) / 2) with ((I - ws) * (1 # 2)) using relation Qeq
    by (unfold Qdiv; reflexivity).
  split; lra.
Qed.

Lemma Qnum_pos (s : Q) : (0 <? Qnum s) = true <-> (0 < s).
Proof. unfold Qlt. simpl. rewrite Z.ltb_lt. lia. Qed.

Lemma Qnum_neg (s : Q) : (Qnum s <? 0) = true <-> (s < 0).
Proof. unfold Qlt. simpl. rewrite Z.ltb_lt. lia. Qed.

Lemma repr_min x y p q : repr x p -> repr y q -> repr (min x y) (Qmin p q).
Proof.
  intros Hx Hy.
  assert (Hm : min x y = if leb x y then x else y)
    by (destruct x, y; simpl in *; tauto).
  rewrite Hm. clear Hm.
  destruct x as [| |a|r], y as [| |b|s]; simpl in *; try tauto.
  - assert (E : (Qmin p q == 0)).
    { destruct (Q.min_spec p q) as [[_ ->]|[_ ->]]; assumption. }
    destruct (a || negb b); simpl; assumption.
  - destruct Hy as [Hs Hs0].
    destruct (0 <? Qnum s) eqn:E; simpl.
    + apply Qnum_pos in E. rewrite Q.min_l; [assumption|].
      rewrite Hx, <- Hs. now apply Qlt_le_weak.
    + assert (Hneg : (s < 0)).
      { destruct (Qlt_le_dec s 0) as [|Hge]; [assumption|].
        apply Qle_lt_or_eq in Hge as [Hgt|Heq].
        - apply Qnum_pos in Hgt. congruence.
        - exfalso. apply Hs0. now symmetry. }
      split; [|assumption]. rewrite Q.min_r; [assumption|].
      rewrite Hx, <- Hs. now apply Qlt_le_weak.
  - destruct Hx as [Hr Hr0].
    destruct (Qnum r <? 0) eqn:E; simpl.
    + apply Qnum_neg in E. split; [|assumption]. rewrite Q.min_l; [assumption|].
      rewrite Hy, <- Hr. now apply Qlt_le_weak.
    + assert (Hpos : (0 < r)).
      { destruct (Qlt_le_dec 0 r) as [|Hle]; [assumption|].
        apply Qle_lt_or_eq in Hle as [Hlt|Heq].
        - apply Qnum_neg in Hlt. congruence.
        - exfalso. now apply Hr0. }
      rewrite Q.min_r; [assumption|]. rewrite Hy, <- Hr. now apply Qlt_le_weak.
  - destruct Hx as [Hr Hr0], Hy as [Hs Hs0].
    destruct (Qle_bool r s) eqn:E; simpl.
    + apply Qle_bool_iff in E. split; [|assumption].
      rewrite Q.min_l; [assumption | now rewrite <- Hr, <- Hs].
    + assert (Hlt : (s <= r)).
      { destruct (Qlt_le_dec r s) as [Hl|]; [|assumption].
        apply Qlt_le_weak, Qle_bool_iff in Hl. congruence. }
      split; [|assumption]. rewrite Q.min_r; [assumption | now rewrite <- Hr, <- Hs].
Qed.


Lemma div_big w : 2 ^ (-500) <= w -> w <= 2 ^ 500 ->
  forall I, 1 <= I -> I <= 208 ->
  I * 2 ^ (-500) <= I / w /\ I / w <= I * 2 ^ 500.
Proof.
  intros Wl Wu I I0 I1.
  pose proof (pow2_pos (-500)) as Pl. pose proof (pow2_pos 500) as Pu.
  assert (W0 : 0 < w) by lra.
  assert (X : 2 ^ (-500) * 2 ^ 500 == 1) by reflexivity.
  split.
  - apply Qle_shift_div_l; [assumption|].
    rewrite <- Qmult_assoc. rewrite <- (Qmult_1_r I) at 2.
    apply Qmult_le_l; [lra|].
    rewrite <- X. apply Qmult_le_l; assumption.
  - apply Qle_shift_div_r; [assumption|].
    rewrite <- Qmult_assoc. rewrite <- (Qmult_1_r I) at 1.
    apply Qmult_le_l; [lra|].
    rewrite <- X, Qmult_comm. apply Qmult_le_l; assumption.
Qed.

(** A quotient of the scale: [I / w] after one rounding. *)
Lemma quotient_near (xI xw : jsnum) (I w : Q) :
  repr xI I -> repr xw w -> 1 <= I -> I <= 208 ->
  2 ^ (-500) <= w -> w <= 2 ^ 500 ->
  exists A, repr (div xI xw) A /\
            I / w - I / w * (1 # 4503599627370496) <= A /\
            A <= I / w + I / w * (1 # 4503599627370496) /\
            0 < A /\ A <= 2 ^ 509 /\ w * A <= I + I * (1 # 4503599627370496).
Proof.
  intros HI Hw I0 I1 Wl Wu.
  destruct (div_big w Wl Wu I I0 I1) as [Al Au].
  pose proof (pow2_pos (-500)) as Pl. pose proof (pow2_pos 500) as Pu.
  assert (W0 : 0 < w) by lra.
  assert (Wn : ~ w == 0) by (intros E; rewrite E in W0; discriminate).
  set (a := I / w) in *.
  assert (Big : 208 * 2 ^ 500 * 2 <= 2 ^ 509 /\ 2 ^ 509 <= 2 ^ 1023)
    by (split; vm_compute; discriminate).
  assert (Eta : 2 ^ (-1075) <= 2 ^ (-500) * (1 # 9007199254740992)
                /\ 2 ^ 500 * 2 ^ (-1075) <= 1 # 9007199254740992)
    by (split; vm_compute; discriminate).
  set (eta := 2 ^ (-1075)) in *. set (lo := 2 ^ (-500)) in *.
  set (hi := 2 ^ 500) in *. set (K := 2 ^ 509) in *. set (big := 2 ^ 1023) in *.
  assert (Hlo : lo <= a) by (assert (1 * lo <= I * lo)
    by (apply Qmult_le_compat_r; lra); lra).
  assert (I * hi <= 208 * hi) by (apply Qmult_le_compat_r; lra).
  destruct (near_elim _ _ a (near_div _ _ _ _ HI Hw Wn
              ltac:(fold a; apply Qabs_Qle_condition; fold big; lra))
              ltac:(fold a; lra)) as (A & HA & Ll & Lu).
  fold a in Ll, Lu. fold eta in Ll, Lu.
  assert (a * (1 # 9007199254740992) >= lo * (1 # 9007199254740992))
    by (apply Qmult_le_compat_r; [assumption | discriminate]).
  exists A. split; [assumption|].
  repeat split; try lra.
  apply Qle_trans with (w * (a + (a * (1 # 9007199254740992) + eta))).
  - apply Qmult_le_l; assumption.
  - assert (E : w * (a + (a * (1 # 9007199254740992) + eta))
                == I + I * (1 # 9007199254740992) + w * eta)
      by (unfold a; field; assumption).
    rewrite E.
    assert (w * eta <= hi * eta)
      by (apply Qmult_le_compat_r; [assumption | apply Qlt_le_weak, pow2_pos]).
    lra.
Qed.

(** The scale: the smaller of the two quotients. *)
Lemma scale_near (xW xH xw xh : jsnum) (W H w h : Q) :
  repr xW W -> repr xH H -> repr xw w -> repr xh h ->
  1 <= W -> W <= 208 -> 1 <= H -> H <= 208 ->
  2 ^ (-500) <= w -> w <= 2 ^ 500 -> 2 ^ (-500) <= h -> h <= 2 ^ 500 ->
  exists s, repr (min (div xW xw) (div xH xh)) s /\
            0 < s /\ s <= 2 ^ 509 /\
            Qabs (s - Qmin (W / w) (H / h)) <= Qmin (W / w) (H / h) * 2 ^ (-52) /\
            w * s <= W * (1 + 2 ^ (-52)) /\ h * s <= H * (1 + 2 ^ (-52)).
Proof.
  intros HW HH Hw Hh W0 W1 H0 H1 Wl Wu Hl Hu.
  destruct (quotient_near _ _ _ _ HW Hw W0 W1 Wl Wu)
    as (A & HA & Al & Au & A0 & AK & Aw).
  destruct (quotient_near _ _ _ _ HH Hh H0 H1 Hl Hu)
    as (B & HB & Bl & Bu & B0 & BK & Bh).
  pose proof (pow2_pos (-500)) as Pl.
  assert (w0 : 0 < w) by lra. assert (h0 : 0 < h) by lra.
  exists (Qmin A B). split; [now apply repr_min|].
  assert (U : 2 ^ (-52) == 1 # 4503599627370496) by reflexivity.
  rewrite !U.
  set (a := W / w) in *. set (b := H / h) in *.
  split; [destruct (Q.min_spec A B) as [[_ ->]|[_ ->]]; assumption|].
  split; [destruct (Q.min_spec A B) as [[_ ->]|[_ ->]]; assumption|].
  split; [|split].
  - apply Qabs_Qle_condition.
    destruct (Q.min_spec A B) as [[Hab ->]|[Hab ->]],
             (Q.min_spec a b) as [[Hab' ->]|[Hab' ->]]; split; lra.
  - apply Qle_trans with (w * A); [|lra].
    apply Qmult_le_l; [assumption | apply Q.le_min_l].
  - apply Qle_trans with (h * B); [|lra].
    apply Qmult_le_l; [assumption | apply Q.le_min_r].
Qed.

(** The number of an integer up to 2^53 is the integer. *)
Lemma of_Z_exact z : (0 < z <= 2 ^ 53)%Z -> of_Z z = Fin (inject_Z z).
Proof.
  intros [H0 H1]. unfold of_Z, of_Q.
  destruct z as [|a|a]; try lia.
  change (Qeq_bool (inject_Z (Zpos a)) 0) with false. cbv iota.
  now apply round_int.
Qed.

End JsNumFacts.

Module C1.
Import JsNum JsNumFacts RoundFacts ViewBox Layout.

(** C1: for a view box with finite fields, a width [w] and a height [h]
    between 2^-500 and 2^500 and an origin within 2^500 of zero, the scale
    is [min(innerW / w, innerH / h)] as the code divides, with the inner
    area [(thumbWidth - 16, thumbHeight - 32)]: a positive number within
    one part in 2^52 of the exact minimum.  The translation puts the
    scaled box in the middle of the inner area, which starts at (8, 8) in
    the cell, up to the rounding of the six operations that compute it:
    the margins left and right of the box differ by no more than
    [(1200 + 6 |minX * scale|) * 2^-53], and so do those above and below
    it with [minY], and the scaled box fits the inner area within one part
    in 2^52. *)
Theorem fit_scale_and_centering (vb : viewBox) (mx my w h : Q) :
  repr (num (minX vb)) mx -> repr (num (minY vb)) my ->
  repr (num (width vb)) w -> repr (num (height vb)) h ->
  (2 ^ (-500) <= w <= 2 ^ 500)%Q -> (2 ^ (-500) <= h <= 2 ^ 500)%Q ->
  (Qabs mx <= 2 ^ 500)%Q -> (Qabs my <= 2 ^ 500)%Q ->
  let f := fit_of vb in
  let W := inject_Z innerW in
  let H := inject_Z innerH in
  innerW = thumbWidth - 16 /\ innerH = thumbHeight - 32 /\
  scale f = min (div (of_Z innerW) (num (width vb)))
                (div (of_Z innerH) (num (height vb))) /\
  exists s x y : Q,
    to_Q (scale f) = Some s /\ to_Q (tx f) = Some x /\ to_Q (ty f) = Some y /\
    (0 < s)%Q /\
    (Qabs (s - Qmin (W / w) (H / h)) <= Qmin (W / w) (H / h) * 2 ^ (-52))%Q /\
    (Qabs (((x + mx * s) - 8) - ((8 + W) - (x + (mx + w) * s)))
     <= (1200 + 6 * Qabs (mx * s)) * 2 ^ (-53))%Q /\
    (Qabs (((y + my * s) - 8) - ((8 + H) - (y + (my + h) * s)))
     <= (1200 + 6 * Qabs (my * s)) * 2 ^ (-53))%Q /\
    (w * s <= W * (1 + 2 ^ (-52)))%Q /\ (h * s <= H * (1 + 2 ^ (-52)))%Q.
Proof.
  intros Hmx Hmy Hw Hh [Wl Wu] [Hl Hu] Mx My f W H.
  split; [reflexivity|]. split; [reflexivity|]. split; [reflexivity|].
  assert (HW : repr (of_Z innerW) W) by (split; [reflexivity | discriminate]).
  assert (HH : repr (of_Z innerH) H) by (split; [reflexivity | discriminate]).
  assert (BW : (1 <= W /\ W <= 208 /\ 0 < W)%Q) by (repeat split; discriminate).
  assert (BH : (1 <= H /\ H <= 208 /\ 0 < H)%Q)
    by (split; [|split]; [discriminate | discriminate | reflexivity]).
  destruct BW as (W1 & W2 & W0), BH as (H1 & H2 & H0).
  destruct (scale_near _ _ _ _ W H w h HW HH Hw Hh W1 W2 H1 H2 Wl Wu Hl Hu)
    as (s & Hs & s0 & sK & Es & Fw & Fh).
  fold (scale f) in Hs.
  assert (U : (2 ^ (-52) == 1 # 4503599627370496)%Q) by reflexivity.
  assert (Big : (2 ^ 500 * 2 ^ 509 <= 2 ^ 1020)%Q) by (vm_compute; discriminate).
  assert (P5 : (0 < 2 ^ (-500))%Q) by apply pow2_pos.
  assert (Mb : forall m, (Qabs m <= 2 ^ 500 -> Qabs (m * s) <= 2 ^ 1020)%Q).
  { intros m Hm. rewrite Qabs_Qmult, (Qabs_pos s) by lra.
    eapply Qle_trans; [|apply Big].
    apply Qle_trans with (2 ^ 500 * s)%Q.
    - apply Qmult_le_compat_r; lra.
    - apply Qmult_le_l; [apply pow2_pos | assumption]. }
  assert (Pw : (0 <= w * s)%Q) by (apply Qmult_le_0_compat; lra).
  assert (Ph : (0 <= h * s)%Q) by (apply Qmult_le_0_compat; lra).
  rewrite U in Fw, Fh.
  destruct (axis_near _ _ _ _ W w mx s HW Hw Hmx Hs W0 W2 Pw ltac:(lra) (Mb mx Mx))
    as (X & HX & EX).
  destruct (axis_near _ _ _ _ H h my s HH Hh Hmy Hs H0 H2 Ph ltac:(lra) (Mb my My))
    as (Y & HY & EY).
  change (repr (tx f) X) in HX. change (repr (ty f) Y) in HY.
  apply repr_to_Q in Hs as (s' & Es' & Hs'), HX as (x & Ex & HX), HY as (y & Ey & HY).
  exists s', x, y. repeat (split; [assumption|]).
  rewrite Hs', HX, HY, U.
  split; [assumption|]. split; [now rewrite <- U|].
  assert (D : forall t I v m : Q,
            (Qabs (t - (8 + (I - v * s) / 2 - m * s))
               <= (600 + 3 * Qabs (m * s)) * 2 ^ (-53) ->
             Qabs (t + m * s - 8 - (8 + I - (t + (m + v) * s)))
               <= (1200 + 6 * Qabs (m * s)) * 2 ^ (-53))%Q).
  { intros t I v m Ht.
    setoid_replace (t + m * s - 8 - (8 + I - (t + (m + v) * s)))%Q
      with (2 * (t - (8 + (I - v * s) / 2 - m * s)))%Q using relation Qeq
      by field.
    rewrite Qabs_Qmult. change (Qabs 2) with 2%Q.
    setoid_replace ((1200 + 6 * Qabs (m * s)) * 2 ^ (-53))%Q
      with (2 * ((600 + 3 * Qabs (m * s)) * 2 ^ (-53)))%Q using relation Qeq
      by ring.
    apply Qmult_le_l; [reflexivity | assumption]. }
  split; [now apply D|]. split; [now apply D|]. split; assumption.
Qed.

(** The default box of 400 by 600 units, whose quotients 164/400 and
    208/600 are no binary64 numbers: the scale and the translation are the
    numbers that print as 0.3466666666666667 and 20.666666666666657. *)
Lemma fit_scale_and_centering_witness :
  fit_of default_viewBox
  = {| scale := Fin (390311967705443 # 1125899906842624);
       tx := Fin (727143689835861 # 35184372088832);
       ty := Fin 8 |} /\
  Doc.number_toString (P := Example.platform) (scale (fit_of default_viewBox))
  = "0.3466666666666667" /\
  Doc.number_toString (P := Example.platform) (tx (fit_of default_viewBox))
  = "20.666666666666657" /\
  exists s x y : Q,
    to_Q (scale (fit_of default_viewBox)) = Some s /\
    to_Q (tx (fit_of default_viewBox)) = Some x /\
    to_Q (ty (fit_of default_viewBox)) = Some y /\
    (Qabs (s - Qmin (164 / 400) (208 / 600))
       <= Qmin (164 / 400) (208 / 600) * 2 ^ (-52))%Q /\
    (Qabs (((x + 0 * s) - 8) - ((8 + 164) - (x + (0 + 400) * s)))
     <= (1200 + 6 * Qabs (0 * s)) * 2 ^ (-53))%Q /\
    (Qabs (((y + 0 * s) - 8) - ((8 + 208) - (y + (0 + 600) * s)))
     <= (1200 + 6 * Qabs (0 * s)) * 2 ^ (-53))%Q.
Proof.
  assert (Hzero : repr (Zero false) 0) by reflexivity.
  assert (Hw : repr (Fin 400) 400) by (split; [reflexivity | discriminate]).
  assert (Hh : repr (Fin 600) 600) by (split; [reflexivity | discriminate]).
  assert (Bw : (2 ^ (-500) <= 400 <= 2 ^ 500)%Q) by (split; vm_compute; discriminate).
  assert (Bh : (2 ^ (-500) <= 600 <= 2 ^ 500)%Q) by (split; vm_compute; discriminate).
  assert (B0 : (Qabs 0 <= 2 ^ 500)%Q) by (vm_compute; discriminate).
  destruct (fit_scale_and_centering default_viewBox 0 0 400 600
              Hzero Hzero Hw Hh Bw Bh B0 B0)
    as (_ & _ & _ & s & x & y & Hs & Hx & Hy & _ & E1 & E2 & E3 & _).
  split; [vm_compute; reflexivity|]. split; [vm_compute; reflexivity|].
  split; [vm_compute; reflexivity|].
  exists s, x, y. repeat split; assumption.
Defined.

End C1.

(** ** Sorting *)
Module SortFacts.
Import Sort.
Export SortSpec.

Section By.
Context {A : Type} (cmp : A -> A -> comparison).

Lemma insert_perm x l : Permutation (insert cmp x l) (x :: l).
Proof.
  induction l as [|y l IH]; simpl; [reflexivity|].
  destruct (cmp x y); try reflexivity.
  rewrite IH. apply perm_swap.
Qed.

Lemma sort_by_perm l : Permutation (sort_by cmp l) l.
Proof.
  induction l as [|x l IH]; simpl; [reflexivity|].
  rewrite insert_perm. now constructor.
Qed.

Hypothesis Hasym : asymmetric cmp.
Hypothesis Htrans : transitive cmp.

Lemma insert_sorted x l :
  StronglySorted (le cmp) l -> StronglySorted (le cmp) (insert cmp x l).
Proof.
  induction 1 as [|y l Hl IH Hy]; simpl.
  - repeat constructor.
  - destruct (cmp x y) eqn:E.
    + constructor; [now constructor|]. constructor; [unfold le; congruence|].
      eapply Forall_impl; [exact Hy|]. intros z Hz.
      apply (Htrans x y z); [congruence | exact Hz].
    + constructor; [now constructor|]. constructor; [unfold le; congruence|].
      eapply Forall_impl; [exact Hy|]. intros z Hz.
      apply (Htrans x y z); [congruence | exact Hz].
    + constructor; [assumption|].
      apply (Permutation_Forall (Permutation_sym (insert_perm x l))).
      constructor; [now apply Hasym | assumption].
Qed.

Lemma sort_by_sorted l : StronglySorted (le cmp) (sort_by cmp l).
Proof.
  induction l as [|x l IH]; simpl; [constructor | now apply insert_sorted].
Qed.

End By.

(** *** The order of the code units *)

Lemma ascii_compare_N a b :
  Ascii.compare a b = N.compare (N_of_ascii a) (N_of_ascii b).
Proof. reflexivity. Qed.

Lemma code_unit_asymmetric : asymmetric code_unit_compare.
Proof.
  intros a b H. unfold code_unit_compare in *.
  rewrite String.compare_antisym, H. discriminate.
Qed.

Lemma code_unit_transitive : transitive code_unit_compare.
Proof.
  unfold transitive, code_unit_compare.
  induction a as [|x a IH]; intros [|y b] [|z c]; simpl; try congruence.
  rewrite !ascii_compare_N.
  destruct (N.compare_spec (N_of_ascii x) (N_of_ascii y)) as [E1|L1|G1];
    destruct (N.compare_spec (N_of_ascii y) (N_of_ascii z)) as [E2|L2|G2];
    try congruence; intros H1 H2.
  - rewrite E1, E2, N.compare_refl. eauto.
  - rewrite E1. now apply N.compare_lt_iff in L2 as ->.
  - rewrite <- E2. now apply N.compare_lt_iff in L1 as ->.
  - assert (L : (N_of_ascii x < N_of_ascii z)%N) by lia.
    now apply N.compare_lt_iff in L as ->.
Qed.

(** *** The numeric collation *)

Lemma token_compare_antisym a b : token_compare a b = CompOpp (token_compare b a).
Proof.
  destruct a as [u|x], b as [v|y]; simpl.
  - apply Z.compare_antisym.
  - now destruct (N_of_ascii y <? 48)%N.
  - now destruct (N_of_ascii x <? 48)%N.
  - apply Ascii.compare_antisym.
Qed.

Lemma token_compare_eq a b : token_compare a b = Eq -> a = b.
Proof.
  destruct a as [u|x], b as [v|y]; simpl.
  - intros H. apply Z.compare_eq in H. congruence.
  - destruct (N_of_ascii y <? 48)%N; discriminate.
  - destruct (N_of_ascii x <? 48)%N; discriminate.
  - intros H. apply Ascii.compare_eq_iff in H. congruence.
Qed.

Lemma token_compare_refl a : token_compare a a = Eq.
Proof.
  destruct a as [u|x]; simpl; [apply Z.compare_refl|].
  rewrite ascii_compare_N. apply N.compare_refl.
Qed.

Lemma token_compare_lt_trans a b c :
  token_compare a b = Lt -> token_compare b c = Lt -> token_compare a c = Lt.
Proof.
  destruct a as [u|x], b as [v|y], c as [w|z]; simpl;
    rewrite ?ascii_compare_N, ?N.compare_lt_iff, ?Z.compare_lt_iff;
    repeat match goal with
           | |- context [(?n <? 48)%N] => destruct (N.ltb_spec n 48)
           end; try congruence; try lia.
Qed.

Section Lex.
Context {T : Type} (c : T -> T -> comparison).
Hypothesis c_antisym : forall a b, c a b = CompOpp (c b a).
Hypothesis c_eq : forall a b, c a b = Eq -> a = b.
Hypothesis c_refl : forall a, c a a = Eq.
Hypothesis c_lt_trans : forall a b d, c a b = Lt -> c b d = Lt -> c a d = Lt.

Lemma lex_compare_antisym l1 : forall l2,
  lex_compare c l1 l2 = CompOpp (lex_compare c l2 l1).
Proof.
  induction l1 as [|x l1 IH]; intros [|y l2]; simpl; try reflexivity.
  rewrite (c_antisym y x). destruct (c x y); simpl; auto.
Qed.

Lemma lex_compare_trans l1 : forall l2 l3,
  lex_compare c l1 l2 <> Gt -> lex_compare c l2 l3 <> Gt ->
  lex_compare c l1 l3 <> Gt.
Proof.
  induction l1 as [|x l1 IH]; intros [|y l2] [|z l3]; simpl; try congruence.
  destruct (c x y) eqn:E1; destruct (c y z) eqn:E2; try congruence; intros H1 H2.
  - apply c_eq in E1, E2. subst. rewrite c_refl. eauto.
  - apply c_eq in E1. subst. now rewrite E2.
  - apply c_eq in E2. subst. now rewrite E1.
  - now rewrite (c_lt_trans _ _ _ E1 E2).
Qed.

End Lex.

Lemma numeric_asymmetric : asymmetric numeric_compare.
Proof.
  intros a b H. unfold numeric_compare in *.
  rewrite (lex_compare_antisym _ token_compare_antisym), H. discriminate.
Qed.

Lemma numeric_transitive : transitive numeric_compare.
Proof.
  intros a b c. unfold numeric_compare.
  apply (lex_compare_trans token_compare token_compare_eq token_compare_refl
           token_compare_lt_trans).
Qed.

Lemma sort_sorted l : StronglySorted (le code_unit_compare) (sort l).
Proof. apply sort_by_sorted; [apply code_unit_asymmetric | apply code_unit_transitive]. Qed.

End SortFacts.

(** ** Running the script *)
Module CatalogFacts.
Import Str RegExp Sanitizer ViewBox Layout Doc IO Sort Catalog.
Export CatalogSpec.

Lemma bind_Return {A B} (m : M A) (k : A -> M B) w b w' :
  bind m k w = (Return b, w') ->
  exists a w1, m w = (Return a, w1) /\ k a w1 = (Return b, w').
Proof.
  unfold bind. destruct (m w) as [[a|e] w1]; [eauto | discriminate].
Qed.

Lemma bind_step {A B} (m : M A) (k : A -> M B) w a w1 :
  m w = (Return a, w1) -> bind m k w = k a w1.
Proof. unfold bind. now intros ->. Qed.

Lemma bind_Throw {A B} (m : M A) (k : A -> M B) w e w1 :
  m w = (Throw e, w1) -> bind m k w = (Throw e, w1).
Proof. unfold bind. now intros ->. Qed.

(** *** Reading leaves the world as it is *)

Lemma pure_ret {A} (a : A) : pure (ret a).
Proof. intros w r w' [= _ <-]. reflexivity. Qed.

Lemma pure_bind {A B} (m : M A) (k : A -> M B) :
  pure m -> (forall a, pure (k a)) -> pure (bind m k).
Proof.
  intros Hm Hk w r w'. unfold bind.
  destruct (m w) as [[a|e] w1] eqn:E; apply Hm in E as ->.
  - apply Hk.
  - now intros [= _ <-].
Qed.

Lemma pure_readdirSync dir : pure (readdirSync dir).
Proof.
  intros w r w'. unfold readdirSync.
  destruct (fs w !! dir) as [[c|es]|]; now intros [= _ <-].
Qed.

Lemma pure_isDirectory path : pure (isDirectory path).
Proof.
  intros w r w'. unfold isDirectory.
  destruct (fs w !! path) as [[c|es]|]; now intros [= _ <-].
Qed.

Lemma pure_readFileSync path : pure (readFileSync path).
Proof.
  intros w r w'. unfold readFileSync.
  destruct (fs w !! path) as [[c|es]|]; now intros [= _ <-].
Qed.

Lemma pure_filterM {A} (f : A -> M bool) l : (forall x, pure (f x)) -> pure (filterM f l).
Proof.
  intros Hf. induction l as [|x l IH]; simpl; [apply pure_ret|].
  apply pure_bind; [apply Hf|]. intros b.
  apply pure_bind; [apply IH|]. intros rest. apply pure_ret.
Qed.

Lemma pure_mapM_from {A B} (f : nat -> A -> M B) l :
  (forall i x, pure (f i x)) -> forall idx, pure (mapM_from f idx l).
Proof.
  intros Hf. induction l as [|x l IH]; intros idx; simpl; [apply pure_ret|].
  apply pure_bind; [apply Hf|]. intros b.
  apply pure_bind; [apply IH|]. intros rest. apply pure_ret.
Qed.

Lemma pure_foldM {A S} (f : S -> A -> M S) l :
  (forall s x, pure (f s x)) -> forall s, pure (foldM f s l).
Proof.
  intros Hf. induction l as [|x l IH]; intros s; simpl; [apply pure_ret|].
  apply pure_bind; [apply Hf | intros s'; apply IH].
Qed.

Section Script.
Context {P : Platform}.

Lemma pure_is_category name : pure (is_category name).
Proof.
  unfold is_category. destruct (startsWith "." name);
    [apply pure_ret | apply pure_isDirectory].
Qed.

Lemma pure_scan_categories : pure scan_categories.
Proof.
  unfold scan_categories.
  apply pure_bind; [apply pure_readdirSync|]. intros names.
  apply pure_bind; [apply pure_filterM, pure_is_category|]. intros dirs.
  apply pure_ret.
Qed.

Lemma pure_category_step st category : pure (category_step st category).
Proof.
  destruct st as [y chunks]. unfold category_step.
  apply pure_bind; [apply pure_readdirSync|]. intros entries.
  apply pure_bind; [|intros; apply pure_ret].
  apply pure_mapM_from. intros i x.
  apply pure_bind; [apply pure_readFileSync | intros; apply pure_ret].
Qed.

Lemma pure_build : pure build.
Proof.
  unfold build. apply pure_bind; [apply pure_scan_categories|]. intros cats.
  apply pure_bind; [apply pure_foldM, pure_category_step|].
  intros [y chunks]. apply pure_ret.
Qed.

(** *** The categories *)

Lemma filterM_is_category w names : forall dirs w',
  filterM is_category names w = (Return dirs, w') ->
  dirs = List.filter (is_category_in w) names.
Proof.
  induction names as [|name names IH]; intros dirs w'; simpl.
  - now intros [= <- _].
  - intros H. apply bind_Return in H as (b & w1 & Hb & H).
    pose proof (pure_is_category _ _ _ _ Hb) as ->.
    apply bind_Return in H as (rest & w2 & Hrest & H).
    injection H as <- _. rewrite (IH _ _ Hrest).
    unfold is_category, is_category_in, isDirectory, ret in *.
    destruct (startsWith "." name); simpl.
    + now injection Hb as <-.
    + destruct (fs w !! join svgRoot name) as [[c|es]|];
        try discriminate; now injection Hb as <-.
Qed.

Lemma scan_categories_Return w cats w' :
  scan_categories w = (Return cats, w') ->
  exists names,
    fs w !! svgRoot = Some (Dir names) /\
    cats = sort (List.filter (is_category_in w) names).
Proof.
  unfold scan_categories. intros H.
  apply bind_Return in H as (names & w1 & Hn & H).
  pose proof (pure_readdirSync _ _ _ _ Hn) as ->.
  apply bind_Return in H as (dirs & w2 & Hd & H).
  injection H as <- _. apply filterM_is_category in Hd as ->.
  exists names. split; [|reflexivity].
  unfold readdirSync in Hn. destruct (fs w !! svgRoot) as [[c|es]|];
    try discriminate. now injection Hn as ->.
Qed.

(** *** One category *)

(** The fragments of a category, read in the order of [files] from index
    [idx] on. *)
Lemma mapM_from_blocks w y dir files : forall idx bs w',
  mapM_from
    (fun idx file =>
       let* raw := readFileSync (join dir file) in
       ret (block_of y idx file raw)) idx files w = (Return bs, w') ->
  Forall2 (fun '(i, file) b =>
             exists raw, fs w !! join dir file = Some (File raw) /\
                         b = block_of y i file raw)
          (combine (List.seq idx (length files)) files) bs.
Proof.
  induction files as [|file files IH]; intros idx bs w'; simpl.
  - intros [= <- _]. constructor.
  - intros H. apply bind_Return in H as (b & w1 & Hb & H).
    apply bind_Return in Hb as (raw & w0 & Hraw & Hb).
    pose proof (pure_readFileSync _ _ _ _ Hraw) as ->.
    injection Hb as <- <-.
    apply bind_Return in H as (rest & w2 & Hrest & H).
    injection H as <- _. constructor; [|eapply IH; eassumption].
    exists raw. split; [|reflexivity].
    unfold readFileSync in Hraw.
    destruct (fs w !! join dir file) as [[c|es]|]; try discriminate.
    now injection Hraw as ->.
Qed.

(** What one turn of the loop over the categories does: a title at [y],
    then one block per file in the order of [list_files], and [y] moved on
    by the title row, the rows of the grid and the gap. *)
Lemma category_step_Return y chunks category w y' chunks' w' :
  category_step (y, chunks) category w = (Return (y', chunks'), w') ->
  exists entries blocks,
    fs w !! join svgRoot category = Some (Dir entries) /\
    chunks' = (chunks ++ Title y category :: blocks)%list /\
    Forall2 (fun '(i, file) b =>
               exists raw,
                 fs w !! join (join svgRoot category) file = Some (File raw) /\
                 b = block_of (y + titleHeight) i file raw)
            (combine (List.seq 0 (length (list_files entries))) (list_files entries))
            blocks /\
    y' = y + titleHeight
         + rows_of (length (list_files entries)) * blockHeight + categoryGap.
Proof.
  unfold category_step. intros H.
  apply bind_Return in H as (entries & w1 & He & H).
  pose proof (pure_readdirSync _ _ _ _ He) as ->.
  apply bind_Return in H as (blocks & w2 & Hb & H).
  injection H as <- <- _.
  exists entries, blocks. split; [|split; [|split]].
  - unfold readdirSync in He.
    destruct (fs w !! join svgRoot category) as [[c|es]|]; try discriminate.
    now injection He as ->.
  - rewrite <- List.app_assoc. reflexivity.
  - eapply mapM_from_blocks; eassumption.
  - reflexivity.
Qed.

(** *** When the script gets through

    The reads succeed when what is read is there: the blocks of a category
    are then given by [blocks_in], and the categories by the filter. *)

Lemma mapM_from_total w y dir files : forall idx,
  Forall (fun file => is_file w (join dir file)) files ->
  mapM_from
    (fun idx file =>
       let* raw := readFileSync (join dir file) in
       ret (block_of y idx file raw)) idx files w
  = (Return (blocks_in w y dir idx files), w).
Proof.
  induction files as [|file files IH]; intros idx Hf; [reflexivity|].
  inversion Hf as [|? ? (content & Hc) Hrest]; subst.
  cbn [mapM_from blocks_in]. unfold bind at 1. unfold bind at 1.
  unfold readFileSync at 1, content_of. rewrite Hc. cbn [ret].
  unfold bind. rewrite (IH _ Hrest). reflexivity.
Qed.

Lemma category_step_total y chunks category w entries :
  fs w !! join svgRoot category = Some (Dir entries) ->
  Forall (fun file => is_file w (join (join svgRoot category) file))
         (list_files entries) ->
  category_step (y, chunks) category w =
  (Return (y + titleHeight
           + rows_of (length (list_files entries)) * blockHeight + categoryGap,
           (chunks ++ Title y category
              :: blocks_in w (y + titleHeight) (join svgRoot category) 0
                   (list_files entries))%list),
   w).
Proof.
  intros Hd Hf. unfold category_step, bind at 1.
  unfold readdirSync at 1. rewrite Hd.
  unfold bind at 1. rewrite (mapM_from_total _ _ _ _ _ Hf). unfold ret.
  rewrite <- List.app_assoc. reflexivity.
Qed.

Lemma filterM_is_category_total w names :
  Forall (fun name => startsWith "." name = true \/
                      is_Some (fs w !! join svgRoot name)) names ->
  filterM is_category names w = (Return (List.filter (is_category_in w) names), w).
Proof.
  induction 1 as [|name names Hn Hrest IH]; [reflexivity|].
  assert (Hb : is_category name w = (Return (is_category_in w name), w)).
  { unfold is_category, is_category_in.
    destruct (startsWith "." name) eqn:E; [reflexivity|].
    destruct Hn as [Hn|[nd Hn]]; [discriminate|].
    unfold isDirectory. rewrite Hn. now destruct nd. }
  cbn [filterM List.filter].
  rewrite (bind_step _ _ _ _ _ Hb), (bind_step _ _ _ _ _ IH).
  unfold ret. now destruct (is_category_in w name).
Qed.

Lemma scan_categories_total w names :
  fs w !! svgRoot = Some (Dir names) ->
  Forall (fun name => startsWith "." name = true \/
                      is_Some (fs w !! join svgRoot name)) names ->
  scan_categories w = (Return (sort (List.filter (is_category_in w) names)), w).
Proof.
  intros Hr Hn. unfold scan_categories.
  erewrite bind_step by (unfold readdirSync; now rewrite Hr).
  rewrite (bind_step _ _ _ _ _ (filterM_is_category_total _ _ Hn)).
  reflexivity.
Qed.

End Script.
End CatalogFacts.

Module C3.
Import Str Doc IO Sort SortFacts Catalog CatalogFacts.

(** C3: with a comparator that is a consistent order, the files of a
    category are its entries ending in [.svg] in the order of the numeric
    collation, and the blocks of the category follow that order; a
    comparator that puts [part2.svg] before [part10.svg] gives that order
    whichever way the directory lists them, where the order of the code
    units gives the opposite one.  The categories are the entries of the
    root that are not hidden and are directories, in the ascending order of
    their code units. *)
Theorem files_and_categories_order {P : Platform} :
  asymmetric localeCompare_numeric ->
  transitive localeCompare_numeric ->
  localeCompare_numeric "part2.svg" "part10.svg" = Lt ->
  localeCompare_numeric "part10.svg" "part2.svg" = Gt ->
  (forall entries,
     StronglySorted (le localeCompare_numeric) (list_files entries) /\
     Permutation (list_files entries) (List.filter (endsWith ".svg") entries)) /\
  (forall y chunks category w y' chunks' w',
     category_step (y, chunks) category w = (Return (y', chunks'), w') ->
     exists entries blocks,
       fs w !! join svgRoot category = Some (Dir entries) /\
       chunks' = (chunks ++ Title y category :: blocks)%list /\
       map chunk_id blocks = map basename_svg (list_files entries)) /\
  list_files ["part10.svg"; "part2.svg"] = ["part2.svg"; "part10.svg"] /\
  list_files ["part2.svg"; "part10.svg"] = ["part2.svg"; "part10.svg"] /\
  sort ["part2.svg"; "part10.svg"] = ["part10.svg"; "part2.svg"] /\
  (forall w cats w',
     scan_categories w = (Return cats, w') ->
     StronglySorted (le code_unit_compare) cats /\
     exists names,
       fs w !! svgRoot = Some (Dir names) /\
       Permutation cats (List.filter (is_category_in w) names)).
Proof.
  intros Hasym Htrans H2 H10. repeat split.
  - apply sort_by_sorted; assumption.
  - apply sort_by_perm.
  - intros y chunks category w y' chunks' w' H.
    apply category_step_Return in H as (entries & blocks & Hd & -> & Hb & _).
    exists entries, blocks. repeat split; [assumption|].
    revert Hb. generalize (list_files entries) 0%nat. clear.
    intros files. revert blocks.
    induction files as [|f files IH]; intros blocks n Hb; simpl in Hb;
      inversion Hb as [|p b ps bs Hhead Hrest]; subst; [reflexivity|].
    simpl in Hhead. destruct Hhead as (raw & _ & ->).
    simpl. f_equal. eapply IH; eassumption.
  - unfold list_files. simpl. now rewrite H10.
  - unfold list_files. simpl. now rewrite H2.
  - apply scan_categories_Return in H as (names & _ & ->). apply sort_sorted.
  - apply scan_categories_Return in H as (names & Hn & ->).
    exists names. split; [assumption | apply sort_by_perm].
Qed.

Lemma files_and_categories_order_witness :
  list_files (P := Example.platform) ["part10.svg"; "part2.svg"]
    = ["part2.svg"; "part10.svg"] /\
  sort ["part2.svg"; "part10.svg"] = ["part10.svg"; "part2.svg"] /\
  StronglySorted (le numeric_compare)
    (list_files (P := Example.platform) ["b.svg"; "a10.svg"; "notes.txt"; "a9.svg"]).
Proof.
  destruct (files_and_categories_order (P := Example.platform)
              numeric_asymmetric numeric_transitive eq_refl eq_refl)
    as (Hfiles & _ & H1 & _ & H2 & _).
  split; [exact H1|]. split; [exact H2 | apply Hfiles].
Defined.

End C3.

Module C5.
Import Str Doc IO Layout Sort Catalog CatalogFacts.

(** C5 (as stated, refuted): the turn of the loop for a category without
    fragments moves [y] from 24 to 78, by the title row and the gap between
    categories, and not to 46, by the title row alone. *)
Lemma empty_category_advances_by_gap_too :
  category_step (P := Example.platform) (padding, []) "eyes" Example.empty_category_world
    = (Return (78, [Title 24 "eyes"]), Example.empty_category_world) /\
  78 = padding + titleHeight + categoryGap /\
  78 <> padding + titleHeight.
Proof.
  split; [vm_compute; reflexivity | split; [reflexivity | discriminate]].
Qed.

(** C5 (amended): for a category whose directory holds no entry ending in
    [.svg], the turn of the loop pushes the title of the category and nothing
    else, the grid has zero rows, and [y] moves on by one title row plus the
    gap between categories. *)
Theorem empty_category_title_only {P : Platform}
    (y : Z) (chunks : list chunk) (category : string) (w : world)
    (entries : list string) :
  fs w !! join svgRoot category = Some (Dir entries) ->
  List.filter (endsWith ".svg") entries = [] ->
  category_step (y, chunks) category w
    = (Return (y + titleHeight + categoryGap,
               (chunks ++ [Title y category])%list), w) /\
  rows_of (length (list_files entries)) = 0.
Proof.
  intros Hd He.
  assert (Hl : list_files entries = []) by (unfold list_files; now rewrite He).
  rewrite (category_step_total _ _ _ _ _ Hd) by (rewrite Hl; constructor).
  rewrite Hl. split; [|reflexivity].
  cbn [length blocks_in]. change (rows_of 0) with 0. do 3 f_equal. lia.
Qed.

Lemma empty_category_title_only_witness :
  category_step (P := Example.platform) (100, [Title 24 "ears"]) "eyes"
      Example.empty_category_world
    = (Return (100 + titleHeight + categoryGap,
               [Title 24 "ears"; Title 100 "eyes"]), Example.empty_category_world).
Proof.
  apply (empty_category_title_only (P := Example.platform)
           100 [Title 24 "ears"] "eyes" Example.empty_category_world ["README.md"]);
    reflexivity.
Defined.

End C5.



Module C8.
Import Str JsNum ViewBox Sanitizer Doc IO Layout Sort Catalog CatalogFacts.
Import DocSpec.

Lemma sort_by_two {A} (cmp : A -> A -> comparison) (a b : A) (l : list A) :
  Permutation l [a; b] -> cmp a b = Lt -> cmp b a = Gt -> sort_by cmp l = [a; b].
Proof.
  intros Hp Hab Hba.
  apply Permutation_sym, Permutation_length_2_inv in Hp as [-> | ->]; simpl.
  - now rewrite Hab.
  - now rewrite Hba.
Qed.

(** C8: with the categories [eyes] (holding [left.svg] with the view box
    0 0 100 100 and [right.svg] with 0 0 50 200) and [mouths] (holding
    [smile.svg] with 0 0 200 50), however the directories list them, the
    document holds two titles and three blocks, in the order eyes, left,
    right, mouths, smile, and its width is [2 * padding + cols * colWidth].
    The text of the document is the root tag of 1048 by 696 and these five
    nodes, a line each: the two title nodes and the three grouped blocks,
    each block with the sanitized inner markup of its file and its fit,
    whose scales 1.64, 1.04 and 0.82 are the nearest binary64 numbers. *)
Theorem scenario_document {P : Platform} (w : world)
    (names eyes mouths : list string) (rawL rawR rawS : string) :
  localeCompare_numeric "left.svg" "right.svg" = Lt ->
  localeCompare_numeric "right.svg" "left.svg" = Gt ->
  fs w !! svgRoot = Some (Dir names) ->
  Permutation names ["eyes"; "mouths"] ->
  fs w !! join svgRoot "eyes" = Some (Dir eyes) ->
  Permutation (List.filter (endsWith ".svg") eyes) ["left.svg"; "right.svg"] ->
  fs w !! join svgRoot "mouths" = Some (Dir mouths) ->
  List.filter (endsWith ".svg") mouths = ["smile.svg"] ->
  fs w !! join (join svgRoot "eyes") "left.svg" = Some (File rawL) ->
  fs w !! join (join svgRoot "eyes") "right.svg" = Some (File rawR) ->
  fs w !! join (join svgRoot "mouths") "smile.svg" = Some (File rawS) ->
  extractViewBox rawL = parse_viewBox "0 0 100 100" ->
  extractViewBox rawR = parse_viewBox "0 0 50 200" ->
  extractViewBox rawS = parse_viewBox "0 0 200 50" ->
  let s164 := Fin (7385903388887613 # 4503599627370496) in
  let s104 := Fin (1170935903116329 # 1125899906842624) in
  let s082 := Fin (7385903388887613 # 9007199254740992) in
  exists d,
    build w = (Return d, w) /\
    doc_chunks d =
      [Title 24 "eyes";
       Block 24 46 {| scale := s164; tx := Fin 8; ty := Fin 30 |}
             (sanitized_inner rawL) "left";
       Block 224 46 {| scale := s104; tx := Fin 64; ty := Fin 8 |}
             (sanitized_inner rawR) "right";
       Title 348 "mouths";
       Block 24 370 {| scale := s082; tx := Fin 8; ty := Fin (183 # 2) |}
             (sanitized_inner rawS) "smile"] /\
    render d =
      document_text "1048" "696"
        [title_text "24" "eyes";
         block_text "24" "46" "8" "30" (number_toString s164)
                    (sanitized_inner rawL) "left";
         block_text "224" "46" "64" "8" (number_toString s104)
                    (sanitized_inner rawR) "right";
         title_text "348" "mouths";
         block_text "24" "370" "8" (number_toString (Fin (183 # 2)))
                    (number_toString s082) (sanitized_inner rawS) "smile"] /\
    count is_block (doc_chunks d) = 3%nat /\
    count is_title (doc_chunks d) = 2%nat /\
    doc_width d = 2 * padding + cols * colWidth /\
    doc_width d = 1048.
Proof.
  intros Hlr Hrl Hroot Hnames Heyes Hef Hmouths Hmf HL HR HS VL VR VS.
  assert (Hcats : scan_categories w = (Return ["eyes"; "mouths"], w)).
  { rewrite (scan_categories_total _ _ Hroot).
    - f_equal. f_equal.
      assert (He : is_category_in w "eyes" = true)
        by (unfold is_category_in; now rewrite Heyes).
      assert (Hm : is_category_in w "mouths" = true)
        by (unfold is_category_in; now rewrite Hmouths).
      apply Permutation_sym, Permutation_length_2_inv in Hnames as [-> | ->];
        cbn [List.filter]; rewrite He, Hm; reflexivity.
    - apply (Permutation_Forall (Permutation_sym Hnames)).
      constructor; [right; eauto | constructor; [right; eauto | constructor]]. }
  assert (Hfe : list_files eyes = ["left.svg"; "right.svg"])
    by (unfold list_files; now apply sort_by_two).
  assert (Hfm : list_files mouths = ["smile.svg"])
    by (unfold list_files; now rewrite Hmf).
  intros s164 s104 s082.
  eexists. split.
  - unfold build. rewrite (bind_step _ _ _ _ _ Hcats). cbn [foldM].
    erewrite bind_step; cycle 1.
    { erewrite bind_step; cycle 1.
      { apply (category_step_total _ _ _ _ _ Heyes).
        rewrite Hfe. repeat constructor; eexists; eassumption. }
      erewrite bind_step; cycle 1.
      { apply (category_step_total _ _ _ _ _ Hmouths).
        rewrite Hfm. repeat constructor; eexists; eassumption. }
      reflexivity. }
    reflexivity.
  - cbn [doc_chunks doc_width]. rewrite Hfe, Hfm.
    cbn [blocks_in length List.app]. unfold content_of. rewrite HL, HR, HS.
    unfold block_of. rewrite VL, VR, VS.
    split; [reflexivity|]. split; [|repeat split].
    unfold render. cbn [doc_chunks doc_width doc_height map].
    change (extractInner (sanitize (stripProlog rawL))) with (sanitized_inner rawL).
    change (extractInner (sanitize (stripProlog rawR))) with (sanitized_inner rawR).
    change (extractInner (sanitize (stripProlog rawS))) with (sanitized_inner rawS).
    change (fit_of (parse_viewBox "0 0 100 100"))
      with {| scale := s164; tx := Fin 8; ty := Fin 30 |}.
    change (fit_of (parse_viewBox "0 0 50 200"))
      with {| scale := s104; tx := Fin 64; ty := Fin 8 |}.
    change (fit_of (parse_viewBox "0 0 200 50"))
      with {| scale := s082; tx := Fin 8; ty := Fin (183 # 2) |}.
    unfold render_chunk. cbn [scale tx ty].
    change (number_toString (Fin 8)) with "8".
    change (number_toString (Fin 30)) with "30".
    change (number_toString (Fin 64)) with "64".
    generalize (number_toString s164), (number_toString s104),
      (number_toString s082), (number_toString (Fin (183 # 2))),
      (sanitized_inner rawL), (sanitized_inner rawR), (sanitized_inner rawS).
    intros n1 n2 n3 n4 i1 i2 i3. vm_compute. reflexivity.
Qed.

(** The scenario on a platform that prints as the host does: the text of
    the document. *)
Lemma scenario_document_witness :
  exists d,
    build (P := Example.platform) Example.scenario_world = (Return d, Example.scenario_world) /\
    map chunk_id (doc_chunks d) = ["eyes"; "left"; "right"; "mouths"; "smile"] /\
    render (P := Example.platform) d =
      document_text "1048" "696"
        [title_text "24" "eyes";
         block_text "24" "46" "8" "30" "1.64" "<path/>" "left";
         block_text "224" "46" "64" "8" "1.04" "<path/>" "right";
         title_text "348" "mouths";
         block_text "24" "370" "8" "91.5" "0.82" "<path/>" "smile"] /\
    count is_block (doc_chunks d) = 3%nat /\
    count is_title (doc_chunks d) = 2%nat /\
    doc_width d = 1048.
Proof.
  destruct (scenario_document (P := Example.platform) Example.scenario_world
              ["mouths"; "eyes"] ["right.svg"; "notes.txt"; "left.svg"]
              ["smile.svg"]
              (Example.fragment "0 0 100 100") (Example.fragment "0 0 50 200")
              (Example.fragment "0 0 200 50"))
    as (d & Hb & Hc & Hr & Hn & Ht & _ & Hw);
    try reflexivity; try (apply perm_swap).
  exists d. rewrite Hc in *. rewrite Hr. repeat split; assumption.
Defined.

End C8.

(** ** The text of the root tag, read back *)
Module RootFacts.
Import Str StrFacts RegExp RegExpFacts ViewBox ViewBoxFacts JsNum Doc RootSpec.
Export RootSpec.

Lemma digits_uint d : forall a c rest,
  stops rest ->
  digits a c (NilEmpty.string_of_uint d +:+ rest)
  = (uint_value a d, (c + len (NilEmpty.string_of_uint d))%nat, rest).
Proof.
  induction d; intros a c rest Hrest; simpl;
    try (rewrite IHd by assumption; do 2 f_equal; lia).
  rewrite Nat.add_0_r. destruct rest as [|ch rest]; [reflexivity|].
  simpl in *. now rewrite Hrest.
Qed.

Lemma all_digit_uint d : all is_digit (NilEmpty.string_of_uint d) = true.
Proof. induction d; simpl; auto. Qed.

Lemma of_uint_acc_value d : forall acc,
  Zpos (Pos.of_uint_acc d acc) = uint_value (Zpos acc) d.
Proof.
  induction d; intros acc; simpl; try reflexivity; rewrite IHd; f_equal; lia.
Qed.

Lemma of_uint_value d : Z.of_N (Pos.of_uint d) = uint_value 0 d.
Proof.
  induction d; simpl; try reflexivity; try assumption;
    rewrite of_uint_acc_value; reflexivity.
Qed.

(** The decimal digits of a natural number. *)
Lemma show_int_uint z :
  0 <= z ->
  exists d, show_int z = NilEmpty.string_of_uint d /\ uint_value 0 d = z /\
            d <> Decimal.Nil.
Proof.
  intros Hz. destruct z as [|p|p]; [| |lia].
  - exists (Decimal.D0 Decimal.Nil). repeat split. discriminate.
  - exists (Pos.to_uint p). split; [reflexivity|].
    pose proof (DecimalPos.Unsigned.of_to p) as H.
    split.
    + rewrite <- of_uint_value, H. reflexivity.
    + intros E. rewrite E in H. discriminate.
Qed.

Lemma show_int_digits z :
  0 <= z -> all is_digit (show_int z) = true /\ show_int z <> "".
Proof.
  intros Hz. destruct (show_int_uint z Hz) as (d & -> & _ & Hd).
  split; [apply all_digit_uint|]. destruct d; try discriminate. congruence.
Qed.

Lemma of_Q_ext z p q : (p == q)%Q -> of_Q z p = of_Q z q.
Proof.
  intros H. unfold of_Q.
  assert (E : Qeq_bool p 0 = Qeq_bool q 0).
  { destruct (Qeq_bool q 0) eqn:Eq.
    - apply Qeq_bool_iff. rewrite H. now apply Qeq_bool_iff.
    - destruct (Qeq_bool p 0) eqn:Ep; [|reflexivity].
      apply Qeq_bool_iff in Ep. rewrite H in Ep. apply Qeq_bool_iff in Ep. congruence. }
  rewrite E. destruct (Qeq_bool q 0); [reflexivity|].
  now apply RoundFacts.round_ext.
Qed.

(** [parseFloat] reads the decimal digits of a natural number back. *)
Lemma parseFloat_show_int z : 0 <= z -> parseFloat (show_int z) = of_Z z.
Proof.
  intros Hz. destruct (show_int_uint z Hz) as (d & -> & Hv & Hd).
  assert (Hdig : digits 0 0 (NilEmpty.string_of_uint d)
                 = (z, len (NilEmpty.string_of_uint d), "")).
  { rewrite <- (app_nil_r (NilEmpty.string_of_uint d)) at 1.
    rewrite digits_uint by exact I. now rewrite Hv. }
  unfold parseFloat.
  destruct d; try congruence; simpl in Hdig |- *; rewrite Hdig; simpl;
    unfold of_Z; apply of_Q_ext; ring.
Qed.

(** *** The attributes of the root tag *)

Lemma digit_range c k : digit c = Some k -> (48 <= nat_of_ascii c <= 57)%nat.
Proof.
  unfold digit.
  destruct (48 <=? nat_of_ascii c)%nat eqn:E1; [|discriminate].
  destruct (nat_of_ascii c <=? 57)%nat eqn:E2; [|discriminate].
  intros _. apply Nat.leb_le in E1, E2. lia.
Qed.

Lemma is_digit_range c : is_digit c = true -> (48 <= nat_of_ascii c <= 57)%nat.
Proof.
  unfold is_digit. destruct (digit c) as [k|] eqn:E; [|discriminate].
  intros _. eapply digit_range; eassumption.
Qed.

(** A digit is none of the characters the scans below look for. *)
Lemma is_digit_other c x :
  is_digit c = true -> (nat_of_ascii x < 48 \/ 57 < nat_of_ascii x)%nat ->
  Ascii.eqb x c = false.
Proof.
  intros Hc Hx. apply is_digit_range in Hc. apply Ascii.eqb_neq.
  intros ->. lia.
Qed.

Lemma is_digit_not_space c : is_digit c = true -> space c = false.
Proof.
  intros Hc. apply is_digit_range in Hc. unfold space.
  repeat match goal with
         | |- context [(?a <=? ?b)%nat] => destruct (Nat.leb_spec a b)
         | |- context [(?a =? ?b)%nat] => destruct (Nat.eqb_spec a b)
         end; simpl; try reflexivity; lia.
Qed.

Lemma run_lit {R} p : forall s cap (k : string -> option string -> option R),
  run (lit p) s cap k = if startsWith p s then k (drop (len p) s) cap else None.
Proof.
  induction p as [|a p IH]; intros s cap k; [reflexivity|].
  destruct p as [|a2 p].
  - destruct s as [|b s]; simpl; [reflexivity|].
    unfold only. rewrite andb_true_r. destruct (Ascii.eqb a b); reflexivity.
  - change (lit (String a (String a2 p)))
      with (Seq (Chr (only a)) (lit (String a2 p))).
    destruct s as [|b s]; [reflexivity|].
    cbn [run startsWith]. unfold only at 1.
    destruct (Ascii.eqb a b); [|reflexivity].
    rewrite IH. reflexivity.
Qed.

(** The match of [re_attribute] at the head of a text, in closed form. *)
Lemma match_at_attribute name s :
  match_at (re_attribute name) s =
  let p := " " +:+ name +:+ "=" +:+ dq in
  if startsWith p s then
    match span (except "034") (drop (len p) s) with
    | (v, String _ _) => Some ((len p + len v + 1)%nat, Some v)
    | (_, EmptyString) => None
    end
  else None.
Proof.
  unfold match_at, re_attribute.
  change (seq [lit (" " +:+ name +:+ "=" +:+ dq); Grp (Star true (except "034"));
               Chr (only "034")])
    with (Seq (lit (" " +:+ name +:+ "=" +:+ dq))
              (Seq (Grp (Star true (except "034"))) (Chr (only "034")))).
  cbn [run]. rewrite run_lit. cbv zeta.
  set (p := " " +:+ name +:+ "=" +:+ dq).
  destruct (startsWith p s) eqn:Ep; [|reflexivity].
  assert (Hs : s = take (len p) s +:+ drop (len p) s) by now rewrite take_drop.
  assert (Hl : (len p <= len s)%nat).
  { clear -Ep. revert s Ep. induction p as [|a p IH]; intros [|b s]; simpl;
      try discriminate; try lia.
    intros H. apply andb_true_iff in H as [_ H]. specialize (IH _ H). lia. }
  set (t := drop (len p) s) in *.
  rewrite star_greedy_span.
  - destruct (span (except "034") t) as [v rest] eqn:Es. cbn [snd].
    destruct rest as [|q rest]; [reflexivity|].
    apply span_spec in Es as (Ht & Hv & Hq).
    unfold only. unfold except in Hq. apply negb_false_iff in Hq. rewrite Hq.
    f_equal. f_equal.
    + rewrite Hs at 1. rewrite len_app, len_take by assumption.
      rewrite Ht, len_app. simpl. lia.
    + f_equal. rewrite Ht, len_app.
      replace (len v + len (String q rest) - len rest)%nat
        with (len v + 1)%nat by (simpl; lia).
      replace (len v + 1 - 1)%nat with (len v) by lia.
      replace (len v + len (String q rest) - len (String q rest))%nat
        with (len v) by lia.
      apply take_app.
  - reflexivity.
  - intros b u Hb. unfold only. unfold except in Hb.
    apply negb_true_iff in Hb. now rewrite Hb.
Qed.

Lemma search_step r pre c s :
  match_at r (String c s) = None ->
  search_from r pre (String c s) = search_from r (String c pre) s.
Proof. intros H. simpl. now rewrite H. Qed.

Lemma search_digits name sw : forall pre s,
  all is_digit sw = true ->
  search_from (re_attribute name) pre (sw +:+ s)
  = search_from (re_attribute name) (rev_onto pre sw) s.
Proof.
  induction sw as [|c sw IH]; intros pre s Hd; [reflexivity|].
  simpl in Hd. apply andb_true_iff in Hd as [Hc Hd].
  change (String c sw +:+ s) with (String c (sw +:+ s)).
  rewrite search_step; [now apply IH|].
  rewrite match_at_attribute. cbv zeta.
  change (startsWith (" " +:+ name +:+ "=" +:+ dq) (String c (sw +:+ s)))
    with (Ascii.eqb " " c && startsWith (name +:+ "=" +:+ dq) (sw +:+ s)).
  rewrite (is_digit_other c " " Hc); [reflexivity | left; apply Nat.ltb_lt; reflexivity].
Qed.

Lemma all_app p a b : all p (a +:+ b) = all p a && all p b.
Proof. induction a as [|c a IH]; simpl; [reflexivity | now rewrite IH, andb_assoc]. Qed.

Lemma all_digit_no_quote v : all is_digit v = true -> all (except "034") v = true.
Proof.
  induction v as [|c v IH]; simpl; [reflexivity|].
  intros H. apply andb_true_iff in H as [Hc Hv]. rewrite IH by assumption.
  unfold except. rewrite (is_digit_other c "034" Hc); [reflexivity | left; apply Nat.ltb_lt; reflexivity].
Qed.

Lemma attribute_found name pre v rest s :
  s = (" " +:+ name +:+ "=" +:+ dq) +:+ v +:+ String "034" rest ->
  all (except "034") v = true ->
  match search_from (re_attribute name) pre s with
  | Some f => group1 f
  | None => None
  end = Some v.
Proof.
  intros -> Hv.
  rewrite (search_from_here _ _ _
             (len (" " +:+ name +:+ "=" +:+ dq) + len v + 1)%nat (Some v));
    [reflexivity|].
  rewrite match_at_attribute. cbv zeta.
  assert (Hp : forall p t, startsWith p (p +:+ t) = true).
  { induction p as [|a p IH]; intros t; simpl; [reflexivity|].
    now rewrite Ascii.eqb_refl, IH. }
  rewrite Hp, drop_app, span_app by (assumption || reflexivity).
  reflexivity.
Qed.

(** The step of the scan for the end of the root tag over digits. *)
Lemma root_tag_digits sw s :
  all is_digit sw = true -> root_tag (sw +:+ s) = sw +:+ root_tag s.
Proof.
  induction sw as [|c sw IH]; simpl; [reflexivity|].
  intros H. apply andb_true_iff in H as [Hc Hd].
  rewrite Ascii.eqb_sym, (is_digit_other c ">" Hc), IH;
    [reflexivity | assumption | right; apply Nat.ltb_lt; reflexivity].
Qed.

Ltac scan_attribute :=
  unfold attribute, exec, tag_of, attr;
  rewrite !app_assoc; unfold dq; simpl String.append;
  repeat first
    [ rewrite search_step by (rewrite match_at_attribute; reflexivity)
    | rewrite search_digits by assumption ];
  eapply attribute_found;
    [simpl String.append; rewrite ?app_assoc; simpl String.append; reflexivity|].

(** The attributes of the root tag hold the texts of the width and the
    height. *)
Lemma attributes_of_tag sw sh :
  all is_digit sw = true -> all is_digit sh = true ->
  attribute "width" (tag_of sw sh) = Some sw /\
  attribute "height" (tag_of sw sh) = Some sh /\
  attribute "viewBox" (tag_of sw sh) = Some ("0 0 " +:+ sw +:+ " " +:+ sh).
Proof.
  intros Hw Hh. split; [|split].
  - scan_attribute. now apply all_digit_no_quote.
  - scan_attribute. now apply all_digit_no_quote.
  - scan_attribute.
    cbn [all]. rewrite all_app. cbn [all].
    rewrite !all_digit_no_quote by assumption. reflexivity.
Qed.

(** The numbers of the view box, read the way [extractViewBox] reads
    them. *)
Lemma star_greedy_total {R} p (k : string -> option R) :
  (forall s, k s <> None) -> forall s, star_greedy p k s = k (snd (span p s)).
Proof.
  intros Hk. induction s as [|c s IH]; simpl; [reflexivity|].
  destruct (p c); [|reflexivity].
  rewrite IH. destruct (span p s) as [v rest]. simpl.
  destruct (k rest) eqn:E; [reflexivity | now apply Hk in E].
Qed.

Lemma match_at_spaces s :
  match_at (plus true space) s =
  match span space s with
  | (String c v, _) => Some (len (String c v), None)
  | (EmptyString, _) => None
  end.
Proof.
  unfold match_at, plus. cbn [run].
  destruct s as [|c s]; [reflexivity|]. cbn [span].
  destruct (space c); [|reflexivity].
  rewrite star_greedy_total by discriminate.
  destruct (span space s) as [v rest] eqn:E. cbn [snd].
  apply span_spec in E as (-> & _ & _). f_equal. f_equal.
  change (String c (v +:+ rest)) with (String c v +:+ rest).
  rewrite len_app. lia.
Qed.

Lemma split_step c cur s :
  space c = false ->
  split_from (plus true space) 0 cur (String c s)
  = split_from (plus true space) 0 (String c cur) s.
Proof.
  intros Hc. cbn [split_from]. rewrite match_at_spaces. cbn [span].
  now rewrite Hc.
Qed.

Lemma split_digits sw : forall cur s,
  all is_digit sw = true ->
  split_from (plus true space) 0 cur (sw +:+ s)
  = split_from (plus true space) 0 (rev_onto cur sw) s.
Proof.
  induction sw as [|c sw IH]; intros cur s Hd; [reflexivity|].
  simpl in Hd. apply andb_true_iff in Hd as [Hc Hd].
  change (String c sw +:+ s) with (String c (sw +:+ s)).
  rewrite split_step by now apply is_digit_not_space.
  now apply IH.
Qed.

(** One space before a character that is none ends a piece. *)
Lemma split_space cur c s :
  space c = false ->
  split_from (plus true space) 0 cur (String " " (String c s))
  = rev cur :: split_from (plus true space) 0 "" (String c s).
Proof.
  intros Hc. cbn [split_from]. rewrite match_at_spaces. cbn [span].
  change (space " ") with true. cbv iota. rewrite Hc. reflexivity.
Qed.

Lemma split_viewBox sw sh :
  all is_digit sw = true -> sw <> "" ->
  all is_digit sh = true -> sh <> "" ->
  split (plus true space) ("0 0 " +:+ sw +:+ " " +:+ sh) = ["0"; "0"; sw; sh].
Proof.
  intros Hw Hw0 Hh Hh0.
  destruct sw as [|a sw]; [congruence|]. destruct sh as [|b sh]; [congruence|].
  assert (Ha : space a = false)
    by (simpl in Hw; apply andb_true_iff in Hw as [Hw _]; now apply is_digit_not_space).
  assert (Hb : space b = false)
    by (simpl in Hh; apply andb_true_iff in Hh as [Hh _]; now apply is_digit_not_space).
  unfold split. simpl String.append.
  rewrite split_step by reflexivity. rewrite split_space by reflexivity.
  rewrite split_step by reflexivity. rewrite split_space by assumption.
  change (String a (sw +:+ String " " (String b sh)))
    with (String a sw +:+ String " " (String b sh)).
  rewrite split_digits by assumption. rewrite split_space by assumption.
  rewrite <- (app_nil_r (String b sh)) at 1.
  rewrite split_digits by assumption.
  cbn [split_from]. rewrite !rev_onto_app, !app_nil_r.
  fold (rev (rev (String a sw))). fold (rev (rev (String b sh))).
  rewrite !rev_rev. reflexivity.
Qed.


End RootFacts.

Module C2.
Import Str RegExp ViewBox JsNum Doc IO Layout Sort Catalog CatalogFacts.
Import RootSpec RootFacts.

Section Script.
Context {P : Platform}.

Lemma show_natural z : 0 <= z < 10 ^ 21 -> show z = show_int z.
Proof.
  intros Hz. unfold show.
  assert (Hb : (Z.abs z <? 10 ^ 21) = true) by (apply Z.ltb_lt; lia).
  now rewrite Hb.
Qed.

Lemma rows_of_nonneg n : 0 <= rows_of n.
Proof.
  unfold rows_of. change 0 with (Qceiling 0). apply Qceiling_resp_le.
  unfold Qle. simpl. lia.
Qed.

Lemma foldM_y_grows categories : forall y chunks w y' chunks' w',
  foldM category_step (y, chunks) categories w = (Return (y', chunks'), w') ->
  y <= y'.
Proof.
  induction categories as [|c cs IH]; intros y chunks w y' chunks' w'; simpl.
  - intros [= <- _ _]. lia.
  - intros H. apply bind_Return in H as ([y1 chunks1] & w1 & Hs & H).
    apply IH in H.
    apply category_step_Return in Hs as (entries & blocks & _ & _ & _ & ->).
    pose proof (rows_of_nonneg (length (list_files entries))).
    unfold titleHeight, blockHeight, thumbHeight, labelHeight, categoryGap in *.
    lia.
Qed.

Lemma root_tag_render d :
  0 <= doc_width d < 10 ^ 21 -> 0 <= doc_height d < 10 ^ 21 ->
  root_tag (render d) = tag_of (show_int (doc_width d)) (show_int (doc_height d)).
Proof.
  intros Hw Hh. unfold render, render_root_tag.
  rewrite !show_natural by assumption.
  destruct (show_int_digits _ (proj1 Hw)) as [Dw _].
  destruct (show_int_digits _ (proj1 Hh)) as [Dh _].
  generalize dependent (show_int (doc_width d)).
  generalize dependent (show_int (doc_height d)).
  intros sh Dh sw Dw. unfold tag_of, attr.
  rewrite !StrFacts.app_assoc. unfold dq. simpl String.append.
  cbn [root_tag Ascii.eqb Bool.eqb]. rewrite root_tag_digits by assumption.
  cbn [root_tag Ascii.eqb Bool.eqb]. rewrite root_tag_digits by assumption.
  cbn [root_tag Ascii.eqb Bool.eqb]. rewrite root_tag_digits by assumption.
  cbn [root_tag Ascii.eqb Bool.eqb]. rewrite root_tag_digits by assumption.
  reflexivity.
Qed.

End Script.

(** C2: when [main] gets to build the document, its width is
    [2 * padding + cols * colWidth] and its height is the final [y] plus
    [padding]; the root tag of its text holds a [width], a [height] and a
    [viewBox] attribute, the view box reads as four numbers, 0, 0 and the
    numbers the [width] and the [height] read as, and these are the width
    and the height of the document.  (An integer is printed in plain
    decimal below 1e21, which bounds the height here.) *)
Theorem root_size_matches_viewBox {P : Platform} (w : world) (d : document)
    (w' : world) :
  build w = (Return d, w') ->
  doc_height d < 10 ^ 21 ->
  (exists categories y,
     scan_categories w = (Return categories, w) /\
     foldM category_step (padding, []) categories w
       = (Return (y, doc_chunks d), w) /\
     doc_height d = y + padding) /\
  doc_width d = 2 * padding + cols * colWidth /\
  exists sw sh sv,
    attribute "width" (root_tag (render d)) = Some sw /\
    attribute "height" (root_tag (render d)) = Some sh /\
    attribute "viewBox" (root_tag (render d)) = Some sv /\
    map parseFloat (split (plus true space) sv)
      = [of_Z 0; of_Z 0; parseFloat sw; parseFloat sh] /\
    parseFloat sw = of_Z (doc_width d) /\
    parseFloat sh = of_Z (doc_height d).
Proof.
  unfold build. intros H Hbound.
  apply bind_Return in H as (cats & w1 & Hc & H).
  pose proof (pure_scan_categories _ _ _ Hc) as ->.
  apply bind_Return in H as ([y chunks] & w2 & Hf & H).
  pose proof (pure_foldM _ _ pure_category_step _ _ _ _ Hf) as ->.
  pose proof (foldM_y_grows _ _ _ _ _ _ _ Hf) as Hy.
  injection H as <- _. cbn [doc_width doc_height doc_chunks] in *.
  split; [exists cats, y; auto|]. split; [reflexivity|].
  set (d := {| doc_width := padding * 2 + cols * colWidth;
               doc_height := y + padding; doc_chunks := chunks |}).
  assert (Hw : 0 <= doc_width d < 10 ^ 21) by (vm_compute; split; congruence).
  assert (Hh : 0 <= doc_height d < 10 ^ 21)
    by (cbn [d doc_height]; unfold padding in *; lia).
  rewrite (root_tag_render d Hw Hh).
  destruct (show_int_digits _ (proj1 Hw)) as [Dw Nw].
  destruct (show_int_digits _ (proj1 Hh)) as [Dh Nh].
  destruct (attributes_of_tag _ _ Dw Dh) as (Aw & Ah & Av).
  exists (show_int (doc_width d)), (show_int (doc_height d)),
         ("0 0 " +:+ show_int (doc_width d) +:+ " " +:+ show_int (doc_height d)).
  repeat (split; [assumption|]).
  split; [now rewrite split_viewBox|].
  split; apply parseFloat_show_int; [apply Hw | apply Hh].
Qed.

Lemma root_size_matches_viewBox_witness :
  exists d sw sh sv,
    build (P := Example.platform) Example.scenario_world
      = (Return d, Example.scenario_world) /\
    doc_width d = 1048 /\ doc_height d = 696 /\
    attribute "width" (root_tag (render (P := Example.platform) d)) = Some sw /\
    attribute "height" (root_tag (render (P := Example.platform) d)) = Some sh /\
    attribute "viewBox" (root_tag (render (P := Example.platform) d)) = Some sv /\
    map parseFloat (split (plus true space) sv)
      = [of_Z 0; of_Z 0; parseFloat sw; parseFloat sh] /\
    parseFloat sw = of_Z 1048 /\ parseFloat sh = of_Z 696.
Proof.
  set (d := match fst (build (P := Example.platform) Example.scenario_world)
             with
             | Return d => d
             | Throw _ => {| doc_width := 0; doc_height := 0; doc_chunks := [] |}
             end).
  assert (Hb : build (P := Example.platform) Example.scenario_world
               = (Return d, Example.scenario_world))
    by (vm_compute; reflexivity).
  assert (Hw : doc_width d = 1048) by (vm_compute; reflexivity).
  assert (Hh : doc_height d = 696) by (vm_compute; reflexivity).
  destruct (root_size_matches_viewBox (P := Example.platform)
              Example.scenario_world d Example.scenario_world Hb)
    as (_ & _ & sw & sh & sv & Aw & Ah & Av & Hs & Pw & Ph).
  - rewrite Hh. reflexivity.
  - exists d, sw, sh, sv. rewrite Hw in Pw. rewrite Hh in Ph. auto 10.
Defined.

End C2.

Module C10.
Import Str JsNum ViewBox ViewBoxFacts Sanitizer Doc IO Layout Sort Catalog CatalogFacts.

(** C10: the block of a fragment takes its scale and translation from the
    view box of the raw text and its inner markup from the sanitized text;
    every block the loop pushes is such a block of the raw text of a file;
    the view box of a raw text is that of the first attribute anywhere in
    it, also one inside a comment, a metadata block or an editor element,
    which the sanitized text no longer holds. *)
Theorem viewBox_of_raw_inner_of_sanitized {P : Platform} :
  (forall y idx file raw,
     block_of y idx file raw =
       Block (cell_x idx) (cell_y y idx) (fit_of (extractViewBox raw))
             (extractInner (sanitize (stripProlog raw))) (basename_svg file)) /\
  (forall y chunks category w y' chunks' w',
     category_step (y, chunks) category w = (Return (y', chunks'), w') ->
     exists blocks,
       chunks' = (chunks ++ Title y category :: blocks)%list /\
       Forall (fun b => exists idx file raw,
                 fs w !! join (join svgRoot category) file = Some (File raw) /\
                 b = block_of (y + titleHeight) idx file raw) blocks) /\
  (forall raw pre v post,
     viewBox_at raw pre v post ->
     (forall pre' v' post',
        viewBox_at raw pre' v' post' -> (len pre <= len pre')%nat) ->
     extractViewBox raw = parse_viewBox v) /\
  Forall (fun raw =>
            extractViewBox raw = parse_viewBox "0 0 10 10" /\
            extractViewBox (sanitize (stripProlog raw))
              = parse_viewBox "0 0 100 100" /\
            block_of 46 0 "left.svg" raw =
              Block 24 46
                {| scale := Fin (2308094809027379 # 140737488355328);
                   tx := Fin 8; ty := Fin 30 |}
                "<path/>" "left")
         [Example.commented_svg; Example.metadata_svg; Example.editor_svg].
Proof.
  split; [reflexivity|]. split; [|split].
  - intros y chunks category w y' chunks' w' H.
    apply category_step_Return in H as (entries & blocks & _ & -> & Hb & _).
    exists blocks. split; [reflexivity|].
    revert Hb. generalize (list_files entries) 0%nat. clear.
    intros files. revert blocks.
    induction files as [|f files IH]; intros blocks n Hb; simpl in Hb;
      inversion Hb as [|p b ps bs Hhead Hrest]; subst; constructor.
    + simpl in Hhead. destruct Hhead as (raw & Hraw & ->). eauto.
    + eapply IH; eassumption.
  - intros raw pre v post. apply extractViewBox_first.
  - repeat constructor; vm_compute; reflexivity.
Qed.

Lemma viewBox_of_raw_inner_of_sanitized_witness :
  extractViewBox Example.commented_svg = parse_viewBox "0 0 10 10".
Proof.
  apply (proj1 (proj2 (proj2 (viewBox_of_raw_inner_of_sanitized
                                (P := Example.platform))))
           Example.commented_svg "<!-- " "0 0 10 10"
           (" -->" +:+ Example.fragment "0 0 100 100")).
  - exists viewBox_eq. repeat split. discriminate.
  - intros pre' v' post' H. apply viewBox_at_match in H.
    destruct (len pre') as [|[|[|[|[|k]]]]]; try (vm_compute in H; discriminate).
    simpl. lia.
Defined.

End C10.

(** ** The raster export *)
Module RasterFacts.
Import Str StrFacts RegExp RegExpFacts ViewBoxFacts Doc IO Catalog CatalogFacts.

(** [re_svg_ext] matches a text that is [.svg], in any case, and nothing
    longer. *)
Lemma match_at_svg_ext t :
  match_at re_svg_ext t =
  if prefix_i ".svg" t && (len t =? 4)%nat then Some (4%nat, None) else None.
Proof.
  unfold match_at, re_svg_ext.
  change (seq [lit_i ".svg"; Eos]) with (Seq (lit_i ".svg") Eos).
  cbn [run]. rewrite run_lit_i.
  destruct (prefix_i ".svg" t) eqn:E; [|reflexivity].
  change (len ".svg") with 4%nat.
  destruct t as [|c1 [|c2 [|c3 [|c4 [|c5 t]]]]]; simpl in E;
    rewrite ?andb_false_r in E; try discriminate; reflexivity.
Qed.

(** The path of the PNG: [catalog.svg] with its extension replaced. *)
Lemma pngPath_eq (root : string) :
  replace_first re_svg_ext ".png" (join root "catalog.svg")
  = join root "catalog.png".
Proof.
  unfold replace_first, exec, join.
  change (root +:+ "/" +:+ "catalog.svg")
    with (root +:+ "/catalog" +:+ ".svg").
  rewrite <- app_assoc, search_from_skip.
  - rewrite (search_from_here _ _ _ 4%nat None) by reflexivity.
    cbn [before after]. fold (rev (root +:+ "/catalog")).
    rewrite rev_rev, app_assoc. reflexivity.
  - intros a1 a2 _ Hne. rewrite match_at_svg_ext.
    replace (len (a2 +:+ ".svg") =? 4)%nat with false; [now rewrite andb_false_r|].
    symmetry. apply Nat.eqb_neq. rewrite len_app.
    destruct a2; [congruence | simpl; lia].
Qed.

Lemma join_inj_name root a b : join root a = join root b -> a = b.
Proof.
  unfold join. induction root as [|c root IH]; simpl; intros H.
  - now injection H.
  - injection H as H. auto.
Qed.

Section Script.
Context {P : Platform}.

(** An attempt that throws has changed nothing. *)
Lemma png_attempt_Throw sharp svgPath pngPath w e w1 :
  png_attempt sharp svgPath pngPath w = (Throw e, w1) -> w1 = w.
Proof.
  unfold png_attempt. destruct sharp as [convert|]; [|now intros [= _ <-]].
  unfold bind at 1.
  destruct (readFileSync svgPath w) as [[buf|e'] w0] eqn:Er;
    apply pure_readFileSync in Er as ->; [|now intros [= _ <-]].
  destruct (convert buf) as [png|]; [|now intros [= _ <-]].
  unfold bind.
  destruct (writeFileSync pngPath png w) as [[[]|e'] w0] eqn:Ew.
  - discriminate.
  - intros [= _ <-]. unfold writeFileSync in Ew.
    destruct (fs w !! pngPath) as [[c|es]|]; try (now injection Ew).
    destruct (split_path pngPath) as [[dir name]|]; [|now injection Ew].
    destruct (fs w !! dir) as [[c|es]|]; now injection Ew.
Qed.

(** [tryWritePng] returns, whatever the engine does. *)
Lemma tryWritePng_returns sharp svgPath pngPath w :
  exists w1, tryWritePng sharp svgPath pngPath w = (Return tt, w1).
Proof.
  unfold tryWritePng, try_catch.
  destruct (png_attempt sharp svgPath pngPath w) as [[[]|e] w1]; eauto.
Qed.

Lemma main_split sharp w :
  main sharp w =
  match write_catalog w with
  | (Return d, w1) => tryWritePng sharp outputPath (join svgRoot "catalog.png") w1
  | (Throw e, w1) => (Throw e, w1)
  end.
Proof.
  unfold main, write_catalog, outputPath. rewrite pngPath_eq. unfold bind.
  destruct (build w) as [[d|e] w1]; [|reflexivity].
  destruct (writeFileSync _ _ w1) as [[[]|e] w2]; reflexivity.
Qed.

Lemma write_catalog_Return w d w1 :
  write_catalog w = (Return d, w1) ->
  build w = (Return d, w) /\
  fs w1 !! outputPath = Some (File (render d)) /\
  console w1 = (console w ++ [(Log, "Wrote " +:+ outputPath)])%list.
Proof.
  unfold write_catalog. intros H.
  apply bind_Return in H as (d' & w0 & Hb & H).
  pose proof (pure_build _ _ _ Hb) as ->.
  apply bind_Return in H as ([] & w2 & Hw & H). injection H as -> ->.
  apply bind_Return in Hw as ([] & w3 & Hw & Hp).
  unfold print in Hp. injection Hp as <-. cbn [fs console].
  split; [assumption|].
  unfold writeFileSync in Hw.
  destruct (fs w !! outputPath) as [[c|es]|]; try discriminate.
  - injection Hw as <-. cbn [fs console]. now rewrite lookup_insert_eq.
  - destruct (split_path outputPath) as [[dir name]|]; [|discriminate].
    destruct (fs w !! dir) as [[c|es]|]; try discriminate.
    injection Hw as <-. cbn [fs console]. now rewrite lookup_insert_eq.
Qed.

End Script.
End RasterFacts.

Module C7.
Import Str Doc IO Catalog CatalogFacts RasterFacts.

(** C7: when the attempt to write the PNG throws, [tryWritePng] returns
    normally with the world as it was but for one warning, which names
    the path of the PNG that was skipped; the attempt throws when the engine is absent or its
    conversion throws.  In a run that wrote the composite document, such a
    failure leaves the exit code 0 and the file with the text that was
    written; and the exit code of a run never depends on the engine: it is 0
    exactly when the document was built and written. *)
Theorem raster_failure_is_harmless {P : Platform}
    (sharp : option (string -> option string)) :
  (forall svgPath pngPath w e w1,
     png_attempt sharp svgPath pngPath w = (Throw e, w1) ->
     tryWritePng sharp svgPath pngPath w
       = (Return tt,
          {| fs := fs w;
             console := (console w ++ [(Warn, "Skipping PNG output for " +:+ pngPath
                    +:+ ". Install sharp to enable PNG export (pnpm add -D sharp).")])%list |})) /\
  (forall svgPath pngPath w content,
     fs w !! svgPath = Some (File content) ->
     raster_fails sharp content ->
     exists e, png_attempt sharp svgPath pngPath w = (Throw e, w)) /\
  (forall w d w1,
     write_catalog w = (Return d, w1) ->
     raster_fails sharp (render d) ->
     script sharp w
       = (0, {| fs := fs w1;
                console := (console w
                            ++ [(Log, "Wrote " +:+ outputPath);
                                (Warn, "Skipping PNG output for "
                                       +:+ join svgRoot "catalog.png"
                                       +:+ ". Install sharp to enable PNG export (pnpm add -D sharp).")])%list |}) /\
     fs w1 !! outputPath = Some (File (render d))) /\
  (forall w, fst (script sharp w) = fst (script None w)) /\
  (forall w, fst (script sharp w) = 0 <->
             exists d w1, write_catalog w = (Return d, w1)).
Proof.
  assert (Hthrow : forall svgPath pngPath w e w1,
     png_attempt sharp svgPath pngPath w = (Throw e, w1) ->
     tryWritePng sharp svgPath pngPath w
       = (Return tt,
          {| fs := fs w;
             console := (console w ++ [(Warn, skip_message pngPath)])%list |})).
  { intros svgPath pngPath w e w1 H.
    pose proof (png_attempt_Throw _ _ _ _ _ _ H) as ->.
    unfold tryWritePng, try_catch. rewrite H. reflexivity. }
  assert (Hfails : forall svgPath pngPath w content,
     fs w !! svgPath = Some (File content) ->
     raster_fails sharp content ->
     exists e, png_attempt sharp svgPath pngPath w = (Throw e, w)).
  { intros svgPath pngPath w content Hc Hf. unfold png_attempt.
    destruct sharp as [convert|]; [|eexists; reflexivity].
    simpl in Hf. unfold bind, readFileSync. rewrite Hc, Hf.
    eexists; reflexivity. }
  assert (Hcode : forall sh w,
     fst (script sh w) = match write_catalog w with
                         | (Return _, _) => 0
                         | (Throw _, _) => 1
                         end).
  { intros sh w. unfold script. rewrite main_split.
    destruct (write_catalog w) as [[d|e] w1]; [|reflexivity].
    destruct (tryWritePng_returns sh outputPath (join svgRoot "catalog.png") w1)
      as (w2 & ->). reflexivity. }
  split; [exact Hthrow|]. split; [exact Hfails|]. split; [|split].
  - intros w d w1 Hw Hf.
    destruct (write_catalog_Return _ _ _ Hw) as (_ & Hfile & Hcon).
    split; [|assumption].
    destruct (Hfails outputPath (join svgRoot "catalog.png") w1 _ Hfile Hf)
      as (e & He).
    unfold script. rewrite main_split, Hw, (Hthrow _ _ _ _ _ He), Hcon.
    rewrite <- List.app_assoc. reflexivity.
  - intros w. now rewrite !Hcode.
  - intros w. rewrite Hcode.
    destruct (write_catalog w) as [[d|e] w1]; split; eauto; try discriminate.
    intros (d & w2 & [=]).
Qed.

Lemma raster_failure_is_harmless_witness :
  fst (script (P := Example.platform) None Example.scenario_world) = 0 /\
  exists d,
    fs (snd (script (P := Example.platform) None Example.scenario_world))
      !! "/facesjs/svgs/catalog.svg"
      = Some (File (render (P := Example.platform) d)) /\
    console (snd (script (P := Example.platform) None Example.scenario_world))
      = [(Log, "Wrote /facesjs/svgs/catalog.svg");
         (Warn, "Skipping PNG output for /facesjs/svgs/catalog.png. Install sharp to enable PNG export (pnpm add -D sharp).")].
Proof.
  edestruct (proj1 (proj2 (proj2 (raster_failure_is_harmless
                                    (P := Example.platform) None)))
               Example.scenario_world) as [Hs Hf];
    [vm_compute; reflexivity | exact I |].
  rewrite Hs. split; [reflexivity|].
  eexists. split; [exact Hf | reflexivity].
Defined.

End C7.

(** ** The copy of a face and its tree *)
Module FaceFacts.
Import Face.
Export FaceSpec.

(** A store that agrees on the objects of the tree holds the tree too. *)
Lemma repr_frame_both h h' :
  (forall v t F, repr h v t F ->
     (forall l, l ∈ F -> h' !! l = h !! l) -> repr h' v t F) /\
  (forall o fs F, repr_fields h o fs F ->
     (forall l, l ∈ F -> h' !! l = h !! l) -> repr_fields h' o fs F).
Proof.
  apply repr_both.
  - intros p _. constructor.
  - intros l o fs F Hl _ IH Hn Hag. apply (repr_node _ _ o); [|apply IH|assumption].
    + rewrite Hag; [assumption | set_solver].
    + intros l' Hl'. apply Hag. set_solver.
  - intros _. constructor.
  - intros k v t o fs F1 F2 _ IH1 _ IH2 Hd Hag. constructor; [apply IH1|apply IH2|assumption];
      intros l Hl; apply Hag; set_solver.
Qed.

Lemma repr_frame h h' v t F :
  repr h v t F -> (forall l, l ∈ F -> h' !! l = h !! l) -> repr h' v t F.
Proof. apply repr_frame_both. Qed.

Lemma repr_fields_frame h h' o fs F :
  repr_fields h o fs F -> (forall l, l ∈ F -> h' !! l = h !! l) ->
  repr_fields h' o fs F.
Proof. apply repr_frame_both. Qed.

Lemma repr_dom_both h :
  (forall v t F, repr h v t F -> F ⊆ dom h) /\
  (forall o fs F, repr_fields h o fs F -> F ⊆ dom h).
Proof.
  apply repr_both.
  - set_solver.
  - intros l o fs F Hl _ IH _. apply elem_of_dom_2 in Hl. set_solver.
  - set_solver.
  - intros. set_solver.
Qed.

(** *** Building a tree *)

Lemma alloc_repr_both :
  (forall t h v h', alloc t h = (v, h') ->
     h ⊆ h' /\ exists F, repr h' v t F /\ F ## dom h) /\
  (forall fs h o h', alloc_fields fs h = (o, h') ->
     h ⊆ h' /\ exists F, repr_fields h' o fs F /\ F ## dom h).
Proof.
  apply tree_both.
  - intros p h v h' [= <- <-]. split; [reflexivity|]. exists ∅. split; [constructor | set_solver].
  - intros fs IH h v h'. simpl.
    destruct (alloc_fields fs h) as [o h1] eqn:E. intros [= <- <-].
    destruct (IH _ _ _ E) as (Hsub & F & Hr & Hd).
    pose proof (is_fresh (dom h1)) as Hfresh.
    pose proof (proj2 (repr_dom_both h1) _ _ _ Hr) as HF.
    assert (Hnone : h1 !! fresh (dom h1) = None) by now apply not_elem_of_dom.
    split; [etrans; [exact Hsub | now apply insert_subseteq]|].
    exists ({[fresh (dom h1)]} ∪ F). split.
    + apply (repr_node _ _ o); [apply lookup_insert_eq | | set_solver].
      eapply repr_fields_frame; [exact Hr|].
      intros l Hl. apply lookup_insert_ne. set_solver.
    + apply subseteq_dom in Hsub. set_solver.
  - intros h o h' [= <- <-]. split; [reflexivity|]. exists ∅. split; [constructor | set_solver].
  - intros k t IHt rest IHr h o h'. simpl.
    destruct (alloc t h) as [v h1] eqn:E1.
    destruct (alloc_fields rest h1) as [o2 h2] eqn:E2. intros [= <- <-].
    destruct (IHt _ _ _ E1) as (S1 & F1 & R1 & D1).
    destruct (IHr _ _ _ E2) as (S2 & F2 & R2 & D2).
    pose proof (proj1 (repr_dom_both h1) _ _ _ R1) as HF1.
    split; [etrans; eassumption|].
    exists (F1 ∪ F2). split.
    + constructor; [|assumption|set_solver].
      eapply repr_frame; [exact R1|]. intros l Hl.
      assert (Hin : l ∈ dom h1) by set_solver.
      apply elem_of_dom in Hin as [x Hx].
      rewrite Hx. eapply lookup_weaken; eassumption.
    + apply subseteq_dom in S1. set_solver.
Qed.

Lemma alloc_repr t h v h' :
  alloc t h = (v, h') -> h ⊆ h' /\ exists F, repr h' v t F /\ F ## dom h.
Proof. apply alloc_repr_both. Qed.

Lemma structural_clone_deep_copy : deep_copy structural_clone.
Proof.
  intros h v t Hread. unfold structural_clone. rewrite Hread.
  destruct (alloc t h) as [v' h'] eqn:Ea.
  destruct (alloc_repr _ _ _ _ Ea) as (Hsub & F & Hr & Hd).
  exists v', h', F. auto.
Qed.

(** *** Reading a tree back *)

Lemma read_fields_ext (rd rd' : val -> option tree) o : forall fs,
  (forall v t, rd v = Some t -> rd' v = Some t) ->
  read_fields rd o = Some fs -> read_fields rd' o = Some fs.
Proof.
  induction o as [|[k v] o IH]; intros fs Hrd; simpl; [auto|].
  destruct (rd v) as [t|] eqn:E; [|discriminate].
  destruct (read_fields rd o) as [ts|] eqn:Eo; [|discriminate].
  intros [= <-]. now rewrite (Hrd _ _ E), (IH _ Hrd eq_refl).
Qed.

Lemma read_mono h n : forall m v t,
  (n <= m)%nat -> read n h v = Some t -> read m h v = Some t.
Proof.
  induction n as [|n IH]; intros m [p|l] t Hle; simpl; try discriminate.
  - intros H. now destruct m.
  - intros H. now destruct m.
  - destruct m as [|m]; [lia|]. simpl.
    destruct (h !! l) as [o|]; [|discriminate].
    destruct (read_fields (read n h) o) as [ts|] eqn:E; [|discriminate].
    intros [= <-].
    rewrite (read_fields_ext _ (read m h) _ _ (fun v t => IH m v t ltac:(lia)) E).
    reflexivity.
Qed.

Lemma read_weaken h h' n : h ⊆ h' -> forall v t,
  read n h v = Some t -> read n h' v = Some t.
Proof.
  intros Hsub. induction n as [|n IH]; intros [p|l] t; simpl; try discriminate; auto.
  destruct (h !! l) as [o|] eqn:E; [|discriminate].
  rewrite (lookup_weaken _ _ _ _ E Hsub).
  destruct (read_fields (read n h) o) as [ts|] eqn:Eo; [|discriminate].
  intros [= <-]. now rewrite (read_fields_ext _ (read n h') _ _ IH Eo).
Qed.

Lemma repr_read_both h :
  (forall v t F, repr h v t F ->
     forall n, (depth t <= n)%nat -> read n h v = Some t) /\
  (forall o fs F, repr_fields h o fs F ->
     forall n, (depth_fields fs <= n)%nat ->
     read_fields (read n h) o = Some fs).
Proof.
  apply repr_both.
  - intros p n _. now destruct n.
  - intros l o fs F Hl _ IH _ n Hn. simpl in Hn.
    destruct n as [|n]; [lia|]. simpl. rewrite Hl, IH by lia. reflexivity.
  - reflexivity.
  - intros k v t o fs F1 F2 _ IH1 _ IH2 _ n Hn. simpl in *.
    rewrite IH1, IH2 by lia. reflexivity.
Qed.

Lemma repr_read h v t F : repr h v t F -> read (depth t) h v = Some t.
Proof. intros H. now apply (proj1 (repr_read_both h) _ _ _ H). Qed.

(** *** A property of the copy and the field of its tree *)

Lemma repr_fields_get h k o fs F :
  repr_fields h o fs F ->
  match tget k fs with
  | Some t => exists F1, repr h (get k o) t F1 /\ F1 ⊆ F
  | None => get k o = Prim PUndefined
  end.
Proof.
  induction 1 as [|k' v t o fs F1 F2 Hv Ho IH Hd]; simpl; [reflexivity|].
  destruct (String.eqb k k').
  - exists F1. split; [assumption | set_solver].
  - destruct (tget k fs) as [t'|]; [|assumption].
    destruct IH as (F' & Hr & Hs). exists F'. split; [assumption | set_solver].
Qed.

(** Setting a primitive property of an object. *)
Lemma repr_fields_set_leaf h k p o fs F :
  repr_fields h o fs F ->
  exists G, repr_fields h (set k (Prim p) o) (tset k (Leaf p) fs) G /\ G ⊆ F.
Proof.
  induction 1 as [|k' v t o fs F1 F2 Hv Ho IH Hd]; simpl.
  - exists (∅ ∪ ∅). split; [repeat constructor; set_solver | set_solver].
  - destruct (String.eqb k k') eqn:E.
    + apply String.eqb_eq in E as <-.
      exists (∅ ∪ F2). split; [constructor; [constructor | assumption | set_solver] | set_solver].
    + destruct IH as (G & Hr & Hs). exists (F1 ∪ G).
      split; [constructor; [assumption | assumption | set_solver] | set_solver].
Qed.

(** Setting the [id] of the object [l] that the first property [k] of [o]
    refers to: the tree changes at the field [k], and nowhere else. *)
Lemma repr_fields_update h k p l target o fs F :
  repr_fields h o fs F ->
  get k o = Ref l ->
  h !! l = Some target ->
  exists sub F',
    tget k fs = Some (Node sub) /\
    repr_fields (<[l := set "id" (Prim p) target]> h) o
      (tset k (Node (tset "id" (Leaf p) sub)) fs) F' /\
    F' ⊆ F /\ l ∈ F.
Proof.
  intros Hr. revert l target.
  induction Hr as [|k' v t o fs F1 F2 Hv Ho IH Hd]; intros l target Hget Hl;
    simpl in *; [discriminate|].
  destruct (String.eqb k k') eqn:E.
  - apply String.eqb_eq in E as <-. subst v.
    inversion Hv as [|l' o' sub F0 Hlook Hsub Hn]; subst.
    rewrite Hl in Hlook. injection Hlook as <-.
    destruct (repr_fields_set_leaf h "id" p _ _ _ Hsub) as (G & HG & HGs).
    exists sub, (({[l]} ∪ G) ∪ F2). split; [reflexivity|].
    split; [|split; set_solver].
    constructor; [| |set_solver].
    + apply (repr_node _ _ (set "id" (Prim p) target));
        [apply lookup_insert_eq | | set_solver].
      eapply repr_fields_frame; [exact HG|].
      intros l0 Hl0. apply lookup_insert_ne. set_solver.
    + eapply repr_fields_frame; [exact Ho|].
      intros l0 Hl0. apply lookup_insert_ne. set_solver.
  - destruct (IH l target Hget Hl) as (sub & F' & Ht & Hr' & Hs' & Hin).
    exists sub, (F1 ∪ F'). split; [assumption|]. split; [|split; set_solver].
    constructor; [|assumption|set_solver].
    eapply repr_frame; [exact Hv|].
    intros l0 Hl0. apply lookup_insert_ne. set_solver.
Qed.

(** One turn of the loop: the store changes the way the tree does, and
    only inside the copy. *)
Lemma replace_one_repr h n fs F entry :
  repr h (Ref n) (Node fs) F ->
  exists F',
    repr (replace_one (Ref n) h entry) (Ref n)
         (Node (replace_one_tree fs entry)) F' /\
    F' ⊆ F /\
    forall l, l ∉ F -> replace_one (Ref n) h entry !! l = h !! l.
Proof.
  intros Hr. destruct entry as [k p]. unfold replace_one, replace_one_tree.
  destruct (negb (truthy_prim p)); [exists F; auto|].
  inversion Hr as [|n' o fs' F0 Hn Hf Hnot]; subst.
  assert (Hcond : forall q, truthy (Prim q) && typeof_object (Prim q) = false)
    by (intros [| |b|x|s]; simpl; auto using andb_false_r).
  unfold get_prop, set_prop. rewrite Hn.
  pose proof (repr_fields_get h k _ _ _ Hf) as Hg.
  destruct (tget k fs) as [t|] eqn:Et.
  - destruct Hg as (F1 & Hv & Hs).
    destruct (get k o) as [q|l] eqn:Eg.
    + inversion Hv; subst. rewrite Hcond. exists ({[n]} ∪ F0). auto.
    + inversion Hv as [|l' target sub Fs Hl Hsub Hls]; subst.
      cbn [truthy typeof_object andb]. rewrite Hl.
      destruct (repr_fields_update h k p l target _ _ _ Hf Eg Hl)
        as (sub2 & F' & Ht & Hr' & Hs' & Hin).
      rewrite Et in Ht. injection Ht as <-.
      exists ({[n]} ∪ F'). split; [|split].
      * apply (repr_node _ _ o); [|assumption|set_solver].
        rewrite lookup_insert_ne; [assumption | set_solver].
      * set_solver.
      * intros l0 Hl0. apply lookup_insert_ne. set_solver.
  - rewrite Hg, Hcond. exists ({[n]} ∪ F0). auto.
Qed.

Lemma replace_all_repr r : forall h n fs F,
  repr h (Ref n) (Node fs) F ->
  exists F',
    repr (fold_left (replace_one (Ref n)) r h) (Ref n)
         (Node (fold_left replace_one_tree r fs)) F' /\
    F' ⊆ F /\
    forall l, l ∉ F -> fold_left (replace_one (Ref n)) r h !! l = h !! l.
Proof.
  induction r as [|e r IH]; intros h n fs F Hr; simpl; [exists F; auto|].
  destruct (replace_one_repr h n fs F e Hr) as (F1 & H1 & S1 & E1).
  destruct (IH _ _ _ _ H1) as (F2 & H2 & S2 & E2).
  exists F2. split; [assumption|]. split; [set_solver|].
  intros l Hl. rewrite E2 by set_solver. now apply E1.
Qed.

(** *** The fields of the tree after the loop *)

Lemma tget_tset_eq k t fs : tget k (tset k t fs) = Some t.
Proof.
  induction fs as [|k' t' rest IH]; simpl; [now rewrite String.eqb_refl|].
  destruct (String.eqb k k') eqn:E; simpl; [now rewrite String.eqb_refl|].
  now rewrite E.
Qed.

Lemma tget_tset_ne k k' t fs : k <> k' -> tget k' (tset k t fs) = tget k' fs.
Proof.
  intros Hne. induction fs as [|k2 t2 rest IH]; simpl.
  - apply String.eqb_neq in Hne. now rewrite String.eqb_sym, Hne.
  - destruct (String.eqb k k2) eqn:E; simpl.
    + apply String.eqb_eq in E as <-.
      destruct (String.eqb k' k) eqn:E'; [|reflexivity].
      apply String.eqb_eq in E'. congruence.
    + now rewrite IH.
Qed.

Lemma keys_tset k t fs : tget k fs <> None -> keys (tset k t fs) = keys fs.
Proof.
  induction fs as [|k' t' rest IH]; simpl; [congruence|].
  destruct (String.eqb k k') eqn:E; simpl.
  - apply String.eqb_eq in E as <-. reflexivity.
  - intros H. now rewrite IH.
Qed.

Lemma tget_replace_one_ne fs k p k' :
  k <> k' -> tget k' (replace_one_tree fs (k, p)) = tget k' fs.
Proof.
  intros Hne. unfold replace_one_tree.
  destruct (negb (truthy_prim p)); [reflexivity|].
  destruct (tget k fs) as [[q|sub]|]; try reflexivity.
  now apply tget_tset_ne.
Qed.

Lemma keys_replace_one fs e : keys (replace_one_tree fs e) = keys fs.
Proof.
  destruct e as [k p]. unfold replace_one_tree.
  destruct (negb (truthy_prim p)); [reflexivity|].
  destruct (tget k fs) as [[q|sub]|] eqn:E; try reflexivity.
  apply keys_tset. congruence.
Qed.

Lemma keys_replace_all r : forall fs, keys (fold_left replace_one_tree r fs) = keys fs.
Proof.
  induction r as [|e r IH]; intros fs; simpl; [reflexivity|].
  now rewrite IH, keys_replace_one.
Qed.

(** A feature no entry with a truthy id names keeps its value. *)
Lemma tget_replace_all_keep r : forall fs k,
  (forall p, In (k, p) r -> truthy_prim p = false) ->
  tget k (fold_left replace_one_tree r fs) = tget k fs.
Proof.
  induction r as [|[k' p'] r IH]; intros fs k H; cbn [fold_left]; [reflexivity|].
  rewrite IH by (intros p Hp; apply H; now right).
  destruct (String.eqb_spec k' k) as [->|Hne].
  - unfold replace_one_tree. now rewrite (H p' (or_introl eq_refl)).
  - now apply tget_replace_one_ne.
Qed.

(** A value that is no object stays. *)
Lemma tget_replace_all_leaf r : forall fs k q,
  tget k fs = Some (Leaf q) ->
  tget k (fold_left replace_one_tree r fs) = Some (Leaf q).
Proof.
  induction r as [|[k' p'] r IH]; intros fs k q H; cbn [fold_left]; [assumption|].
  apply IH. destruct (String.eqb_spec k' k) as [->|Hne].
  - unfold replace_one_tree. rewrite H. now destruct (negb (truthy_prim p')).
  - now rewrite tget_replace_one_ne.
Qed.

(** An object named by an entry with a truthy id gets that id. *)
Lemma tget_replace_all_set r : forall fs k p sub,
  NoDup (map fst r) -> In (k, p) r -> truthy_prim p = true ->
  tget k fs = Some (Node sub) ->
  tget k (fold_left replace_one_tree r fs)
    = Some (Node (tset "id" (Leaf p) sub)).
Proof.
  induction r as [|[k' p'] r IH]; intros fs k p sub Hnd Hin Hp Ht; [destruct Hin|].
  simpl in Hnd. apply NoDup_cons in Hnd as [Hk' Hnd].
  destruct Hin as [[= -> ->]|Hin]; cbn [fold_left].
  - rewrite tget_replace_all_keep.
    + unfold replace_one_tree. rewrite Hp, Ht. simpl. apply tget_tset_eq.
    + intros q Hq. exfalso. apply Hk'.
      apply list_elem_of_In, (list_elem_of_fmap_2 fst) in Hq. exact Hq.
  - apply IH; auto.
    rewrite tget_replace_one_ne; [assumption|].
    intros ->. apply Hk'.
    apply list_elem_of_In, (list_elem_of_fmap_2 fst) in Hin. exact Hin.
Qed.

End FaceFacts.

Module C9.
Import Face FaceFacts.

(** C9: with a [deepCopy] that is a deep copy, for a face whose structure
    is a finite tree and replacements with distinct features,
    [replaceFeatureIds] returns a new object and leaves every object of the
    store it was given as it was, so the face it was given reads as before.
    In the face it returns the fields are those of the input, in the same
    order: a feature whose replacement id is truthy and whose value is an
    object has its [id] set to that id; a feature whose replacement id is
    falsy or that has no replacement keeps its value, and so does one whose
    value is no object. *)
Theorem replaceFeatureIds_copies_and_sets
    (deepCopy : gmap loc object -> val -> option (val * gmap loc object))
    (h : gmap loc object) (face : loc) (t : tree) (r : replacements) :
  deep_copy deepCopy ->
  read (S (size h)) h (Ref face) = Some t ->
  NoDup (map fst r) ->
  exists fs n h' fs',
    t = Node fs /\
    replaceFeatureIds deepCopy h face r = Some (Ref n, h') /\
    h !! n = None /\
    (forall l o, h !! l = Some o -> h' !! l = Some o) /\
    read (S (size h)) h' (Ref face) = Some t /\
    read (depth (Node fs')) h' (Ref n) = Some (Node fs') /\
    keys fs' = keys fs /\
    (forall k p sub,
       In (k, p) r -> truthy_prim p = true -> tget k fs = Some (Node sub) ->
       tget k fs' = Some (Node (tset "id" (Leaf p) sub))) /\
    (forall k,
       (forall p, In (k, p) r -> truthy_prim p = false) ->
       tget k fs' = tget k fs) /\
    (forall k q, tget k fs = Some (Leaf q) -> tget k fs' = Some (Leaf q)).
Proof.
  intros Hcopy Hread Hnd.
  assert (Hfs : exists fs, t = Node fs).
  { simpl in Hread. destruct (h !! face); [|discriminate].
    destruct (read_fields _ _); [|discriminate]. injection Hread as <-. eauto. }
  destruct Hfs as (fs & ->).
  destruct (Hcopy _ _ _ Hread) as (next & h1 & F & Hdc & Hsub & Hr & Hd).
  unfold replaceFeatureIds. rewrite Hdc.
  inversion Hr as [|n o fs0 F0 Hn Hf Hnot]; subst.
  destruct (replace_all_repr r _ _ _ _ Hr) as (F' & Hr' & Hs' & Heq).
  exists fs, n, (fold_left (replace_one (Ref n)) r h1),
         (fold_left replace_one_tree r fs).
  assert (Hkeep : forall l o', h !! l = Some o' ->
            fold_left (replace_one (Ref n)) r h1 !! l = Some o').
  { intros l o' Hl. rewrite Heq.
    - eapply lookup_weaken; eassumption.
    - apply elem_of_dom_2 in Hl. set_solver. }
  split; [reflexivity|]. split; [reflexivity|]. split.
  { apply not_elem_of_dom. set_solver. }
  split; [exact Hkeep|]. split.
  { revert Hread. generalize (S (size h)) (Ref face) (Node fs).
    intros m v t0. revert v t0.
    induction m as [|m IH]; intros [p|l] t0; simpl; try discriminate; auto.
    destruct (h !! l) as [o'|] eqn:E; [|discriminate].
    rewrite (Hkeep _ _ E).
    destruct (read_fields (read m h) o') as [ts|] eqn:Eo; [|discriminate].
    intros [= <-]. now rewrite (read_fields_ext _ _ _ _ IH Eo). }
  split; [now apply (repr_read _ _ _ _ Hr')|].
  split; [apply keys_replace_all|].
  split; [intros; now apply tget_replace_all_set|].
  split; [intros; now apply tget_replace_all_keep|].
  intros; now apply tget_replace_all_leaf.
Qed.

Lemma replaceFeatureIds_copies_and_sets_witness :
  exists n h' fs',
    replaceFeatureIds structural_clone Example.face_store 1%positive Example.some_replacements
      = Some (Ref n, h') /\
    Example.face_store !! n = None /\
    h' !! 2%positive
      = Some [("id", Prim (PStr "short")); ("flip", Prim (PBool false))] /\
    read (depth (Node fs')) h' (Ref n) = Some (Node fs') /\
    keys fs' = ["fatness"; "hair"; "eye"; "glasses"] /\
    tget "hair" fs'
      = Some (Node (FCons "id" (Leaf (PStr "afro"))
                      (FCons "flip" (Leaf (PBool false)) FNil))) /\
    tget "eye" fs'
      = Some (Node (FCons "id" (Leaf (PStr "eye1"))
                      (FCons "angle" (Leaf (PNum (JsNum.Fin 5))) FNil))) /\
    tget "fatness" fs' = Some (Leaf (PNum (JsNum.Fin (1 # 2)))) /\
    tget "glasses" fs' = Some (Leaf PNull).
Proof.
  destruct (replaceFeatureIds_copies_and_sets structural_clone
              Example.face_store 1%positive
              (Node (FCons "fatness" (Leaf (PNum (JsNum.Fin (1 # 2))))
                 (FCons "hair" (Node (FCons "id" (Leaf (PStr "short"))
                                        (FCons "flip" (Leaf (PBool false)) FNil)))
                 (FCons "eye" (Node (FCons "id" (Leaf (PStr "eye1"))
                                       (FCons "angle" (Leaf (PNum (JsNum.Fin 5))) FNil)))
                 (FCons "glasses" (Leaf PNull) FNil)))))
              Example.some_replacements)
    as (fs & n & h' & fs' & Ht & Hrun & Hnew & Hkeep & _ & Hread & Hkeys
        & Hset & Hsame & Hleaf).
  - apply structural_clone_deep_copy.
  - vm_compute. reflexivity.
  - apply (bool_decide_unpack _). vm_compute. exact I.
  - injection Ht as <-. exists n, h', fs'.
    split; [exact Hrun|]. split; [exact Hnew|].
    split; [apply Hkeep; reflexivity|].
    split; [exact Hread|]. split; [exact Hkeys|].
    split.
    { apply (Hset "hair" (PStr "afro")
                  (FCons "id" (Leaf (PStr "short"))
                     (FCons "flip" (Leaf (PBool false)) FNil)));
        [simpl; tauto | reflexivity | reflexivity]. }
    split.
    { rewrite Hsame; [reflexivity|].
      intros p Hp. simpl in Hp.
      repeat (destruct Hp as [Hp|Hp]; [inversion Hp; subst; try reflexivity|]);
        try discriminate. destruct Hp. }
    split; apply Hleaf; reflexivity.
Defined.

End C9.

(** * Further properties *)

(** ** The layout of the document *)

Module GridFacts.
Import Layout.

Lemma row_of_div idx : row_of idx = Z.of_nat idx / cols.
Proof.
  unfold row_of, cols. simpl. now rewrite Z.mul_1_r.
Qed.

Lemma rows_of_div n : rows_of n = (Z.of_nat n + (cols - 1)) / cols.
Proof.
  unfold rows_of, cols, Qceiling. simpl.
  change (Z.pos (1 * 5)) with 5. rewrite Z.mul_1_r.
  generalize (Z.of_nat n). intros a. Z.div_mod_to_equations. lia.
Qed.

End GridFacts.



Module LayoutFacts.
Import Str Layout Doc IO Sort Catalog CatalogSpec CatalogFacts GridSpec GridFacts.

Lemma col_of_bound idx : 0 <= col_of idx < cols.
Proof. unfold col_of, cols. apply Z.mod_pos_bound. lia. Qed.

Lemma row_of_nonneg idx : 0 <= row_of idx.
Proof. rewrite row_of_div. unfold cols. apply Z.div_pos; lia. Qed.

Lemma index_row_col idx : Z.of_nat idx = row_of idx * cols + col_of idx.
Proof.
  rewrite row_of_div. unfold col_of, cols.
  rewrite (Z.div_mod (Z.of_nat idx) 5) at 1 by lia. lia.
Qed.

Lemma row_of_lt_rows idx n : (idx < n)%nat -> row_of idx < rows_of n.
Proof.
  intros H. rewrite row_of_div, rows_of_div. unfold cols.
  assert (Z.of_nat idx < Z.of_nat n) by lia.
  Z.div_mod_to_equations. lia.
Qed.

(** Two cells of one grid, the first with the smaller index. *)
Lemma cells_apart y i j :
  (i < j)%nat ->
  cell_y y i + blockHeight <= cell_y y j \/
  (cell_y y i = cell_y y j /\ cell_x i + colWidth <= cell_x j).
Proof.
  intros H. unfold cell_x, cell_y.
  pose proof (index_row_col i). pose proof (index_row_col j).
  pose proof (col_of_bound i). pose proof (col_of_bound j).
  unfold blockHeight, thumbHeight, labelHeight, colWidth, padding, cols in *.
  destruct (Z.eq_dec (row_of i) (row_of j)) as [E|E].
  - right. rewrite E in *. split; [reflexivity|]. lia.
  - left. assert (row_of i < row_of j) by lia. lia.
Qed.

Lemma blocks_apart {P : Platform} (w : world) y dir files : forall s blocks,
  Forall2 (fun '(i, file) b =>
             exists raw, fs w !! join dir file = Some (File raw) /\
                         b = block_of y i file raw)
          (combine (List.seq s (length files)) files) blocks ->
  Forall (block_at y s (length files)) blocks /\
  ForallOrdPairs apart blocks /\
  length blocks = length files.
Proof.
  induction files as [|file files IH]; intros s blocks H; simpl in H.
  - inversion H; subst. repeat constructor.
  - inversion H as [|[i f0] b l1 l2 (raw & _ & Hb) Hrest]; subst.
    destruct (IH _ _ Hrest) as (Hall & Hord & Hlen).
    split; [|split].
    + constructor.
      * exists s, (fit_of (ViewBox.extractViewBox raw)),
          (Sanitizer.extractInner (Sanitizer.sanitize (Sanitizer.stripProlog raw))),
          (basename_svg file).
        split; [simpl; lia | reflexivity].
      * eapply Forall_impl; [exact Hall|].
        intros b (i & f & inner & id & Hi & ->).
        exists i, f, inner, id. split; [simpl; lia | reflexivity].
    + constructor; [|exact Hord].
      eapply Forall_impl; [exact Hall|].
      intros b (i & f & inner & id & Hi & ->).
      unfold block_of. cbn [apart]. apply cells_apart. lia.
    + simpl. now rewrite Hlen.
Qed.

Lemma FOP_app {A} (R : A -> A -> Prop) (l1 l2 : list A) :
  ForallOrdPairs R l1 -> ForallOrdPairs R l2 ->
  (forall x y, In x l1 -> In y l2 -> R x y) ->
  ForallOrdPairs R (l1 ++ l2).
Proof.
  induction 1 as [|a l Ha Hl IH]; intros H2 Hx; simpl; [exact H2|].
  constructor.
  - apply Forall_app. split; [exact Ha|].
    apply List.Forall_forall. intros y Hy. apply Hx; [now left | exact Hy].
  - apply IH; [exact H2|]. intros x y Hx' Hy. apply Hx; [now right | exact Hy].
Qed.

Lemma rows_of_ge0 n : 0 <= rows_of n.
Proof. rewrite rows_of_div. unfold cols. apply Z.div_pos; lia. Qed.

Lemma foldM_inv {A S} (f : S -> A -> M S) (I : S -> Prop) :
  (forall s x w s' w', f s x w = (Return s', w') -> I s -> I s') ->
  forall l s w s' w', foldM f s l w = (Return s', w') -> I s -> I s'.
Proof.
  intros Hf. induction l as [|x l IH]; intros s w s' w'; simpl.
  - now intros [= <- _].
  - intros H Hs. apply bind_Return in H as (s1 & w1 & H1 & H).
    eapply IH; [exact H|]. eapply Hf; eassumption.
Qed.

Section Script.
Context {P : Platform}.

Lemma inside_mono W H H' c : H <= H' -> inside W H c -> inside W H' c.
Proof. destruct c; simpl; lia. Qed.

Lemma apart_below_mono c y y' : y <= y' -> apart c (Title y "") -> apart c (Title y' "").
Proof. destruct c; simpl; lia. Qed.

Lemma category_step_laid_out st category w st' w' :
  category_step st category w = (Return st', w') -> laid_out st -> laid_out st'.
Proof.
  destruct st as [y chunks], st' as [y' chunks'].
  intros H (Hy & Hin & Hbelow & Hord).
  apply category_step_Return in H as (entries & blocks & _ & -> & Hb & ->).
  apply blocks_apart in Hb as (Hat & Hbo & _).
  set (n := length (list_files entries)) in *.
  pose proof (rows_of_ge0 n) as Hrows.
  assert (Hinb : Forall (fun b => inside (2 * padding + cols * colWidth)
                          (y + titleHeight + rows_of n * blockHeight
                           + categoryGap + padding) b /\
                        apart (Title y category) b /\
                        apart b (Title (y + titleHeight + rows_of n * blockHeight
                                        + categoryGap) "") /\
                        (forall c, apart c (Title y "") -> apart c b)) blocks).
  { eapply Forall_impl; [exact Hat|].
    intros b (i & f & inner & id & Hi & ->).
    pose proof (row_of_lt_rows i n ltac:(lia)) as Hr.
    pose proof (row_of_nonneg i) as Hr0.
    pose proof (col_of_bound i) as Hc.
    unfold cell_x, cell_y, inside, apart.
    unfold blockHeight, thumbHeight, labelHeight, colWidth, padding, cols,
      thumbWidth, titleHeight, categoryGap in *.
    repeat split; try nia.
    intros [y1 c1|x1 y1 f1 i1 id1]; nia. }
  unfold laid_out.
  unfold blockHeight, thumbHeight, labelHeight, titleHeight, categoryGap in *.
  split; [nia|]. split; [|split].
  - apply Forall_app. split.
    + eapply Forall_impl; [exact Hin|]. intros c. apply inside_mono. nia.
    + constructor.
      * simpl. unfold titleHeight, padding in *. nia.
      * eapply Forall_impl; [exact Hinb|]. now intros b (? & _).
  - apply Forall_app. split.
    + eapply Forall_impl; [exact Hbelow|]. intros c. apply apart_below_mono. nia.
    + constructor.
      * simpl. unfold titleHeight, categoryGap. nia.
      * eapply Forall_impl; [exact Hinb|]. now intros b (_ & _ & ? & _).
  - apply FOP_app; [exact Hord| |].
    + constructor; [|exact Hbo].
      eapply Forall_impl; [exact Hinb|]. now intros b (_ & ? & _).
    + intros c b Hc [<-|Hb].
      * rewrite Forall_forall in Hbelow.
        pose proof (Hbelow c ltac:(now apply list_elem_of_In)) as Hcb.
        destruct c; simpl in *; lia.
      * rewrite Forall_forall in Hbelow, Hinb.
        apply list_elem_of_In in Hb, Hc.
        destruct (Hinb b Hb) as (_ & _ & _ & Hall). apply Hall, Hbelow, Hc.
Qed.

Lemma build_laid_out w d w' :
  build w = (Return d, w') ->
  laid_out (doc_height d - padding, doc_chunks d) /\
  doc_width d = 2 * padding + cols * colWidth.
Proof.
  unfold build. intros H.
  apply bind_Return in H as (cats & w1 & _ & H).
  apply bind_Return in H as ([y chunks] & w2 & Hf & H).
  injection H as <- _. cbn [doc_width doc_height doc_chunks].
  split; [|unfold padding, cols, colWidth; lia].
  replace (y + padding - padding) with y by lia.
  eapply (foldM_inv category_step laid_out); [|exact Hf|].
  - intros. eapply category_step_laid_out; eassumption.
  - unfold laid_out. repeat split; try constructor. lia.
Qed.

End Script.
End LayoutFacts.

Module OutlineFacts.
Import Str Layout Doc IO Sort Catalog CatalogSpec CatalogFacts GridSpec.

Section Script.
Context {P : Platform}.

Lemma outline_blocks (w : world) y dir files : forall s blocks,
  Forall2 (fun '(i, file) b =>
             exists raw, fs w !! join dir file = Some (File raw) /\
                         b = block_of y i file raw)
          (combine (List.seq s (length files)) files) blocks ->
  outline blocks = map (fun file => (false, basename_svg file)) files.
Proof.
  induction files as [|file files IH]; intros s blocks H; simpl in H.
  - now inversion H.
  - inversion H as [|[i f0] b l1 l2 (raw & _ & Hb) Hrest]; subst.
    simpl. f_equal. eapply IH; eassumption.
Qed.

Lemma category_step_outline y chunks category w y' chunks' w' :
  category_step (y, chunks) category w = (Return (y', chunks'), w') ->
  outline chunks' = (outline chunks ++ section_of w category)%list.
Proof.
  intros H.
  apply category_step_Return in H as (entries & blocks & He & -> & Hb & _).
  unfold outline at 1. rewrite map_app. fold (outline chunks).
  f_equal. unfold section_of, entries_of. rewrite He. cbn [map is_title chunk_id].
  f_equal. eapply outline_blocks; eassumption.
Qed.

Lemma foldM_outline categories : forall y chunks w y' chunks' w',
  foldM category_step (y, chunks) categories w = (Return (y', chunks'), w') ->
  outline chunks'
  = (outline chunks ++ concat (map (section_of w) categories))%list.
Proof.
  induction categories as [|c cs IH]; intros y chunks w y' chunks' w';
    cbn [foldM map concat].
  - intros [= _ <- _]. now rewrite app_nil_r.
  - intros H. apply bind_Return in H as ([y1 chunks1] & w1 & Hs & H).
    pose proof (pure_category_step _ _ _ _ _ Hs) as ->.
    rewrite (IH _ _ _ _ _ _ H), (category_step_outline _ _ _ _ _ _ _ Hs).
    now rewrite <- List.app_assoc.
Qed.

Lemma foldM_height categories : forall y chunks w y' chunks' w',
  foldM category_step (y, chunks) categories w = (Return (y', chunks'), w') ->
  y' = y + total (map (band_of w) categories).
Proof.
  induction categories as [|c cs IH]; intros y chunks w y' chunks' w';
    cbn [foldM map total].
  - intros [= <- _ _]. lia.
  - intros H. apply bind_Return in H as ([y1 chunks1] & w1 & Hs & H).
    pose proof (pure_category_step _ _ _ _ _ Hs) as ->.
    rewrite (IH _ _ _ _ _ _ H).
    apply category_step_Return in Hs as (entries & blocks & He & _ & _ & ->).
    unfold band_of, entries_of. rewrite He. lia.
Qed.

End Script.
End OutlineFacts.

Module GridProps.
Import Str Layout Doc IO Sort Catalog CatalogSpec CatalogFacts.
Import GridSpec GridFacts LayoutFacts OutlineFacts.

(** X1: the cell with index [idx] stands in row [idx div cols] and column
    [idx mod cols], so that the cells fill the rows from left to right; and
    [rows_of n] is the number of rows that [n] cells take: every cell with
    an index below [n] is in one of them and the last one is not empty. *)
Theorem grid_is_row_major (idx n : nat) :
  Z.of_nat idx = row_of idx * cols + col_of idx /\
  0 <= col_of idx < cols /\ 0 <= row_of idx /\
  ((idx < n)%nat -> row_of idx < rows_of n) /\
  cols * (rows_of n - 1) < Z.of_nat n <= cols * rows_of n.
Proof.
  split; [apply index_row_col|]. split; [apply col_of_bound|].
  split; [apply row_of_nonneg|]. split; [apply row_of_lt_rows|].
  rewrite rows_of_div. unfold cols. Z.div_mod_to_equations. lia.
Qed.

(** X2: in the document that [main] builds no two chunks overlap, and they
    are pushed in reading order: of two blocks the later one stands a block
    height lower or in the same row a column pitch to the right; a block
    starts a title row below the title of its category; and a title stands
    a gap below the cell of every block pushed before it. *)
Theorem chunks_are_apart {P : Platform} (w : world) (d : document) (w' : world) :
  build w = (Return d, w') ->
  ForallOrdPairs apart (doc_chunks d).
Proof.
  intros H. apply build_laid_out in H as ((_ & _ & _ & H) & _). exact H.
Qed.

Lemma chunks_are_apart_witness :
  exists d,
    build (P := Example.platform) Example.scenario_world
      = (Return d, Example.scenario_world) /\
    map (fun c => match c with
                  | Title y _ => (0, y)
                  | Block x y _ _ _ => (x, y)
                  end) (doc_chunks d)
      = [(0, 24); (24, 46); (224, 46); (0, 348); (24, 370)] /\
    ForallOrdPairs apart (doc_chunks d).
Proof.
  set (d := match fst (build (P := Example.platform) Example.scenario_world)
            with
            | Return d => d
            | Throw _ => {| doc_width := 0; doc_height := 0; doc_chunks := [] |}
            end).
  assert (Hb : build (P := Example.platform) Example.scenario_world
               = (Return d, Example.scenario_world))
    by (vm_compute; reflexivity).
  exists d. split; [exact Hb|]. split; [vm_compute; reflexivity|].
  exact (chunks_are_apart (P := Example.platform) _ _ _ Hb).
Defined.

(** X3: every chunk of the document lies on its canvas with the padding
    kept free on all sides: the baseline of a title, and the rectangle of
    [thumbWidth] by [thumbHeight] of a block. *)
Theorem chunks_are_inside {P : Platform} (w : world) (d : document) (w' : world) :
  build w = (Return d, w') ->
  Forall (inside (doc_width d) (doc_height d)) (doc_chunks d).
Proof.
  intros H. apply build_laid_out in H as ((_ & H & _) & ->).
  now replace (doc_height d - padding + padding) with (doc_height d) in H by lia.
Qed.

Lemma chunks_are_inside_witness :
  exists d,
    build (P := Example.platform) Example.scenario_world
      = (Return d, Example.scenario_world) /\
    doc_width d = 1048 /\ doc_height d = 696 /\
    Forall (inside 1048 696) (doc_chunks d).
Proof.
  set (d := match fst (build (P := Example.platform) Example.scenario_world)
            with
            | Return d => d
            | Throw _ => {| doc_width := 0; doc_height := 0; doc_chunks := [] |}
            end).
  assert (Hb : build (P := Example.platform) Example.scenario_world
               = (Return d, Example.scenario_world))
    by (vm_compute; reflexivity).
  exists d. split; [exact Hb|]. split; [reflexivity|]. split; [reflexivity|].
  exact (chunks_are_inside (P := Example.platform) _ _ _ Hb).
Defined.

(** X4: the document shows the categories in their order, each as its
    title followed by one block per file of the category, labelled with the
    base name of the file, in the order of the files; it holds nothing
    else. *)
Theorem document_outline {P : Platform} (w : world) (d : document) (w' : world) :
  build w = (Return d, w') ->
  exists names,
    fs w !! svgRoot = Some (Dir names) /\
    outline (doc_chunks d)
    = concat
        (map (fun category =>
                (true, category)
                :: map (fun file => (false, basename_svg file))
                       (list_files (entries_of w (join svgRoot category))))
             (sort (List.filter (is_category_in w) names))).
Proof.
  unfold build. intros H.
  apply bind_Return in H as (cats & w1 & Hc & H).
  pose proof (pure_scan_categories _ _ _ Hc) as ->.
  apply scan_categories_Return in Hc as (names & Hn & ->).
  apply bind_Return in H as ([y chunks] & w2 & Hf & H).
  injection H as <- _. cbn [doc_chunks].
  exists names. split; [exact Hn|].
  apply foldM_outline in Hf. exact Hf.
Qed.

Lemma document_outline_witness :
  exists d,
    build (P := Example.platform) Example.scenario_world
      = (Return d, Example.scenario_world) /\
    outline (doc_chunks d)
    = [(true, "eyes"); (false, "left"); (false, "right");
       (true, "mouths"); (false, "smile")].
Proof.
  set (d := match fst (build (P := Example.platform) Example.scenario_world)
            with
            | Return d => d
            | Throw _ => {| doc_width := 0; doc_height := 0; doc_chunks := [] |}
            end).
  assert (Hb : build (P := Example.platform) Example.scenario_world
               = (Return d, Example.scenario_world))
    by (vm_compute; reflexivity).
  exists d. split; [exact Hb|].
  destruct (document_outline (P := Example.platform) _ _ _ Hb) as (names & Hn & ->).
  vm_compute in Hn. injection Hn as <-. vm_compute. reflexivity.
Defined.

(** X5: the height of the document is the padding above and below and,
    for each category, a title row, its rows of blocks ([blockHeight] each,
    one row for every [cols] files or part of it) and the gap after it. *)
Theorem document_height_formula {P : Platform} (w : world) (d : document)
    (w' : world) :
  build w = (Return d, w') ->
  exists names,
    fs w !! svgRoot = Some (Dir names) /\
    doc_height d
    = 2 * padding
      + total
          (map (fun category =>
                  titleHeight
                  + rows_of (length (list_files
                                       (entries_of w (join svgRoot category))))
                    * blockHeight
                  + categoryGap)
               (sort (List.filter (is_category_in w) names))).
Proof.
  unfold build. intros H.
  apply bind_Return in H as (cats & w1 & Hc & H).
  pose proof (pure_scan_categories _ _ _ Hc) as ->.
  apply scan_categories_Return in Hc as (names & Hn & ->).
  apply bind_Return in H as ([y chunks] & w2 & Hf & H).
  injection H as <- _. cbn [doc_height].
  exists names. split; [exact Hn|].
  apply foldM_height in Hf. rewrite Hf. unfold band_of. lia.
Qed.

Lemma document_height_formula_witness :
  exists d,
    build (P := Example.platform) Example.scenario_world
      = (Return d, Example.scenario_world) /\
    doc_height d = 2 * 24 + ((22 + 1 * 270 + 32) + ((22 + 1 * 270 + 32) + 0)).
Proof.
  set (d := match fst (build (P := Example.platform) Example.scenario_world)
            with
            | Return d => d
            | Throw _ => {| doc_width := 0; doc_height := 0; doc_chunks := [] |}
            end).
  assert (Hb : build (P := Example.platform) Example.scenario_world
               = (Return d, Example.scenario_world))
    by (vm_compute; reflexivity).
  exists d. split; [exact Hb|].
  destruct (document_height_formula (P := Example.platform) _ _ _ Hb)
    as (names & Hn & ->).
  vm_compute in Hn. injection Hn as <-. vm_compute. reflexivity.
Defined.

End GridProps.

(** ** The runs of the catalog script *)

Module ScriptFacts.
Import Str StrFacts Doc IO Sort SortFacts Catalog CatalogSpec CatalogFacts RasterFacts.
Import GridSpec ScriptSpec.

Lemma split_path_name name :
  ViewBoxSpec.all (RegExp.except "/") name = true -> split_path name = None.
Proof.
  induction name as [|c name IH]; simpl; [reflexivity|].
  unfold RegExp.except at 1. intros H. apply andb_prop in H as [Hc Hn].
  rewrite (IH Hn). rewrite Ascii.eqb_sym. now apply negb_true_iff in Hc as ->.
Qed.

Lemma split_path_join dir name :
  ViewBoxSpec.all (RegExp.except "/") name = true ->
  split_path (join dir name) = Some (dir, name).
Proof.
  intros Hn. unfold join. induction dir as [|c dir IH]; simpl.
  - now rewrite (split_path_name _ Hn).
  - simpl in IH. now rewrite IH.
Qed.

Section Script.
Context {P : Platform}.

Lemma filterM_is_category_Return w names : forall dirs w',
  filterM is_category names w = (Return dirs, w') ->
  Forall (fun name => startsWith "." name = true \/
                      is_Some (fs w !! join svgRoot name)) names.
Proof.
  induction names as [|name names IH]; intros dirs w'; cbn [filterM].
  - constructor.
  - intros H. apply bind_Return in H as (b & w1 & Hb & H).
    pose proof (pure_is_category _ _ _ _ Hb) as ->.
    apply bind_Return in H as (rest & w2 & Hrest & H).
    constructor; [|eapply IH; eassumption].
    unfold is_category in Hb. destruct (startsWith "." name); [now left|right].
    unfold isDirectory in Hb.
    destruct (fs w !! join svgRoot name) as [nd|]; [eauto | discriminate].
Qed.

Lemma blocks_files (w : world) y dir files : forall s blocks,
  Forall2 (fun '(i, file) b =>
             exists raw, fs w !! join dir file = Some (File raw) /\
                         b = block_of y i file raw)
          (combine (List.seq s (length files)) files) blocks ->
  Forall (fun file => is_file w (join dir file)) files.
Proof.
  induction files as [|file files IH]; intros s blocks H; simpl in H.
  - constructor.
  - inversion H as [|[i f0] b l1 l2 (raw & Hraw & _) Hrest]; subst.
    constructor; [now exists raw | eapply IH; eassumption].
Qed.

Lemma foldM_category_Return categories : forall st w st' w',
  foldM category_step st categories w = (Return st', w') ->
  Forall (fun category =>
            Forall (fun file => is_file w (join (join svgRoot category) file))
                   (list_files (entries_of w (join svgRoot category))))
         categories.
Proof.
  induction categories as [|c cs IH]; intros [y chunks] w [y' chunks'] w';
    cbn [foldM].
  - constructor.
  - intros H. apply bind_Return in H as ([y1 chunks1] & w1 & Hs & H).
    pose proof (pure_category_step _ _ _ _ _ Hs) as ->.
    constructor; [|eapply IH; eassumption].
    apply category_step_Return in Hs as (entries & blocks & He & _ & Hb & _).
    unfold entries_of. rewrite He. eapply blocks_files; eassumption.
Qed.

Lemma build_readable w d w' : build w = (Return d, w') -> readable w.
Proof.
  unfold build. intros H.
  apply bind_Return in H as (cats & w1 & Hc & H).
  pose proof (pure_scan_categories _ _ _ Hc) as ->.
  apply bind_Return in H as ([y chunks] & w2 & Hf & _).
  apply foldM_category_Return in Hf.
  unfold scan_categories in Hc.
  apply bind_Return in Hc as (names & w3 & Hn & Hc).
  pose proof (pure_readdirSync _ _ _ _ Hn) as ->.
  apply bind_Return in Hc as (dirs & w4 & Hd & Hc).
  injection Hc as <- _.
  pose proof (filterM_is_category_Return _ _ _ _ Hd) as Hvis.
  apply filterM_is_category in Hd as ->.
  exists names. split; [|split; [exact Hvis|]].
  - unfold readdirSync in Hn.
    destruct (fs w !! svgRoot) as [[c|es]|]; try discriminate.
    now injection Hn as ->.
  - eapply Permutation_Forall; [|exact Hf]. apply sort_by_perm.
Qed.

Lemma foldM_category_total categories w :
  Forall (fun category =>
            is_category_in w category = true /\
            Forall (fun file => is_file w (join (join svgRoot category) file))
                   (list_files (entries_of w (join svgRoot category))))
         categories ->
  forall st,
    foldM category_step st categories w
    = (Return (fold_left (category_layout w) categories st), w).
Proof.
  induction 1 as [|c cs [Hc Hf] _ IH]; intros [y chunks]; cbn [foldM fold_left].
  - reflexivity.
  - unfold is_category_in in Hc. apply andb_prop in Hc as [_ Hc].
    assert (He : exists entries, fs w !! join svgRoot c = Some (Dir entries)).
    { destruct (fs w !! join svgRoot c) as [[?|entries]|]; try discriminate.
      eauto. }
    destruct He as (entries & He).
    assert (Eo : entries_of w (join svgRoot c) = entries)
      by (unfold entries_of; now rewrite He).
    rewrite Eo in Hf.
    rewrite (bind_step _ _ _ _ _ (category_step_total y chunks c w entries He Hf)).
    rewrite IH.
    replace (category_layout w (y, chunks) c)
      with (y + Layout.titleHeight
            + Layout.rows_of (length (list_files entries)) * Layout.blockHeight
            + Layout.categoryGap,
            (chunks ++ Title y c
               :: blocks_in w (y + Layout.titleHeight) (join svgRoot c) 0
                    (list_files entries))%list)
      by (unfold category_layout; now rewrite Eo).
    reflexivity.
Qed.

Lemma readable_build w : readable w -> build w = (Return (document_of w), w).
Proof.
  intros (names & Hn & Hvis & Hfiles). unfold build.
  rewrite (bind_step _ _ _ _ _ (scan_categories_total _ _ Hn Hvis)).
  erewrite bind_step.
  2:{ apply foldM_category_total.
      eapply Permutation_Forall; [symmetry; apply sort_by_perm|].
      apply List.Forall_forall. intros c Hc.
      split.
      - apply filter_In in Hc. apply Hc.
      - rewrite List.Forall_forall in Hfiles. now apply Hfiles. }
  unfold document_of. replace (entries_of w svgRoot) with names
    by (unfold entries_of; now rewrite Hn).
  destruct (fold_left _ _ _) as [y chunks]. reflexivity.
Qed.

Lemma script_exit sharp w :
  script sharp w =
  match write_catalog w with
  | (Return d, w1) =>
      (0, snd (tryWritePng sharp outputPath (join svgRoot "catalog.png") w1))
  | (Throw e, w1) => (1, snd (print Error e w1))
  end.
Proof.
  unfold script. rewrite main_split.
  destruct (write_catalog w) as [[d|e] w1]; [|reflexivity].
  destruct (tryWritePng_returns sharp outputPath (join svgRoot "catalog.png") w1)
    as (w2 & ->). reflexivity.
Qed.

Lemma write_catalog_outcome w :
  write_catalog w =
  match build w with
  | (Return d, _) =>
      match writeFileSync outputPath (render d) w with
      | (Return _, w1) =>
          (Return d, {| fs := fs w1;
                        console := (console w1 ++ [(Log, "Wrote " +:+ outputPath)])%list |})
      | (Throw e, w1) => (Throw e, w1)
      end
  | (Throw e, _) => (Throw e, w)
  end.
Proof.
  unfold write_catalog, bind.
  destruct (build w) as [[d|e] w1] eqn:E; apply pure_build in E as ->;
    [|reflexivity].
  destruct (writeFileSync outputPath (render d) w) as [[[]|e] w1]; reflexivity.
Qed.

Lemma writeFileSync_outcome path content w :
  (exists w1, writeFileSync path content w = (Return tt, w1)) \/
  (exists e, writeFileSync path content w = (Throw e, w)).
Proof.
  unfold writeFileSync.
  destruct (fs w !! path) as [[c|es]|]; eauto.
  destruct (split_path path) as [[dir name]|]; eauto.
  destruct (fs w !! dir) as [[c|es]|]; eauto.
Qed.

Lemma script_succeeds_iff sharp w :
  fst (script sharp w) = 0 <-> readable w /\ ~ is_dir w outputPath.
Proof.
  rewrite script_exit, write_catalog_outcome. split.
  - destruct (build w) as [[d|e] w1] eqn:Eb; [|discriminate].
    intros H. split; [eapply build_readable; eassumption|].
    intros (es & Hes). unfold writeFileSync in H. rewrite Hes in H.
    discriminate.
  - intros [Hr Hd]. rewrite (readable_build w Hr).
    destruct Hr as (names & Hn & _).
    unfold writeFileSync.
    destruct (fs w !! outputPath) as [[c|es]|] eqn:Eo; [reflexivity| |].
    + exfalso. apply Hd. now exists es.
    + unfold outputPath. rewrite split_path_join by reflexivity.
      rewrite Hn. reflexivity.
Qed.

Lemma script_failure sharp w :
  fst (script sharp w) <> 0 ->
  fst (script sharp w) = 1 /\
  exists e,
    snd (script sharp w)
    = {| fs := fs w; console := (console w ++ [(Error, e)])%list |}.
Proof.
  rewrite script_exit, write_catalog_outcome.
  destruct (build w) as [[d|e] w1] eqn:Eb.
  - destruct (writeFileSync_outcome outputPath (render d) w)
      as [(w2 & ->)|(e & ->)].
    + intros H. now contradiction H.
    + intros _. split; [reflexivity|]. now exists e.
  - intros _. split; [reflexivity|]. now exists e.
Qed.

End Script.
End ScriptFacts.

Module RerunFacts.
Import Str StrFacts Doc IO Sort SortFacts Catalog CatalogSpec CatalogFacts RasterFacts.
Import GridSpec ScriptSpec ScriptFacts.

Lemma join_not_root root name : join root name <> root.
Proof.
  intros H. apply (f_equal len) in H. unfold join in H.
  rewrite !len_app in H. simpl in H. lia.
Qed.

Lemma app_inv_head_string (a b c : string) : a +:+ b = a +:+ c -> b = c.
Proof. induction a as [|x a IH]; simpl; [auto|]. intros [= H]. auto. Qed.

Lemma sep_in_plain_name (a b name : string) :
  plain_name name -> a +:+ "/" +:+ b <> name.
Proof.
  unfold plain_name. revert name.
  induction a as [|x a IH]; intros [|c name]; simpl; try discriminate.
  - intros H [= <- _]. discriminate.
  - intros H [= <- E]. apply andb_prop in H as [_ H]. exact (IH _ H E).
Qed.

(** A path two levels below the root is not one of its entries. *)
Lemma join_join_not_entry root category file name :
  plain_name name -> join (join root category) file <> join root name.
Proof.
  intros Hn H. unfold join in H. rewrite !app_assoc in H.
  apply app_inv_head_string in H. simpl in H. injection H as H.
  exact (sep_in_plain_name _ _ _ Hn H).
Qed.

Section Script.
Context {P : Platform}.

Lemma writeFileSync_in_root name content w :
  plain_name name -> is_dir w svgRoot -> ~ is_dir w (join svgRoot name) ->
  exists w2,
    writeFileSync (join svgRoot name) content w = (Return tt, w2) /\
    console w2 = console w /\
    wrote_in_root name w w2 /\
    fs w2 !! join svgRoot name = Some (File content) /\
    (fs w !! join svgRoot name = Some (File content) -> fs w2 = fs w).
Proof.
  intros Hn (names & Hr) Hd. unfold writeFileSync.
  destruct (fs w !! join svgRoot name) as [[c|es]|] eqn:Ep.
  - eexists. split; [reflexivity|]. unfold wrote_in_root, is_file.
    cbn [fs console]. split; [reflexivity|]. split; [|split].
    + split; [|split; [|split]].
      * intros q Hq _. now rewrite lookup_insert_ne.
      * exists content. now rewrite lookup_insert_eq.
      * exact Hd.
      * exists names. split; [exact Hr|]. left.
        rewrite lookup_insert_ne; [exact Hr | apply join_not_root].
    + now rewrite lookup_insert_eq.
    + intros [= ->]. now apply insert_id.
  - exfalso. apply Hd. now exists es.
  - rewrite (split_path_join _ _ Hn), Hr.
    eexists. split; [reflexivity|]. unfold wrote_in_root, is_file.
    cbn [fs console]. split; [reflexivity|]. split; [|split].
    + split; [|split; [|split]].
      * intros q Hq Hq'. now rewrite !lookup_insert_ne.
      * exists content. now rewrite lookup_insert_eq.
      * exact Hd.
      * exists names. split; [exact Hr|]. right. split; [exact Ep|].
        rewrite lookup_insert_ne; [|apply join_not_root].
        now rewrite lookup_insert_eq.
    + now rewrite lookup_insert_eq.
    + discriminate.
Qed.

Lemma blocks_in_ext w w2 y dir files : forall idx,
  (forall file, fs w2 !! join dir file = fs w !! join dir file) ->
  blocks_in w2 y dir idx files = blocks_in w y dir idx files.
Proof.
  induction files as [|file files IH]; intros idx H; [reflexivity|].
  cbn [blocks_in]. rewrite (IH _ H). unfold content_of. now rewrite H.
Qed.

Lemma fold_left_ext_in {A B} (f g : A -> B -> A) (l : list B) :
  (forall x, In x l -> forall a, f a x = g a x) ->
  forall a, fold_left f l a = fold_left g l a.
Proof.
  induction l as [|x l IH]; intros H a; [reflexivity|].
  cbn [fold_left]. rewrite (H x (or_introl eq_refl)).
  apply IH. intros y Hy. apply H. now right.
Qed.

Lemma is_category_in_dir w category :
  is_category_in w category = true -> is_dir w (join svgRoot category).
Proof.
  unfold is_category_in. intros H. apply andb_prop in H as [_ H].
  destruct (fs w !! join svgRoot category) as [[c|es]|] eqn:E; try discriminate.
  now exists es.
Qed.

(** After a file was written into the root, [main] reads what it read
    before. *)
Lemma wrote_inputs name w w2 :
  plain_name name -> readable w -> wrote_in_root name w w2 ->
  readable w2 /\ document_of w2 = document_of w.
Proof.
  intros Hn (names & Hr & Hvis & Hfiles)
    (Hframe & Hfile2 & Hnd & names' & Hr' & Hcase).
  rewrite Hr in Hr'. injection Hr' as <-.
  assert (Hcat0 : is_category_in w name = false).
  { destruct (is_category_in w name) eqn:E; [|reflexivity].
    now apply is_category_in_dir in E. }
  assert (F1 : forall x, is_category_in w2 x = is_category_in w x).
  { intros x. unfold is_category_in. f_equal.
    destruct (decide (join svgRoot x = join svgRoot name)) as [E|E].
    - rewrite E. destruct Hfile2 as (c & ->).
      destruct (fs w !! join svgRoot name) as [[c'|es]|] eqn:E'; try reflexivity.
      exfalso. apply Hnd. now exists es.
    - rewrite Hframe; [reflexivity | exact E | apply join_not_root]. }
  assert (F3 : forall category,
             is_category_in w category = true ->
             fs w2 !! join svgRoot category = fs w !! join svgRoot category /\
             forall file,
               fs w2 !! join (join svgRoot category) file
               = fs w !! join (join svgRoot category) file).
  { intros category Hc. split.
    - apply Hframe; [|apply join_not_root].
      intros E. apply Hnd. rewrite <- E. now apply is_category_in_dir.
    - intros file. apply Hframe; [now apply join_join_not_entry|].
      intros E. apply (f_equal len) in E. unfold join in E.
      rewrite !len_app in E. simpl in E. lia. }
  assert (F2 : exists names2,
             fs w2 !! svgRoot = Some (Dir names2) /\
             List.filter (is_category_in w2) names2
             = List.filter (is_category_in w) names /\
             Forall (fun x => startsWith "." x = true \/
                              is_Some (fs w2 !! join svgRoot x)) names2).
  { assert (Hold : Forall (fun x => startsWith "." x = true \/
                                    is_Some (fs w2 !! join svgRoot x)) names).
    { eapply Forall_impl; [exact Hvis|]. intros x [Hx|Hx]; [now left|right].
      destruct (decide (join svgRoot x = join svgRoot name)) as [E|E].
      - rewrite E. destruct Hfile2 as (c & ->). eauto.
      - rewrite Hframe; [exact Hx | exact E | apply join_not_root]. }
    destruct Hcase as [H2|[_ H2]].
    - exists names. split; [exact H2|]. split; [|exact Hold].
      apply filter_ext. exact F1.
    - exists (names ++ [name])%list. split; [exact H2|]. split.
      + rewrite List.filter_app. cbn [List.filter]. rewrite F1, Hcat0, List.app_nil_r.
        apply filter_ext. exact F1.
      + apply Forall_app. split; [exact Hold|]. constructor; [|constructor].
        right. destruct Hfile2 as (c & ->). eauto. }
  destruct F2 as (names2 & Hr2 & Hfil & Hvis2).
  assert (Hent : forall category,
             is_category_in w category = true ->
             entries_of w2 (join svgRoot category)
             = entries_of w (join svgRoot category)).
  { intros category Hc. unfold entries_of.
    now rewrite (proj1 (F3 _ Hc)). }
  split.
  - exists names2. split; [exact Hr2|]. split; [exact Hvis2|].
    rewrite Hfil. rewrite List.Forall_forall in Hfiles.
    apply List.Forall_forall. intros category Hc.
    pose proof (Hfiles _ Hc) as Hf.
    apply filter_In in Hc as [_ Hc]. rewrite (Hent _ Hc).
    eapply Forall_impl; [exact Hf|]. intros file (c & Hfile).
    exists c. now rewrite (proj2 (F3 _ Hc)).
  - unfold document_of.
    replace (entries_of w2 svgRoot) with names2
      by (unfold entries_of; now rewrite Hr2).
    replace (entries_of w svgRoot) with names
      by (unfold entries_of; now rewrite Hr).
    rewrite Hfil.
    rewrite (fold_left_ext_in (category_layout w2) (category_layout w));
      [reflexivity|].
    intros category Hc [y chunks].
    apply (Permutation_in _ (sort_by_perm _ _)) in Hc.
    apply filter_In in Hc as [_ Hc].
    unfold category_layout. rewrite (Hent _ Hc).
    rewrite (blocks_in_ext w w2); [reflexivity|]. apply F3, Hc.
Qed.

(** A world with the same file system is the same to [main]. *)
Lemma same_fs_inputs w w2 :
  fs w2 = fs w -> readable w -> readable w2 /\ document_of w2 = document_of w.
Proof.
  destruct w as [f c], w2 as [f2 c2]. cbn [fs]. intros -> H.
  split; [exact H|]. unfold document_of.
  change (entries_of {| fs := f; console := c2 |})
    with (entries_of {| fs := f; console := c |}).
  change (is_category_in {| fs := f; console := c2 |})
    with (is_category_in {| fs := f; console := c |}).
  rewrite (fold_left_ext_in (category_layout {| fs := f; console := c2 |})
             (category_layout {| fs := f; console := c |})); [reflexivity|].
  intros category _ [y chunks]. unfold category_layout.
  change (entries_of {| fs := f; console := c2 |})
    with (entries_of {| fs := f; console := c |}).
  now rewrite (blocks_in_ext {| fs := f; console := c |}
                 {| fs := f; console := c2 |}).
Qed.

Lemma is_dir_writeFileSync path content w :
  is_dir w path -> exists e, writeFileSync path content w = (Throw e, w).
Proof. intros (es & H). unfold writeFileSync. rewrite H. eauto. Qed.

(** What a run that writes its catalog does. *)
Lemma run_outcome sharp w :
  readable w -> ~ is_dir w outputPath ->
  exists wa,
    wrote_in_root "catalog.svg" w wa /\
    fs wa !! outputPath = Some (File (render (document_of w))) /\
    (fs w !! outputPath = Some (File (render (document_of w))) -> fs wa = fs w) /\
    script sharp w
    = (0, snd (tryWritePng sharp outputPath (join svgRoot "catalog.png")
                 {| fs := fs wa;
                    console := (console wa ++ [(Log, "Wrote " +:+ outputPath)])%list |})).
Proof.
  intros Hr Hd.
  destruct (writeFileSync_in_root "catalog.svg" (render (document_of w)) w)
    as (wa & Hw & _ & Hwrote & Hout & Hid);
    [reflexivity | destruct Hr as (names & Hn & _); now exists names | exact Hd |].
  exists wa. split; [exact Hwrote|]. split; [exact Hout|]. split; [exact Hid|].
  rewrite script_exit, write_catalog_outcome, (readable_build w Hr).
  fold outputPath in Hw. rewrite Hw. reflexivity.
Qed.

(** What the attempt at the PNG leaves of a file system whose catalog
    holds [svg]: it is as it was, or the PNG was written. *)
Lemma tryWritePng_outcome sharp svg w :
  fs w !! outputPath = Some (File svg) -> is_dir w svgRoot ->
  (fs (snd (tryWritePng sharp outputPath (join svgRoot "catalog.png") w)) = fs w /\
   forall convert png,
     sharp = Some convert -> convert svg = Some png ->
     is_dir w (join svgRoot "catalog.png")) \/
  (exists convert png wc,
     sharp = Some convert /\ convert svg = Some png /\
     wrote_in_root "catalog.png" w wc /\
     fs wc !! join svgRoot "catalog.png" = Some (File png) /\
     (fs w !! join svgRoot "catalog.png" = Some (File png) -> fs wc = fs w) /\
     fs (snd (tryWritePng sharp outputPath (join svgRoot "catalog.png") w)) = fs wc).
Proof.
  intros Hsvg Hroot.
  destruct sharp as [convert|];
    [|left; split; [reflexivity | discriminate]].
  destruct (convert svg) as [png|] eqn:Ec.
  2:{ left. split; [|intros ? ? [= <-]; congruence].
      unfold tryWritePng, try_catch, png_attempt, bind, readFileSync.
      now rewrite Hsvg, Ec. }
  assert (Hdec : is_dir w (join svgRoot "catalog.png") \/
                 ~ is_dir w (join svgRoot "catalog.png")).
  { unfold is_dir.
    destruct (fs w !! join svgRoot "catalog.png") as [[c|es]|]; eauto;
      right; intros (es & ?); discriminate. }
  destruct Hdec as [Hd|Hd].
  - left. destruct (is_dir_writeFileSync _ png w Hd) as (e & He).
    split; [|intros; exact Hd].
    unfold tryWritePng, try_catch, png_attempt, bind, readFileSync.
    now rewrite Hsvg, Ec, He.
  - right.
    destruct (writeFileSync_in_root "catalog.png" png w)
      as (wc & Hw & _ & Hwrote & Hpng & Hid); [reflexivity | exact Hroot | exact Hd |].
    exists convert, png, wc.
    split; [reflexivity|]. split; [exact Ec|]. split; [exact Hwrote|].
    split; [exact Hpng|]. split; [exact Hid|].
    unfold tryWritePng, try_catch, png_attempt, bind, readFileSync.
    now rewrite Hsvg, Ec, Hw.
Qed.

Lemma run_settles sharp w :
  readable w -> ~ is_dir w outputPath -> settled sharp (snd (script sharp w)).
Proof.
  intros Hr Hd.
  destruct (run_outcome sharp w Hr Hd) as (wa & Hwrote & Hout & _ & ->).
  cbn [snd].
  destruct (wrote_inputs "catalog.svg" w wa eq_refl Hr Hwrote) as [Hra Hda].
  set (wb := {| fs := fs wa;
                console := (console wa ++ [(Log, "Wrote " +:+ outputPath)])%list |}).
  destruct (same_fs_inputs wa wb eq_refl Hra) as [Hrb Hdb].
  assert (Hroot : is_dir wb svgRoot)
    by (destruct Hrb as (names & Hn & _); now exists names).
  destruct (tryWritePng_outcome sharp (render (document_of w)) wb Hout Hroot)
    as [[Hfs Hall]|(convert & png & wc & -> & Hc & Hw & Hpng & _ & Hfs)].
  - destruct (same_fs_inputs wb _ Hfs Hrb) as [Hr1 Hd1].
    split; [exact Hr1|]. rewrite Hd1, Hdb, Hda, Hfs.
    split; [exact Hout|].
    intros convert png Hs Hc. left.
    destruct (Hall convert png Hs Hc) as (es & Hes). exists es. now rewrite Hfs.
  - destruct (wrote_inputs "catalog.png" wb wc eq_refl Hrb Hw) as [Hrc Hdc].
    destruct (same_fs_inputs wc _ Hfs Hrc) as [Hr1 Hd1].
    split; [exact Hr1|]. rewrite Hd1, Hdc, Hdb, Hda, Hfs.
    split.
    + destruct Hw as (Hframe & _). rewrite Hframe; [exact Hout | |].
      * intros E. apply join_inj_name in E. discriminate.
      * apply join_not_root.
    + intros convert' png' [= <-] Hc'. right. congruence.
Qed.

Lemma settled_fixed sharp w :
  settled sharp w ->
  fst (script sharp w) = 0 /\ fs (snd (script sharp w)) = fs w.
Proof.
  intros (Hr & Hout & Hpng).
  assert (Hd : ~ is_dir w outputPath) by (intros (es & Hes); congruence).
  destruct (run_outcome sharp w Hr Hd) as (wa & _ & Houta & Hid & ->).
  split; [reflexivity|]. cbn [snd]. specialize (Hid Hout).
  set (wb := {| fs := fs wa;
                console := (console wa ++ [(Log, "Wrote " +:+ outputPath)])%list |}).
  assert (Hroot : is_dir wb svgRoot).
  { destruct Hr as (names & Hn & _). exists names. cbn [wb fs]. now rewrite Hid. }
  destruct (tryWritePng_outcome sharp (render (document_of w)) wb Houta Hroot)
    as [[Hfs _]|(convert & png & wc & Hs & Hc & Hw & _ & Hsame & Hfs)].
  - now rewrite Hfs.
  - rewrite Hfs, <- Hid. apply Hsame. cbn [wb fs]. rewrite Hid.
    destruct (Hpng convert png Hs Hc) as [(es & Hes)|Hfile]; [|exact Hfile].
    exfalso. destruct Hw as (_ & _ & Hnd & _). apply Hnd.
    exists es. cbn [wb fs]. now rewrite Hid.
Qed.

Lemma build_document_of w d w' :
  build w = (Return d, w') -> readable w /\ d = document_of w.
Proof.
  intros H. pose proof (build_readable _ _ _ H) as Hr. split; [exact Hr|].
  rewrite (readable_build w Hr) in H. now injection H.
Qed.


End Script.
End RerunFacts.

Module RunProps.
Import Str StrFacts Doc IO Sort SortFacts Catalog CatalogSpec CatalogFacts RasterFacts.
Import GridSpec ScriptSpec ScriptFacts RerunFacts.

(** X6: the run ends with the exit code 0 exactly when what it reads is
    there (the root is a directory, its entries that are not hidden exist,
    and in each category the entries ending in [.svg] are files) and the
    path of the catalog is not a directory; the engine plays no part, and
    an entry that is hidden is never looked at. *)
Theorem run_succeeds_iff {P : Platform}
    (sharp : option (string -> option string)) (w : world) :
  fst (script sharp w) = 0 <-> readable w /\ ~ is_dir w outputPath.
Proof. apply script_succeeds_iff. Qed.

(** X7: a run that fails ends with the exit code 1 and has written
    nothing: the file system is as it was, and the console holds one more
    line, the error. *)
Theorem failed_run_writes_nothing {P : Platform}
    (sharp : option (string -> option string)) (w : world) :
  fst (script sharp w) <> 0 ->
  fst (script sharp w) = 1 /\
  exists e,
    snd (script sharp w)
    = {| fs := fs w; console := (console w ++ [(Error, e)])%list |}.
Proof. apply script_failure. Qed.

(** Without the root the run fails, and leaves the empty file system
    empty. *)
Lemma failed_run_writes_nothing_witness :
  fst (script (P := Example.platform) None {| fs := ∅; console := [] |}) = 1 /\
  exists e,
    snd (script (P := Example.platform) None {| fs := ∅; console := [] |})
    = {| fs := ∅; console := [(Error, e)] |}.
Proof.
  apply (failed_run_writes_nothing (P := Example.platform) None
           {| fs := ∅; console := [] |}).
  vm_compute. discriminate.
Defined.

(** X8: a second run after one that succeeded succeeds too and leaves
    every file as the first run left it: the catalog and the PNG that the
    script writes into the root are not taken for input. *)
Theorem second_run_changes_nothing {P : Platform}
    (sharp : option (string -> option string)) (w : world) :
  fst (script sharp w) = 0 ->
  fst (script sharp (snd (script sharp w))) = 0 /\
  fs (snd (script sharp (snd (script sharp w)))) = fs (snd (script sharp w)).
Proof.
  intros H. apply script_succeeds_iff in H as [Hr Hd].
  apply RerunFacts.settled_fixed, RerunFacts.run_settles; assumption.
Qed.

Lemma second_run_changes_nothing_witness :
  fst (script (P := Example.platform) (Some Sample.engine)
         (snd (script (P := Example.platform) (Some Sample.engine)
                 Example.scenario_world))) = 0 /\
  fs (snd (script (P := Example.platform) (Some Sample.engine)
             (snd (script (P := Example.platform) (Some Sample.engine)
                     Example.scenario_world))))
  = fs (snd (script (P := Example.platform) (Some Sample.engine)
               Example.scenario_world)).
Proof.
  apply (second_run_changes_nothing (P := Example.platform)
           (Some Sample.engine) Example.scenario_world).
  vm_compute. reflexivity.
Defined.

(** X9: with an engine that converts the text of the document, a run
    whose inputs are there and whose two output paths are no directories
    ends with the exit code 0, the catalog holding the text of the document
    and the PNG what the engine made of it, and logs the two paths it
    wrote. *)
Theorem run_with_engine {P : Platform} (convert : string -> option string)
    (w : world) (d : document) (w' : world) (png : string) :
  build w = (Return d, w') ->
  convert (render d) = Some png ->
  ~ is_dir w outputPath ->
  ~ is_dir w (join svgRoot "catalog.png") ->
  exists w2,
    script (Some convert) w = (0, w2) /\
    fs w2 !! outputPath = Some (File (render d)) /\
    fs w2 !! join svgRoot "catalog.png" = Some (File png) /\
    console w2
    = (console w ++ [(Log, "Wrote " +:+ outputPath);
                     (Log, "Wrote " +:+ join svgRoot "catalog.png")])%list.
Proof.
  intros Hb Hc Hd1 Hd2.
  apply RerunFacts.build_document_of in Hb as [Hr ->].
  destruct (RerunFacts.writeFileSync_in_root "catalog.svg"
              (render (document_of w)) w)
    as (wa & Hwa & Hca & (Hframe & _ & _ & names & _ & Hroot) & Hout & _);
    [reflexivity | destruct Hr as (names & Hn & _); now exists names | exact Hd1 |].
  set (wb := {| fs := fs wa;
                console := (console wa ++ [(Log, "Wrote " +:+ outputPath)])%list |}).
  destruct (RerunFacts.writeFileSync_in_root "catalog.png" png wb)
    as (wc & Hwc & Hcc & (Hframe2 & _) & Hpng & _); [reflexivity | |  |].
  { destruct Hroot as [Hn|[_ Hn]]; eexists; exact Hn. }
  { intros (es & Hes). apply Hd2. exists es. rewrite <- Hes. cbn [wb fs].
    symmetry. apply Hframe; [|apply RerunFacts.join_not_root].
    intros E. apply join_inj_name in E. discriminate. }
  eexists. split.
  - rewrite script_exit, write_catalog_outcome, (readable_build w Hr).
    fold outputPath in Hwa. rewrite Hwa. fold wb.
    unfold tryWritePng, try_catch, png_attempt, bind, readFileSync.
    replace (fs wb !! outputPath) with (Some (File (render (document_of w)))).
    rewrite Hc, Hwc. reflexivity.
  - cbn [snd print fs console]. split; [|split].
    + rewrite Hframe2; [exact Hout | | apply RerunFacts.join_not_root].
      intros E. apply join_inj_name in E. discriminate.
    + exact Hpng.
    + rewrite Hcc. cbn [wb console]. rewrite Hca, <- List.app_assoc. reflexivity.
Qed.

Lemma run_with_engine_witness :
  exists d w2,
    build (P := Example.platform) Example.scenario_world
      = (Return d, Example.scenario_world) /\
    script (P := Example.platform) (Some Sample.engine) Example.scenario_world
      = (0, w2) /\
    fs w2 !! "/facesjs/svgs/catalog.svg"
      = Some (File (render (P := Example.platform) d)) /\
    fs w2 !! "/facesjs/svgs/catalog.png"
      = Some (File ("PNG of " +:+ render (P := Example.platform) d)) /\
    console w2 = [(Log, "Wrote /facesjs/svgs/catalog.svg");
                  (Log, "Wrote /facesjs/svgs/catalog.png")].
Proof.
  set (d := match fst (build (P := Example.platform) Example.scenario_world)
            with
            | Return d => d
            | Throw _ => {| doc_width := 0; doc_height := 0; doc_chunks := [] |}
            end).
  assert (Hb : build (P := Example.platform) Example.scenario_world
               = (Return d, Example.scenario_world))
    by (vm_compute; reflexivity).
  destruct (run_with_engine (P := Example.platform) Sample.engine
              Example.scenario_world d Example.scenario_world
              ("PNG of " +:+ render (P := Example.platform) d) Hb eq_refl)
    as (w2 & Hs & Hsvg & Hpng & Hcon).
  - intros (es & Hes). vm_compute in Hes. discriminate.
  - intros (es & Hes). vm_compute in Hes. discriminate.
  - exists d, w2. repeat split; assumption.
Defined.

(** X10: whatever a run does, it leaves every path but its two outputs and
    the listing of the root as it found it: no fragment and no category is
    ever modified. *)
Theorem run_keeps_its_inputs {P : Platform}
    (sharp : option (string -> option string)) (w : world) (q : string) :
  q <> outputPath -> q <> join svgRoot "catalog.png" -> q <> svgRoot ->
  fs (snd (script sharp w)) !! q = fs w !! q.
Proof.
  intros Hq1 Hq2 Hq3.
  destruct (Z.eq_dec (fst (script sharp w)) 0) as [E|E].
  - apply script_succeeds_iff in E as [Hr Hd].
    destruct (run_outcome sharp w Hr Hd) as (wa & Hwrote & Hout & _ & ->).
    cbn [snd].
    destruct (wrote_inputs "catalog.svg" w wa eq_refl Hr Hwrote) as [Hra _].
    set (wb := {| fs := fs wa;
                  console := (console wa ++ [(Log, "Wrote " +:+ outputPath)])%list |}).
    assert (Hroot : is_dir wb svgRoot)
      by (destruct Hra as (names & Hn & _); now exists names).
    destruct Hwrote as (Hframe & _).
    destruct (tryWritePng_outcome sharp (render (document_of w)) wb Hout Hroot)
      as [[-> _]|(convert & png & wc & _ & _ & (Hframe2 & _) & _ & _ & ->)].
    + cbn [wb fs]. now apply Hframe.
    + rewrite Hframe2 by assumption. cbn [wb fs]. now apply Hframe.
  - destruct (script_failure sharp w E) as (_ & e & ->). reflexivity.
Qed.

Lemma run_keeps_its_inputs_witness :
  fs (snd (script (P := Example.platform) (Some Sample.engine)
             Example.scenario_world)) !! "/facesjs/svgs/eyes/left.svg"
  = Some (File (Example.fragment "0 0 100 100")).
Proof.
  rewrite (run_keeps_its_inputs (P := Example.platform) (Some Sample.engine)
             Example.scenario_world "/facesjs/svgs/eyes/left.svg");
    [reflexivity | discriminate | discriminate | discriminate].
Defined.

End RunProps.

(** ** The sanitizer and the reader of view boxes *)

Module TextFacts.
Import Str StrFacts RegExp RegExpFacts Sanitizer TextSpec.

Lemma subseq_refl s : subseq s s.
Proof. induction s; constructor; assumption. Qed.

Lemma subseq_trans a b c : subseq a b -> subseq b c -> subseq a c.
Proof.
  intros Hab Hbc. revert a Hab.
  induction Hbc as [|x b c Hbc IH|x b c Hbc IH]; intros a Hab.
  - exact Hab.
  - inversion Hab; subst.
    + constructor. now apply IH.
    + apply subseq_drop. now apply IH.
  - apply subseq_drop. now apply IH.
Qed.

Lemma subseq_app a b c d : subseq a b -> subseq c d -> subseq (a +:+ c) (b +:+ d).
Proof. induction 1; simpl; intros; try constructor; auto. Qed.

Lemma subseq_empty s : subseq "" s.
Proof. induction s; constructor; assumption. Qed.

Lemma subseq_len a b : subseq a b -> (len a <= len b)%nat.
Proof. induction 1; simpl; lia. Qed.

Lemma replace_all_from_subseq r s : forall skip,
  subseq (replace_all_from r skip s) s.
Proof.
  induction s as [|c s IH]; intros skip; simpl; [constructor|].
  destruct skip as [|n]; [|apply subseq_drop, IH].
  destruct (match_at r (String c s)) as [[[|n] cap]|];
    try (apply subseq_keep, IH). apply subseq_drop, IH.
Qed.

Lemma replace_all_subseq r s : subseq (replace_all r s) s.
Proof. apply replace_all_from_subseq. Qed.

Lemma replace_first_subseq r s : subseq (replace_first r "" s) s.
Proof.
  unfold replace_first, exec.
  destruct (search_from r "" s) as [f|] eqn:E; [|apply subseq_refl].
  apply search_from_split in E as [E _]. simpl in E. rewrite E.
  apply subseq_app; [apply subseq_refl|]. simpl.
  rewrite <- (app_nil_r (after f)) at 1.
  replace (after f +:+ "") with ("" +:+ after f) by (simpl; now rewrite app_nil_r).
  apply subseq_app; [apply subseq_empty | apply subseq_refl].
Qed.

End TextFacts.

Module SanitizerProps.
Import Str StrFacts RegExp RegExpFacts Sanitizer TextSpec TextFacts.

(** X11: the sanitizer only deletes: the text that [stripProlog],
    [sanitize] and [extractInner] return, and so the inner markup that is
    embedded, is the text given with some characters left out; nothing is
    added, changed or moved. *)
Theorem sanitizer_only_deletes (svg : string) :
  subseq (stripProlog svg) svg /\
  subseq (sanitize svg) svg /\
  subseq (extractInner svg) svg /\
  subseq (sanitized_inner svg) svg.
Proof.
  assert (H1 : forall s, subseq (stripProlog s) s).
  { intros s. unfold stripProlog.
    repeat (eapply subseq_trans; [apply replace_all_subseq|]).
    apply subseq_refl. }
  assert (H2 : forall s, subseq (sanitize s) s).
  { intros s. unfold sanitize.
    repeat (eapply subseq_trans; [apply replace_all_subseq|]).
    apply subseq_refl. }
  assert (H3 : forall s, subseq (extractInner s) s).
  { intros s. unfold extractInner.
    repeat (eapply subseq_trans; [apply replace_first_subseq|]).
    apply subseq_refl. }
  repeat split; auto.
  unfold sanitized_inner.
  eapply subseq_trans; [apply H3|]. eapply subseq_trans; [apply H2|]. apply H1.
Qed.

End SanitizerProps.

Module UnwrapFacts.
Import Str StrFacts RegExp RegExpFacts Sanitizer ViewBoxSpec ViewBoxFacts.

Lemma upcase_lt c : Ascii.eqb (upcase "<") (upcase c) = Ascii.eqb "<" c.
Proof. destruct c as [[] [] [] [] [] [] [] []]; reflexivity. Qed.

(** A pattern none of whose characters is [x] matches before an [x] only
    where it matches the text before it. *)
Lemma prefix_i_stop x p : forall a rest,
  all (fun c => negb (Ascii.eqb (upcase c) (upcase x))) p = true ->
  prefix_i p (a +:+ String x rest) = prefix_i p a.
Proof.
  induction p as [|y p IH]; intros a rest Hp; [now destruct a|].
  simpl in Hp. apply andb_prop in Hp as [Hy Hp].
  destruct a as [|c a]; simpl.
  - apply negb_true_iff in Hy. now rewrite Hy.
  - now rewrite IH.
Qed.

Lemma match_at_svg_close s :
  match_at re_svg_close s = if prefix_i "</svg>" s then Some (6%nat, None) else None.
Proof.
  unfold match_at, re_svg_close. rewrite run_lit_i.
  destruct (prefix_i "</svg>" s) eqn:E; [|reflexivity].
  destruct s as [|c1 [|c2 [|c3 [|c4 [|c5 [|c6 s]]]]]]; simpl in E;
    rewrite ?andb_false_r in E; try discriminate.
  do 2 f_equal. simpl. f_equal. lia.
Qed.

Lemma match_at_svg_open s :
  match_at re_svg_open s =
  if prefix_i "<svg" s then
    match snd (span (except ">") (drop 4 s)) with
    | String _ r => Some ((len s - len r)%nat, None)
    | EmptyString => None
    end
  else None.
Proof.
  unfold match_at, re_svg_open.
  change (seq [lit_i "<svg"; Star true (except ">"); Chr (only ">")])
    with (Seq (lit_i "<svg") (Seq (Star true (except ">")) (Chr (only ">")))).
  cbn [run]. rewrite run_lit_i.
  destruct (prefix_i "<svg" s); [|reflexivity].
  change (len "<svg") with 4%nat. cbn [run].
  rewrite star_greedy_span.
  - pose proof (span_spec (except ">") (drop 4 s)) as Hs.
    destruct (span (except ">") (drop 4 s)) as [v rest].
    destruct (Hs _ _ eq_refl) as (_ & _ & Hc). cbn [snd].
    destruct rest as [|c r]; [reflexivity|].
    unfold except in Hc. apply negb_false_iff in Hc. unfold only. now rewrite Hc.
  - reflexivity.
  - intros c t Hc. unfold except in Hc. apply negb_true_iff in Hc.
    unfold only. now rewrite Hc.
Qed.

Lemma search_from_None_suffix r a : forall pre b,
  search_from r pre (a +:+ b) = None -> match_at r b = None.
Proof.
  induction a as [|c a IH]; intros pre b H.
  - now apply search_from_None in H as [H _].
  - apply search_from_None in H as [_ H]. simpl in H. eapply IH, H.
Qed.

Lemma all_suffix p a1 a2 : all p (a1 +:+ a2) = true -> all p a2 = true.
Proof. rewrite RootFacts.all_app. intros H. now apply andb_prop in H. Qed.


End UnwrapFacts.

Module ParseFacts.
Import Str StrFacts RegExp RegExpFacts Sanitizer ViewBox ViewBoxSpec ViewBoxFacts.
Import JsNum Doc RootSpec RootFacts.

(** The characters of a match still to pass are dropped. *)
Lemma split_from_drop r g : forall cur c s,
  split_from r (len g) cur (g +:+ String c s) = split_from r 0 cur (String c s).
Proof.
  induction g as [|x g IH]; intros cur c s; [reflexivity|].
  simpl. apply IH.
Qed.

(** A run of white space before a character that is none ends a piece. *)
Lemma split_gap g cur c s :
  g <> "" -> all space g = true -> space c = false ->
  split_from (plus true space) 0 cur (g +:+ String c s)
  = rev cur :: split_from (plus true space) 0 "" (String c s).
Proof.
  intros Hne Hg Hc. destruct g as [|x g]; [congruence|].
  change (String x g +:+ String c s) with (String x (g +:+ String c s)).
  cbn [split_from]. rewrite match_at_spaces.
  change (String x (g +:+ String c s)) with (String x g +:+ String c s).
  rewrite (span_app space (String x g) c s Hg Hc).
  cbn [len String.length]. fold (len g).
  apply (f_equal (cons (rev cur))). apply split_from_drop.
Qed.

(** White space at the head of the text gives an empty first piece. *)
Lemma split_leading g c s :
  g <> "" -> all space g = true -> space c = false ->
  split (plus true space) (g +:+ String c s)
  = "" :: split_from (plus true space) 0 "" (String c s).
Proof.
  intros Hne Hg Hc. unfold split.
  destruct g as [|x g]; [congruence|].
  change (String x g +:+ String c s) with (String x (g +:+ String c s)).
  cbv iota.
  change (String x (g +:+ String c s)) with (String x g +:+ String c s).
  now rewrite split_gap.
Qed.

Lemma split_from_end cur : split_from (plus true space) 0 cur "" = [rev cur].
Proof. reflexivity. Qed.

Lemma digits_head sw :
  all is_digit sw = true -> sw <> "" ->
  exists c s, sw = String c s /\ space c = false.
Proof.
  destruct sw as [|c s]; [congruence|]. intros H _. exists c, s.
  split; [reflexivity|]. simpl in H. apply andb_prop in H as [H _].
  now apply is_digit_not_space.
Qed.

Lemma rev_onto_nil s : rev (rev_onto "" s) = s.
Proof. fold (rev s). apply rev_rev. Qed.

(** Four runs of digits with white space between them. *)
Lemma split_four sa sb sc sd g1 g2 g3 :
  all is_digit sa = true -> sa <> "" -> all is_digit sb = true -> sb <> "" ->
  all is_digit sc = true -> sc <> "" -> all is_digit sd = true -> sd <> "" ->
  g1 <> "" -> all space g1 = true -> g2 <> "" -> all space g2 = true ->
  g3 <> "" -> all space g3 = true ->
  split_from (plus true space) 0 ""
    (sa +:+ g1 +:+ sb +:+ g2 +:+ sc +:+ g3 +:+ sd)
  = [sa; sb; sc; sd].
Proof.
  intros Ha Ha0 Hb Hb0 Hc Hc0 Hd Hd0 H1 G1 H2 G2 H3 G3.
  destruct (digits_head sb Hb Hb0) as (b & sb' & -> & Sb).
  destruct (digits_head sc Hc Hc0) as (c & sc' & -> & Sc).
  destruct (digits_head sd Hd Hd0) as (d & sd' & -> & Sd).
  rewrite split_digits by assumption.
  change (String b sb' +:+ g2 +:+ String c sc' +:+ g3 +:+ String d sd')
    with (String b (sb' +:+ g2 +:+ String c sc' +:+ g3 +:+ String d sd')).
  rewrite split_gap by assumption. rewrite rev_onto_nil.
  change (String b (sb' +:+ g2 +:+ String c sc' +:+ g3 +:+ String d sd'))
    with (String b sb' +:+ g2 +:+ String c sc' +:+ g3 +:+ String d sd').
  rewrite split_digits by assumption.
  change (String c sc' +:+ g3 +:+ String d sd')
    with (String c (sc' +:+ g3 +:+ String d sd')).
  rewrite split_gap by assumption. rewrite rev_onto_nil.
  change (String c (sc' +:+ g3 +:+ String d sd'))
    with (String c sc' +:+ g3 +:+ String d sd').
  rewrite split_digits by assumption.
  rewrite split_gap by assumption. rewrite rev_onto_nil.
  rewrite <- (app_nil_r (String d sd')) at 1.
  rewrite split_digits by assumption.
  rewrite split_from_end, rev_onto_nil. reflexivity.
Qed.

Lemma split_nonempty r c s : split r (String c s) = split_from r 0 "" (String c s).
Proof. reflexivity. Qed.

Lemma parseFloat_empty : parseFloat "" = NaN.
Proof. reflexivity. Qed.

(** A text without white space is one piece. *)
Lemma split_word s : forall cur,
  all (fun c => negb (space c)) s = true ->
  split_from (plus true space) 0 cur s = [rev (rev_onto cur s)].
Proof.
  induction s as [|c s IH]; intros cur H; [reflexivity|].
  simpl in H. apply andb_prop in H as [Hc H]. apply negb_true_iff in Hc.
  rewrite split_step by assumption. now rewrite IH.
Qed.

(** [parseFloat] reads a natural number that a comma follows. *)
Lemma parseFloat_show_int_comma z rest :
  0 <= z -> parseFloat (show_int z +:+ String "," rest) = of_Z z.
Proof.
  intros Hz. destruct (show_int_uint z Hz) as (d & -> & Hv & Hd).
  assert (Hdig : digits 0 0 (NilEmpty.string_of_uint d +:+ String "," rest)
                 = (z, len (NilEmpty.string_of_uint d), String "," rest)).
  { rewrite digits_uint by reflexivity. now rewrite Hv. }
  unfold parseFloat.
  destruct d; try congruence; simpl in Hdig |- *; rewrite Hdig; simpl;
    unfold of_Z; apply of_Q_ext; ring.
Qed.

End ParseFacts.

Module ParseProps.
Import Str StrFacts RegExp RegExpFacts Sanitizer ViewBox ViewBoxSpec ViewBoxFacts.
Import JsNum Doc RootSpec RootFacts ParseFacts UnwrapFacts.

(** X12: of a fragment that is one [svg] element, with text that holds no
    [<] before it, [extractInner] leaves what stands between the tags
    (and around the element), provided no closing tag of an [svg] element
    stands in between. *)
Theorem extractInner_unwraps (pre attrs body post : string) :
  all (except "<") pre = true ->
  all (except ">") attrs = true ->
  exec re_svg_close body = None ->
  extractInner (pre +:+ "<svg" +:+ attrs +:+ ">" +:+ body +:+ "</svg>" +:+ post)
  = pre +:+ body +:+ post.
Proof.
  intros Hpre Hattrs Hbody.
  assert (Hskip : forall r b,
            (forall s, match_at r s <> None -> prefix_i "<" s = true) ->
            forall a1 a2, pre = a1 +:+ a2 -> a2 <> "" ->
                          match_at r (a2 +:+ b) = None).
  { intros r b Hr a1 a2 E Hne.
    destruct (match_at r (a2 +:+ b)) eqn:Em; [|reflexivity].
    assert (Hp : prefix_i "<" (a2 +:+ b) = true) by (apply Hr; congruence).
    rewrite E in Hpre. apply all_suffix in Hpre.
    destruct a2 as [|c a2]; [congruence|].
    cbn [all prefix_i String.append] in Hpre, Hp.
    apply andb_prop in Hpre as [Hc _]. rewrite andb_true_r, upcase_lt in Hp.
    unfold except in Hc. rewrite Hp in Hc. discriminate. }
  unfold extractInner.
  assert (Hopen : replace_first re_svg_open ""
                    (pre +:+ "<svg" +:+ attrs +:+ ">" +:+ body +:+ "</svg>" +:+ post)
                  = pre +:+ body +:+ "</svg>" +:+ post).
  { unfold replace_first, exec. rewrite search_from_skip.
    - set (rest := body +:+ "</svg>" +:+ post).
      rewrite (search_from_here _ _ _ (4 + len attrs + 1)%nat None).
      + cbn [before after]. fold (rev pre). rewrite rev_rev. f_equal.
        assert (E : "<svg" +:+ attrs +:+ ">" +:+ rest
                    = ("<svg" +:+ attrs +:+ ">") +:+ rest)
          by now rewrite !app_assoc.
        rewrite E.
        replace (4 + len attrs + 1)%nat with (len ("<svg" +:+ attrs +:+ ">"))
          by (rewrite !len_app; simpl; lia).
        change ("" +:+ drop (len ("<svg" +:+ attrs +:+ ">"))
                         (("<svg" +:+ attrs +:+ ">") +:+ rest))
          with (drop (len ("<svg" +:+ attrs +:+ ">"))
                  (("<svg" +:+ attrs +:+ ">") +:+ rest)).
        apply drop_app.
      + rewrite match_at_svg_open. simpl prefix_i. simpl drop.
        change (attrs +:+ ">" +:+ rest) with (attrs +:+ String ">" rest).
        rewrite (span_app _ _ ">" rest Hattrs eq_refl). cbn [snd].
        do 2 f_equal. simpl. rewrite len_app. simpl. lia.
    - apply Hskip. intros s Hs. rewrite match_at_svg_open in Hs.
      destruct s as [|c s]; cbn [prefix_i] in *; [congruence|].
      destruct (Ascii.eqb (upcase "<") (upcase c)); [reflexivity|].
      cbn [andb] in Hs. congruence. }
  rewrite Hopen. clear Hopen.
  unfold replace_first, exec. rewrite search_from_skip.
  - rewrite search_from_skip.
    + rewrite (search_from_here _ _ _ 6%nat None)
        by (rewrite match_at_svg_close; reflexivity).
      cbn [before after]. simpl drop. rewrite !rev_onto_app, app_nil_r.
      rewrite rev_app, !rev_rev, app_assoc. reflexivity.
    + intros a1 a2 E Hne. rewrite match_at_svg_close.
      destruct a2 as [|c a2]; [congruence|].
      assert (Hm : match_at re_svg_close (String c a2) = None).
      { unfold exec in Hbody. rewrite E in Hbody.
        eapply search_from_None_suffix, Hbody. }
      rewrite match_at_svg_close in Hm.
      change (prefix_i "</svg>" (String c a2 +:+ "</svg>" +:+ post))
        with (Ascii.eqb (upcase "<") (upcase c)
              && prefix_i "/svg>" (a2 +:+ String "<" ("/svg>" +:+ post))).
      rewrite prefix_i_stop by reflexivity.
      change (Ascii.eqb (upcase "<") (upcase c) && prefix_i "/svg>" a2)
        with (prefix_i "</svg>" (String c a2)).
      destruct (prefix_i "</svg>" (String c a2)); [discriminate | reflexivity].
  - apply Hskip. intros s Hs. rewrite match_at_svg_close in Hs.
    destruct s as [|c s]; cbn [prefix_i] in *; [congruence|].
    destruct (Ascii.eqb (upcase "<") (upcase c)); [reflexivity|].
    cbn [andb] in Hs. congruence.
Qed.

Lemma extractInner_unwraps_witness :
  extractInner (Example.fragment "0 0 100 100") = "<path/>".
Proof.
  apply (extractInner_unwraps ""
           (" viewBox=" +:+ dq +:+ "0 0 100 100" +:+ dq) "<path/>" "");
    reflexivity.
Defined.

(** X13: a view box value of four natural numbers in decimal digits, with
    white space of any kind and length between them, is read as the four
    binary64 numbers nearest to them; and so is the view box of a text
    whose first view box attribute holds such a value.  The number read is
    the natural number itself up to 2^53; 9007199254740993, which is 2^53
    + 1, reads as 2^53. *)
Theorem viewBox_of_naturals (a b c d : Z) (g1 g2 g3 : string) :
  0 <= a -> 0 <= b -> 0 <= c -> 0 <= d ->
  g1 <> "" -> all space g1 = true ->
  g2 <> "" -> all space g2 = true ->
  g3 <> "" -> all space g3 = true ->
  let v := show_int a +:+ g1 +:+ show_int b +:+ g2 +:+ show_int c
           +:+ g3 +:+ show_int d in
  let box := {| minX := Some (of_Z a); minY := Some (of_Z b);
                width := Some (of_Z c); height := Some (of_Z d) |} in
  parse_viewBox v = box /\
  (forall raw pre post,
    viewBox_at raw pre v post ->
    (forall pre' v' post',
       viewBox_at raw pre' v' post' -> (len pre <= len pre')%nat) ->
    extractViewBox raw = box) /\
  (forall n, 0 < n <= 2 ^ 53 -> of_Z n = Fin (inject_Z n)) /\
  of_Z 9007199254740993 = Fin 9007199254740992.
Proof.
  intros Ha Hb Hc Hd H1 G1 H2 G2 H3 G3 v box.
  cut (parse_viewBox v = box /\
       forall raw pre post,
         viewBox_at raw pre v post ->
         (forall pre' v' post',
            viewBox_at raw pre' v' post' -> (len pre <= len pre')%nat) ->
         extractViewBox raw = box).
  { intros [X Y]. split; [exact X|]. split; [exact Y|].
    split; [exact JsNumFacts.of_Z_exact | reflexivity]. }
  assert (Hp : parse_viewBox v = box).
  { destruct (show_int_digits a Ha) as [Da Na].
    destruct (show_int_digits b Hb) as [Db Nb].
    destruct (show_int_digits c Hc) as [Dc Nc].
    destruct (show_int_digits d Hd) as [Dd Nd].
    unfold parse_viewBox, v.
    destruct (show_int a) as [|x sa] eqn:Ea; [congruence|].
    change (String x sa +:+ g1 +:+ show_int b +:+ g2 +:+ show_int c
            +:+ g3 +:+ show_int d)
      with (String x (sa +:+ g1 +:+ show_int b +:+ g2 +:+ show_int c
                      +:+ g3 +:+ show_int d)).
    rewrite split_nonempty.
    change (String x (sa +:+ g1 +:+ show_int b +:+ g2 +:+ show_int c
                      +:+ g3 +:+ show_int d))
      with (String x sa +:+ g1 +:+ show_int b +:+ g2 +:+ show_int c
            +:+ g3 +:+ show_int d).
    rewrite split_four by assumption.
    rewrite <- Ea. cbn [map]. rewrite !parseFloat_show_int by assumption.
    reflexivity. }
  split; [exact Hp|].
  intros raw pre post Hat Hmin. rewrite <- Hp.
  eapply extractViewBox_first; eassumption.
Qed.

Lemma viewBox_of_naturals_witness :
  parse_viewBox ("0" +:+ String "009" " " +:+ "0" +:+ nl +:+ "100" +:+ "  " +:+ "50")
  = {| minX := Some (of_Z 0); minY := Some (of_Z 0);
       width := Some (of_Z 100); height := Some (of_Z 50) |}.
Proof.
  apply (viewBox_of_naturals 0 0 100 50 (String "009" " ") nl "  ");
    try lia; try discriminate; reflexivity.
Defined.

(** X14: the value is not trimmed: when it starts with white space,
    [minX] is NaN, and the numbers that follow are read one place off, the
    first as [minY], each as the binary64 number nearest to it, which is
    the number itself up to 2^53. *)
Theorem viewBox_leading_space_shifts (g : string) :
  g <> "" -> all space g = true ->
  (forall rest, minX (parse_viewBox (g +:+ rest)) = Some NaN) /\
  (forall a b c d,
     0 <= a -> 0 <= b -> 0 <= c -> 0 <= d ->
     parse_viewBox (g +:+ show_int a +:+ " " +:+ show_int b +:+ " "
                    +:+ show_int c +:+ " " +:+ show_int d)
     = {| minX := Some NaN; minY := Some (of_Z a);
          width := Some (of_Z b); height := Some (of_Z c) |}) /\
  (forall n, 0 < n <= 2 ^ 53 -> of_Z n = Fin (inject_Z n)).
Proof.
  intros Hne Hg. split; [|split; [|exact JsNumFacts.of_Z_exact]].
  - intros rest. unfold parse_viewBox.
    destruct g as [|x g]; [congruence|].
    change (String x g +:+ rest) with (String x (g +:+ rest)).
    rewrite split_nonempty. cbn [split_from]. rewrite match_at_spaces.
    simpl in Hg. apply andb_prop in Hg as [Hx Hg].
    cbn [span]. rewrite Hx.
    destruct (span space (g +:+ rest)) as [v r]. reflexivity.
  - intros a b c d Ha Hb Hc Hd.
    destruct (show_int_digits a Ha) as [Da Na].
    destruct (show_int_digits b Hb) as [Db Nb].
    destruct (show_int_digits c Hc) as [Dc Nc].
    destruct (show_int_digits d Hd) as [Dd Nd].
    unfold parse_viewBox.
    destruct (digits_head _ Da Na) as (x & sa & Ea & Sx).
    rewrite Ea.
    change (g +:+ String x sa +:+ " " +:+ show_int b +:+ " "
            +:+ show_int c +:+ " " +:+ show_int d)
      with (g +:+ String x (sa +:+ " " +:+ show_int b +:+ " "
                            +:+ show_int c +:+ " " +:+ show_int d)).
    rewrite split_leading by assumption.
    change (String x (sa +:+ " " +:+ show_int b +:+ " "
                      +:+ show_int c +:+ " " +:+ show_int d))
      with (String x sa +:+ " " +:+ show_int b +:+ " "
            +:+ show_int c +:+ " " +:+ show_int d).
    rewrite <- Ea.
    rewrite split_four by (assumption || discriminate || reflexivity).
    cbn [map]. rewrite !parseFloat_show_int by assumption.
    reflexivity.
Qed.

Lemma viewBox_leading_space_shifts_witness :
  parse_viewBox " 0 0 100 50"
  = {| minX := Some NaN; minY := Some (of_Z 0);
       width := Some (of_Z 0); height := Some (of_Z 100) |}.
Proof.
  apply (proj1 (proj2 (viewBox_leading_space_shifts " " ltac:(discriminate)
                         eq_refl))
           0 0 100 50); lia.
Defined.

(** X15: commas are no separators: of a value that holds no white space
    only the number at its head is read, as the binary64 number nearest to
    it (the number itself up to 2^53), and the other three fields are
    undefined. *)
Theorem viewBox_with_commas (a : Z) (rest : string) :
  0 <= a -> all (fun c => negb (space c)) rest = true ->
  parse_viewBox (show_int a +:+ "," +:+ rest)
  = {| minX := Some (of_Z a); minY := None; width := None; height := None |} /\
  (0 < a <= 2 ^ 53 -> of_Z a = Fin (inject_Z a)).
Proof.
  intros Ha Hrest. split; [|apply JsNumFacts.of_Z_exact].
  destruct (show_int_digits a Ha) as [Da Na].
  unfold parse_viewBox.
  assert (Hw : all (fun c => negb (space c)) (show_int a +:+ "," +:+ rest) = true).
  { rewrite all_app. apply andb_true_intro. split; [|exact Hrest].
    clear Na. induction (show_int a) as [|x s IH]; [reflexivity|].
    simpl in Da |- *. apply andb_prop in Da as [Dx Ds].
    rewrite (is_digit_not_space _ Dx). now apply IH. }
  destruct (digits_head _ Da Na) as (x & sa & Ea & Sx).
  rewrite Ea in Hw |- *.
  change (String x sa +:+ "," +:+ rest) with (String x (sa +:+ "," +:+ rest)).
  rewrite split_nonempty, split_word
    by (change (String x (sa +:+ "," +:+ rest))
          with (String x sa +:+ "," +:+ rest); exact Hw).
  rewrite rev_onto_nil.
  change (String x (sa +:+ "," +:+ rest)) with (String x sa +:+ "," +:+ rest).
  rewrite <- Ea. cbn [map].
  change (show_int a +:+ "," +:+ rest) with (show_int a +:+ String "," rest).
  rewrite parseFloat_show_int_comma by assumption. reflexivity.
Qed.

Lemma viewBox_with_commas_witness :
  parse_viewBox "0,0,100,50"
  = {| minX := Some (of_Z 0); minY := None; width := None; height := None |}.
Proof. apply (viewBox_with_commas 0 "0,100,50"); [lia | reflexivity]. Defined.

End ParseProps.

(** ** The replacement of feature ids, once more *)

Module CopyFacts.
Import Face FaceSpec FaceFacts.

Lemma repr_depth_both h :
  (forall v t F, repr h v t F -> (depth t <= size F)%nat) /\
  (forall o fs F, repr_fields h o fs F -> (depth_fields fs <= size F)%nat).
Proof.
  apply repr_both; intros; simpl.
  - lia.
  - rewrite size_union by set_solver. rewrite size_singleton. lia.
  - lia.
  - rewrite size_union by assumption. lia.
Qed.

(** A tree that the store holds is read with the fuel of the store. *)
Lemma repr_read_size h v t F :
  repr h v t F -> read (S (size h)) h v = Some t.
Proof.
  intros H. apply (read_mono h (depth t)); [|now apply (repr_read h v t F)].
  pose proof (proj1 (repr_depth_both h) _ _ _ H).
  pose proof (proj1 (repr_dom_both h) _ _ _ H) as Hsub.
  apply subseteq_size in Hsub. rewrite size_dom in Hsub. lia.
Qed.

(** *** The loop on trees *)

Lemma tset_tset k a b fs : tset k a (tset k b fs) = tset k a fs.
Proof.
  induction fs as [|k' t rest IH]; simpl.
  - now rewrite String.eqb_refl.
  - destruct (String.eqb k k') eqn:E; simpl.
    + now rewrite String.eqb_refl.
    + now rewrite E, IH.
Qed.

Lemma tset_comm k1 k2 a b fs :
  k1 <> k2 -> tget k1 fs <> None -> tget k2 fs <> None ->
  tset k2 b (tset k1 a fs) = tset k1 a (tset k2 b fs).
Proof.
  intros Hne. induction fs as [|k t rest IH]; simpl; [congruence|].
  intros H1 H2.
  assert (E12 : String.eqb k1 k2 = false) by now apply String.eqb_neq.
  assert (E21 : String.eqb k2 k1 = false)
    by (apply String.eqb_neq; congruence).
  destruct (String.eqb k1 k) eqn:E1, (String.eqb k2 k) eqn:E2.
  - apply String.eqb_eq in E1, E2. congruence.
  - apply String.eqb_eq in E1 as <-. simpl.
    rewrite E21, String.eqb_refl. reflexivity.
  - apply String.eqb_eq in E2 as <-. simpl.
    rewrite E12, String.eqb_refl. reflexivity.
  - simpl. rewrite E1, E2. now rewrite IH.
Qed.

Lemma tget_tset_other k k' t fs : k <> k' -> tget k' (tset k t fs) = tget k' fs.
Proof. apply tget_tset_ne. Qed.

Lemma replace_one_tree_twice fs e :
  replace_one_tree (replace_one_tree fs e) e = replace_one_tree fs e.
Proof.
  destruct e as [k p]. unfold replace_one_tree.
  destruct (negb (truthy_prim p)); [reflexivity|].
  destruct (tget k fs) as [[q|sub]|] eqn:E; rewrite ?E; try reflexivity.
  now rewrite tget_tset_eq, !tset_tset.
Qed.

Lemma replace_one_tree_comm fs k1 p1 k2 p2 :
  k1 <> k2 ->
  replace_one_tree (replace_one_tree fs (k1, p1)) (k2, p2)
  = replace_one_tree (replace_one_tree fs (k2, p2)) (k1, p1).
Proof.
  intros Hne. unfold replace_one_tree.
  destruct (negb (truthy_prim p1)), (negb (truthy_prim p2)); try reflexivity.
  destruct (tget k1 fs) as [[q1|sub1]|] eqn:E1;
    destruct (tget k2 fs) as [[q2|sub2]|] eqn:E2;
    rewrite ?E1, ?E2, ?tget_tset_ne, ?E1, ?E2 by congruence; try reflexivity.
  apply tset_comm; congruence.
Qed.

Lemma replace_all_tree_comm r : forall fs k p,
  ~ In k (map fst r) ->
  replace_one_tree (fold_left replace_one_tree r fs) (k, p)
  = fold_left replace_one_tree r (replace_one_tree fs (k, p)).
Proof.
  induction r as [|[k' p'] r IH]; intros fs k p Hk; [reflexivity|].
  cbn [fold_left]. rewrite IH by (simpl in Hk; tauto).
  f_equal. apply replace_one_tree_comm. simpl in Hk. intros ->. tauto.
Qed.

Lemma replace_all_tree_twice r : forall fs,
  NoDup (map fst r) ->
  fold_left replace_one_tree r (fold_left replace_one_tree r fs)
  = fold_left replace_one_tree r fs.
Proof.
  induction r as [|[k p] r IH]; intros fs Hnd; [reflexivity|].
  cbn [fold_left]. inversion Hnd as [|? ? Hk Hnd']; subst.
  rewrite replace_all_tree_comm by (now rewrite <- list_elem_of_In).
  rewrite replace_one_tree_twice. now apply IH.
Qed.

Lemma replace_all_tree_perm r r' :
  Permutation r r' -> NoDup (map fst r) ->
  forall fs, fold_left replace_one_tree r fs = fold_left replace_one_tree r' fs.
Proof.
  induction 1 as [|e r r' Hp IH|[k1 p1] [k2 p2] r|r r' r'' H1 IH1 H2 IH2];
    intros Hnd fs.
  - reflexivity.
  - cbn [fold_left]. apply IH. now inversion Hnd.
  - cbn [fold_left]. f_equal. apply replace_one_tree_comm.
    cbn [map fst] in Hnd. inversion Hnd as [|? ? Hk _]; subst.
    intros ->. apply Hk. now left.
  - rewrite IH1 by assumption. apply IH2.
    assert (Hp : Permutation (map fst r) (map fst r'))
      by now apply Permutation_map.
    now rewrite <- Hp.
Qed.

(** *** What a call leaves *)

Lemma replaceFeatureIds_repr deepCopy h face fs r :
  deep_copy deepCopy ->
  read (S (size h)) h (Ref face) = Some (Node fs) ->
  exists n h' F,
    replaceFeatureIds deepCopy h face r = Some (Ref n, h') /\
    repr h' (Ref n) (Node (fold_left replace_one_tree r fs)) F /\
    F ## dom h /\
    (forall l o, h !! l = Some o -> h' !! l = Some o).
Proof.
  intros Hcopy Hread.
  destruct (Hcopy _ _ _ Hread) as (next & h1 & F & Hdc & Hsub & Hr & Hd).
  unfold replaceFeatureIds. rewrite Hdc.
  inversion Hr as [|n o fs0 F0 Hn Hf Hnot]; subst.
  destruct (replace_all_repr r _ _ _ _ Hr) as (F' & Hr' & Hs' & Heq).
  exists n, (fold_left (replace_one (Ref n)) r h1), F'.
  split; [reflexivity|]. split; [exact Hr'|]. split; [set_solver|].
  intros l o' Hl. rewrite Heq.
  - eapply lookup_weaken; eassumption.
  - apply elem_of_dom_2 in Hl. set_solver.
Qed.

Lemma read_root_node h n face t :
  read (S n) h (Ref face) = Some t -> exists fs, t = Node fs.
Proof.
  simpl. destruct (h !! face); [|discriminate].
  destruct (read_fields _ _); [|discriminate]. intros [= <-]. eauto.
Qed.

End CopyFacts.

Module FaceProps.
Import Face FaceSpec FaceFacts CopyFacts.

(** X16: [replaceFeatureIds] is idempotent: on the face it returned, the
    same replacements (an object's entries, so with distinct features) give
    a face that reads as the same tree, in a new object. *)
Theorem replaceFeatureIds_twice
    (deepCopy : gmap loc object -> val -> option (val * gmap loc object))
    (h : gmap loc object) (face : loc) (t : tree) (r : replacements) :
  deep_copy deepCopy ->
  read (S (size h)) h (Ref face) = Some t ->
  NoDup (map fst r) ->
  exists n h1 t1 n2 h2,
    replaceFeatureIds deepCopy h face r = Some (Ref n, h1) /\
    read (S (size h1)) h1 (Ref n) = Some t1 /\
    replaceFeatureIds deepCopy h1 n r = Some (Ref n2, h2) /\
    h1 !! n2 = None /\
    read (S (size h2)) h2 (Ref n2) = Some t1.
Proof.
  intros Hcopy Hread Hnd.
  destruct (read_root_node _ _ _ _ Hread) as (fs & ->).
  destruct (replaceFeatureIds_repr deepCopy h face fs r Hcopy Hread)
    as (n & h1 & F & Hrun & Hrepr & _ & _).
  pose proof (repr_read_size _ _ _ _ Hrepr) as Hread1.
  destruct (replaceFeatureIds_repr deepCopy h1 n _ r Hcopy Hread1)
    as (n2 & h2 & F2 & Hrun2 & Hrepr2 & Hnew2 & _).
  rewrite replace_all_tree_twice in Hrepr2 by assumption.
  exists n, h1, (Node (fold_left replace_one_tree r fs)), n2, h2.
  split; [exact Hrun|]. split; [exact Hread1|]. split; [exact Hrun2|].
  split; [|now apply (repr_read_size _ _ _ F2)].
  apply not_elem_of_dom. inversion Hrepr2; subst. set_solver.
Qed.

Lemma replaceFeatureIds_twice_witness :
  exists n h1 t1 n2 h2,
    replaceFeatureIds structural_clone Example.face_store 1%positive
      Example.some_replacements = Some (Ref n, h1) /\
    read (S (size h1)) h1 (Ref n) = Some t1 /\
    replaceFeatureIds structural_clone h1 n Example.some_replacements
      = Some (Ref n2, h2) /\
    h1 !! n2 = None /\
    read (S (size h2)) h2 (Ref n2) = Some t1.
Proof.
  set (t := match read (S (size Example.face_store)) Example.face_store
                    (Ref 1%positive) with
            | Some t => t
            | None => Leaf PUndefined
            end).
  apply (replaceFeatureIds_twice structural_clone Example.face_store
           1%positive t Example.some_replacements).
  - apply structural_clone_deep_copy.
  - vm_compute. reflexivity.
  - apply (bool_decide_unpack _). vm_compute. exact I.
Defined.

(** X17: the face that [replaceFeatureIds] returns shares no object with
    what it was given: with a [deepCopy] that is a deep copy, every object
    under the returned face, at any depth, is one the given store did not
    hold, and none is used twice. *)
Theorem replaceFeatureIds_shares_nothing
    (deepCopy : gmap loc object -> val -> option (val * gmap loc object))
    (h : gmap loc object) (face : loc) (t : tree) (r : replacements) :
  deep_copy deepCopy ->
  read (S (size h)) h (Ref face) = Some t ->
  exists n h' t' F,
    replaceFeatureIds deepCopy h face r = Some (Ref n, h') /\
    read (S (size h')) h' (Ref n) = Some t' /\
    repr h' (Ref n) t' F /\
    forall l, l ∈ F -> h !! l = None.
Proof.
  intros Hcopy Hread.
  destruct (read_root_node _ _ _ _ Hread) as (fs & ->).
  destruct (replaceFeatureIds_repr deepCopy h face fs r Hcopy Hread)
    as (n & h1 & F & Hrun & Hrepr & Hnew & _).
  exists n, h1, (Node (fold_left replace_one_tree r fs)), F.
  split; [exact Hrun|]. split; [now apply (repr_read_size _ _ _ F)|].
  split; [exact Hrepr|].
  intros l Hl. apply not_elem_of_dom. set_solver.
Qed.

Lemma replaceFeatureIds_shares_nothing_witness :
  exists n h' t' F,
    replaceFeatureIds structural_clone Example.face_store 1%positive
      Example.some_replacements = Some (Ref n, h') /\
    read (S (size h')) h' (Ref n) = Some t' /\
    repr h' (Ref n) t' F /\
    forall l, l ∈ F -> Example.face_store !! l = None.
Proof.
  set (t := match read (S (size Example.face_store)) Example.face_store
                    (Ref 1%positive) with
            | Some t => t
            | None => Leaf PUndefined
            end).
  apply (replaceFeatureIds_shares_nothing structural_clone Example.face_store
           1%positive t Example.some_replacements).
  - apply structural_clone_deep_copy.
  - vm_compute. reflexivity.
Defined.

(** X18: replacements that do not apply leave a plain copy: when every
    replacement id is falsy or names a feature of the face that is no
    object (or no feature at all), as when there is no replacement, the face
    returned is a new object that reads as the tree of the face given. *)
Theorem replaceFeatureIds_plain_copy
    (deepCopy : gmap loc object -> val -> option (val * gmap loc object))
    (h : gmap loc object) (face : loc) (fs : fields) (r : replacements) :
  deep_copy deepCopy ->
  read (S (size h)) h (Ref face) = Some (Node fs) ->
  (forall k p, In (k, p) r ->
     truthy_prim p = false \/ forall sub, tget k fs <> Some (Node sub)) ->
  exists n h',
    replaceFeatureIds deepCopy h face r = Some (Ref n, h') /\
    h !! n = None /\
    read (S (size h')) h' (Ref n) = Some (Node fs).
Proof.
  intros Hcopy Hread Hr.
  destruct (replaceFeatureIds_repr deepCopy h face fs r Hcopy Hread)
    as (n & h1 & F & Hrun & Hrepr & Hnew & _).
  assert (E : fold_left replace_one_tree r fs = fs).
  { clear -Hr. induction r as [|[k p] r IH]; [reflexivity|].
    cbn [fold_left].
    assert (E1 : replace_one_tree fs (k, p) = fs).
    { unfold replace_one_tree.
      destruct (Hr k p (or_introl eq_refl)) as [Hp|Hk].
      - now rewrite Hp.
      - destruct (negb (truthy_prim p)); [reflexivity|].
        destruct (tget k fs) as [[q|sub]|] eqn:Et; try reflexivity.
        now contradiction (Hk sub). }
    rewrite E1. apply IH. intros k' p' Hin. apply Hr. now right. }
  rewrite E in Hrepr.
  exists n, h1. split; [exact Hrun|].
  split; [|now apply (repr_read_size _ _ _ F)].
  apply not_elem_of_dom. inversion Hrepr; subst. set_solver.
Qed.

Lemma replaceFeatureIds_plain_copy_witness :
  exists n h',
    replaceFeatureIds structural_clone Example.face_store 1%positive
      [("eye", PStr ""); ("fatness", PStr "x"); ("nose", PStr "nose2")]
    = Some (Ref n, h') /\
    Example.face_store !! n = None /\
    read (S (size h')) h' (Ref n)
    = read (S (size Example.face_store)) Example.face_store (Ref 1%positive).
Proof.
  assert (Hread : exists fs,
            read (S (size Example.face_store)) Example.face_store
              (Ref 1%positive) = Some (Node fs) /\
            tget "fatness" fs = Some (Leaf (PNum (JsNum.Fin (1 # 2)))) /\
            tget "nose" fs = None).
  { eexists. split; [vm_compute; reflexivity|]. split; reflexivity. }
  destruct Hread as (fs & Hread & Hfat & Hnose).
  destruct (replaceFeatureIds_plain_copy structural_clone Example.face_store
              1%positive fs
              [("eye", PStr ""); ("fatness", PStr "x"); ("nose", PStr "nose2")])
    as (n & h' & Hrun & Hnew & Hr).
  - apply structural_clone_deep_copy.
  - exact Hread.
  - intros k p [[= <- <-]|[[= <- <-]|[[= <- <-]|[]]]].
    + now left.
    + right. intros sub. rewrite Hfat. discriminate.
    + right. intros sub. rewrite Hnose. discriminate.
  - exists n, h'. rewrite Hread. auto.
Defined.

(** X19: the order of the replacements does not matter: two lists of
    replacements with the same entries, each feature named once, give faces
    that read as the same tree. *)
Theorem replaceFeatureIds_any_order
    (deepCopy : gmap loc object -> val -> option (val * gmap loc object))
    (h : gmap loc object) (face : loc) (t : tree) (r r' : replacements) :
  deep_copy deepCopy ->
  read (S (size h)) h (Ref face) = Some t ->
  NoDup (map fst r) -> Permutation r r' ->
  exists n h1 h2 t',
    replaceFeatureIds deepCopy h face r = Some (Ref n, h1) /\
    replaceFeatureIds deepCopy h face r' = Some (Ref n, h2) /\
    read (S (size h1)) h1 (Ref n) = Some t' /\
    read (S (size h2)) h2 (Ref n) = Some t'.
Proof.
  intros Hcopy Hread Hnd Hperm.
  destruct (read_root_node _ _ _ _ Hread) as (fs & ->).
  destruct (replaceFeatureIds_repr deepCopy h face fs r Hcopy Hread)
    as (n & h1 & F & Hrun & Hrepr & _ & _).
  destruct (replaceFeatureIds_repr deepCopy h face fs r' Hcopy Hread)
    as (n' & h2 & F' & Hrun' & Hrepr' & _ & _).
  assert (n' = n) as ->.
  { unfold replaceFeatureIds in Hrun, Hrun'.
    destruct (deepCopy h (Ref face)) as [[next hc]|]; [|discriminate].
    injection Hrun as -> _. now injection Hrun' as -> _. }
  rewrite <- (replace_all_tree_perm r r' Hperm Hnd) in Hrepr'.
  exists n, h1, h2, (Node (fold_left replace_one_tree r fs)).
  split; [exact Hrun|]. split; [exact Hrun'|].
  split; [now apply (repr_read_size _ _ _ F) | now apply (repr_read_size _ _ _ F')].
Qed.

Lemma replaceFeatureIds_any_order_witness :
  exists n h1 h2 t',
    replaceFeatureIds structural_clone Example.face_store 1%positive
      [("hair", PStr "afro"); ("eye", PStr "eye9")] = Some (Ref n, h1) /\
    replaceFeatureIds structural_clone Example.face_store 1%positive
      [("eye", PStr "eye9"); ("hair", PStr "afro")] = Some (Ref n, h2) /\
    read (S (size h1)) h1 (Ref n) = Some t' /\
    read (S (size h2)) h2 (Ref n) = Some t'.
Proof.
  set (t := match read (S (size Example.face_store)) Example.face_store
                    (Ref 1%positive) with
            | Some t => t
            | None => Leaf PUndefined
            end).
  apply (replaceFeatureIds_any_order structural_clone Example.face_store
           1%positive t).
  - apply structural_clone_deep_copy.
  - vm_compute. reflexivity.
  - apply (bool_decide_unpack _). vm_compute. exact I.
  - apply perm_swap.
Defined.

End FaceProps.

(** ** The copy script *)

Module CopyScriptFacts.
Import Str StrFacts IO CatalogSpec CatalogFacts ScriptSpec ScriptFacts RerunFacts CopyScript.

Section Script.
Variable root : string.

Lemma src_not_dest : src root <> dest root.
Proof.
  unfold src, dest, destDir, join. rewrite !app_assoc.
  intros H. apply app_inv_head_string in H. discriminate.
Qed.

Lemma src_not_destDir : src root <> destDir root.
Proof.
  unfold src, destDir, join. rewrite !app_assoc.
  intros H. apply app_inv_head_string in H. discriminate.
Qed.

Lemma src_not_root : src root <> root.
Proof.
  unfold src. intros H. apply (f_equal len) in H. unfold join in H.
  rewrite !len_app in H. simpl in H. lia.
Qed.

Lemma dest_not_destDir : dest root <> destDir root.
Proof. apply join_not_root. Qed.

Lemma dest_not_root : dest root <> root.
Proof.
  unfold dest, destDir. intros H. apply (f_equal len) in H. unfold join in H.
  rewrite !len_app in H. simpl in H. lia.
Qed.

Lemma destDir_not_root : destDir root <> root.
Proof. apply join_not_root. Qed.

(** Making the build directory under a root that is a directory. *)
Lemma mkdir_destDir w entries :
  fs w !! destDir root = None ->
  fs w !! root = Some (Dir entries) ->
  mkdirSync_recursive (destDir root) w
  = (Return tt,
     {| fs := <[destDir root := Dir []]>
                (<[root := Dir (entries ++ ["build"])%list]> (fs w));
        console := console w |}).
Proof.
  intros Hd Hr. unfold mkdirSync_recursive.
  assert (Hf : exists n, String.length (destDir root) = S n).
  { unfold destDir, join. fold (len (root +:+ "/" +:+ "build")).
    rewrite !len_app. simpl. exists (len root + 5)%nat. lia. }
  destruct Hf as (n & ->). cbn [mkdir_recursive]. rewrite Hd.
  unfold destDir at 1. rewrite split_path_join by reflexivity.
  assert (Hroot : mkdir_recursive n root w = (Return tt, w))
    by (destruct n; simpl; now rewrite Hr).
  rewrite Hroot, Hr. reflexivity.
Qed.

Lemma mkdir_recursive_dir fuel path w w1 :
  mkdir_recursive fuel path w = (Return tt, w1) -> is_dir w1 path.
Proof.
  destruct fuel as [|fuel]; cbn [mkdir_recursive];
    destruct (fs w !! path) as [[c|es]|] eqn:E; try discriminate;
    try (intros [= <-]; now exists es).
  destruct (split_path path) as [[dir name]|]; [|discriminate].
  destruct (mkdir_recursive fuel dir w) as [[[]|e] w'];  [|discriminate].
  destruct (fs w' !! dir) as [[c|es]|]; try discriminate.
  intros [= <-]. exists []. cbn [fs]. apply lookup_insert_eq.
Qed.

(** What writing a file leaves of the other paths. *)
Lemma writeFileSync_Return path content w w1 :
  writeFileSync path content w = (Return tt, w1) ->
  fs w1 !! path = Some (File content) /\
  console w1 = console w /\
  (forall q, q <> path ->
             (forall dir name, split_path path = Some (dir, name) -> q <> dir) ->
             fs w1 !! q = fs w !! q) /\
  (forall q, is_Some (fs w !! q) -> is_Some (fs w1 !! q)).
Proof.
  unfold writeFileSync.
  destruct (fs w !! path) as [[c|es]|] eqn:E; try discriminate.
  - intros [= <-]. cbn [fs console]. rewrite lookup_insert_eq.
    repeat split.
    + intros q Hq _. now rewrite lookup_insert_ne.
    + intros q Hq. destruct (decide (path = q)) as [<-|N].
      * rewrite lookup_insert_eq. eauto.
      * now rewrite lookup_insert_ne.
  - destruct (split_path path) as [[dir name]|]; [|discriminate].
    destruct (fs w !! dir) as [[c|es]|]; try discriminate.
    intros [= <-]. cbn [fs console]. rewrite lookup_insert_eq.
    repeat split.
    + intros q Hq Hd.
      rewrite !lookup_insert_ne; [reflexivity | |congruence].
      intros E'. now apply (Hd dir name).
    + intros q Hq. destruct (decide (path = q)) as [<-|N].
      * rewrite lookup_insert_eq. eauto.
      * rewrite lookup_insert_ne by exact N.
        destruct (decide (dir = q)) as [<-|N'].
        -- rewrite lookup_insert_eq. eauto.
        -- now rewrite lookup_insert_ne.
Qed.

(** What a run that returns leaves. *)
Lemma script_Return w w1 :
  script root w = (Return tt, w1) ->
  exists content,
    fs w1 !! src root = Some (File content) /\
    fs w1 !! dest root = Some (File content) /\
    is_Some (fs w1 !! destDir root).
Proof.
  unfold script. intros H.
  apply bind_Return in H as (present & w0 & Hp & H).
  apply bind_Return in H as ([] & wm & Hm & H).
  apply bind_Return in H as ([] & wx & Hc & H).
  unfold print in H. injection H as <-. cbn [fs].
  unfold copyFileSync in Hc.
  apply bind_Return in Hc as (content & wr & Hr & Hw).
  pose proof (pure_readFileSync _ _ _ _ Hr) as ->.
  unfold readFileSync in Hr.
  destruct (fs wm !! src root) as [[c|es]|] eqn:Es; try discriminate.
  injection Hr as ->.
  apply writeFileSync_Return in Hw as (Hd & _ & Hframe & Hmono).
  assert (Hsplit : split_path (dest root)
                   = Some (destDir root, "faces_descriptions.json"))
    by (unfold dest; now rewrite split_path_join).
  exists content. split; [|split; [exact Hd|]].
  - rewrite Hframe; [exact Es | apply src_not_dest|].
    intros dir name E. rewrite Hsplit in E. injection E as <- _.
    apply src_not_destDir.
  - apply Hmono. unfold existsSync in Hp.
    destruct (fs w !! destDir root) as [nd|] eqn:Ed; injection Hp as <- <-.
    + cbn [negb] in Hm. injection Hm as <-. rewrite Ed. eauto.
    + cbn [negb] in Hm. apply mkdir_recursive_dir in Hm as (es & ->). eauto.
Qed.

End Script.
End CopyScriptFacts.

Module CopyProps.
Import Str StrFacts IO CatalogSpec CatalogFacts ScriptSpec ScriptFacts RerunFacts.
Import CopyScript CopyScriptFacts.

(** X20: when the description file is there, the root is a directory, the
    build directory is one or is missing, and the destination is no
    directory, the copy script returns: the destination then holds the
    content of the description file, which is still in its place, the build
    directory exists, the console has the line that names the destination,
    and no path but the destination, the build directory and the listing of
    the root has changed. *)
Theorem copy_script_copies (root : string) (w : world) (content : string) :
  fs w !! src root = Some (File content) ->
  is_dir w root ->
  fs w !! destDir root = None \/ is_dir w (destDir root) ->
  ~ is_dir w (dest root) ->
  exists w',
    script root w = (Return tt, w') /\
    fs w' !! dest root = Some (File content) /\
    fs w' !! src root = Some (File content) /\
    is_dir w' (destDir root) /\
    console w'
    = (console w ++ [(Log, "Copied faces_descriptions.json to " +:+ dest root)])%list /\
    forall q, q <> dest root -> q <> destDir root -> q <> root ->
              fs w' !! q = fs w !! q.
Proof.
  intros Hsrc (entries & Hroot) Hdir Hdest.
  pose proof (src_not_dest root) as N1. pose proof (src_not_destDir root) as N2.
  pose proof (src_not_root root) as N3. pose proof (dest_not_destDir root) as N4.
  pose proof (dest_not_root root) as N5. pose proof (destDir_not_root root) as N6.
  unfold script, existsSync, copyFileSync, bind at 1.
  destruct Hdir as [Hnone|(es & Hes)].
  - rewrite Hnone. cbn [negb]. unfold bind at 1.
    rewrite (mkdir_destDir root w entries Hnone Hroot).
    unfold bind at 1. unfold bind at 1. unfold readFileSync at 1. cbn [fs].
    rewrite !lookup_insert_ne by congruence. rewrite Hsrc.
    unfold writeFileSync. cbn [fs console].
    rewrite (lookup_insert_ne _ (destDir root) (dest root)) by congruence.
    rewrite (lookup_insert_ne _ root (dest root)) by congruence.
    destruct (fs w !! dest root) as [[c|es]|] eqn:Ed.
    + eexists. split; [reflexivity|]. cbn [fs console].
      rewrite lookup_insert_eq, !lookup_insert_ne, Hsrc by congruence.
      repeat split.
      * unfold is_dir. cbn [fs]. rewrite lookup_insert_ne by congruence.
        rewrite ?lookup_insert_eq; eauto.
      * intros q Q1 Q2 Q3. now rewrite !lookup_insert_ne by congruence.
    + exfalso. apply Hdest. now exists es.
    + unfold dest at 1. rewrite split_path_join by reflexivity.
      rewrite lookup_insert_eq.
      eexists. split; [reflexivity|]. cbn [fs console].
      rewrite lookup_insert_eq, !lookup_insert_ne, Hsrc by congruence.
      repeat split.
      * unfold is_dir. cbn [fs]. rewrite lookup_insert_ne by congruence.
        rewrite ?lookup_insert_eq; eauto.
      * intros q Q1 Q2 Q3. now rewrite !lookup_insert_ne by congruence.
  - rewrite Hes. cbn [negb]. unfold bind at 1. unfold ret at 1.
    unfold bind at 1. unfold bind at 1. unfold readFileSync at 1.
    rewrite Hsrc. unfold writeFileSync.
    destruct (fs w !! dest root) as [[c|es']|] eqn:Ed.
    + eexists. split; [reflexivity|]. cbn [fs console].
      rewrite lookup_insert_eq, !lookup_insert_ne, Hsrc by congruence.
      repeat split.
      * unfold is_dir. cbn [fs]. rewrite lookup_insert_ne by congruence.
        rewrite ?lookup_insert_eq; eauto.
      * intros q Q1 Q2 Q3. now rewrite !lookup_insert_ne by congruence.
    + exfalso. apply Hdest. now exists es'.
    + unfold dest at 1. rewrite split_path_join by reflexivity. rewrite Hes.
      eexists. split; [reflexivity|]. cbn [fs console].
      rewrite lookup_insert_eq, !lookup_insert_ne, Hsrc by congruence.
      repeat split.
      * unfold is_dir. cbn [fs]. rewrite lookup_insert_ne by congruence.
        rewrite ?lookup_insert_eq; eauto.
      * intros q Q1 Q2 Q3. now rewrite !lookup_insert_ne by congruence.
Qed.

Lemma copy_script_copies_witness :
  exists w',
    script "/facesjs" CopySample.fresh_checkout = (Return tt, w') /\
    fs w' !! "/facesjs/build/faces_descriptions.json" = Some (File "{}") /\
    fs w' !! "/facesjs/svgs/faces_descriptions.json" = Some (File "{}") /\
    is_dir w' "/facesjs/build" /\
    console w'
    = [(Log, "Copied faces_descriptions.json to /facesjs/build/faces_descriptions.json")].
Proof.
  destruct (copy_script_copies "/facesjs" CopySample.fresh_checkout "{}")
    as (w' & Hrun & Hd & Hs & Hdir & Hc & _).
  - reflexivity.
  - eexists. reflexivity.
  - left. reflexivity.
  - intros (es & Hes). vm_compute in Hes. discriminate.
  - exists w'. repeat split; assumption.
Defined.

(** X21: the copy script is idempotent: after a run that returned, a
    second run returns too and leaves every file and directory as the
    first one left it. *)
Theorem copy_script_twice (root : string) (w w1 : world) :
  script root w = (Return tt, w1) ->
  exists w2, script root w1 = (Return tt, w2) /\ fs w2 = fs w1.
Proof.
  intros H. apply script_Return in H as (content & Hs & Hd & (nd & Hdir)).
  unfold script, existsSync, copyFileSync, bind, readFileSync, writeFileSync.
  rewrite Hdir. cbn [negb ret]. rewrite Hs, Hd.
  eexists. split; [reflexivity|]. cbn [fs print snd]. now apply insert_id.
Qed.

Lemma copy_script_twice_witness :
  exists w1 w2,
    script "/facesjs" CopySample.fresh_checkout = (Return tt, w1) /\
    script "/facesjs" w1 = (Return tt, w2) /\ fs w2 = fs w1.
Proof.
  set (w1 := snd (script "/facesjs" CopySample.fresh_checkout)).
  assert (H1 : script "/facesjs" CopySample.fresh_checkout = (Return tt, w1))
    by (vm_compute; reflexivity).
  destruct (copy_script_twice "/facesjs" CopySample.fresh_checkout w1 H1)
    as (w2 & H2 & Hfs).
  exists w1, w2. auto.
Defined.

(** X22: a failed copy leaves the build directory behind: when the
    description file is missing and the build directory too, under a root
    that is a directory, the script throws after it has made the build
    directory and listed it in the root; the description file is still
    missing. *)
Theorem copy_script_fails_after_mkdir (root : string) (w : world)
    (entries : list string) :
  fs w !! src root = None ->
  fs w !! destDir root = None ->
  fs w !! root = Some (Dir entries) ->
  exists e w1,
    script root w = (Throw e, w1) /\
    fs w1 !! destDir root = Some (Dir []) /\
    fs w1 !! root = Some (Dir (entries ++ ["build"])%list) /\
    fs w1 !! dest root = fs w !! dest root /\
    console w1 = console w.
Proof.
  intros Hsrc Hdir Hroot.
  pose proof (src_not_destDir root) as N2. pose proof (src_not_root root) as N3.
  pose proof (dest_not_destDir root) as N4. pose proof (dest_not_root root) as N5.
  pose proof (destDir_not_root root) as N6.
  unfold script, existsSync, copyFileSync, bind at 1. rewrite Hdir. cbn [negb].
  unfold bind at 1. rewrite (mkdir_destDir root w entries Hdir Hroot).
  unfold bind at 1. unfold bind at 1. unfold readFileSync at 1. cbn [fs].
  rewrite !lookup_insert_ne by congruence. rewrite Hsrc.
  eexists _, _. split; [reflexivity|]. cbn [fs console].
  rewrite lookup_insert_eq.
  rewrite (lookup_insert_ne _ (destDir root) root) by congruence.
  rewrite lookup_insert_eq, !lookup_insert_ne by congruence. auto.
Qed.

Lemma copy_script_fails_after_mkdir_witness :
  exists e w1,
    script "/facesjs" CopySample.bare_checkout = (Throw e, w1) /\
    fs w1 !! "/facesjs/build" = Some (Dir []) /\
    fs w1 !! "/facesjs" = Some (Dir ["svgs"; "build"]).
Proof.
  destruct (copy_script_fails_after_mkdir "/facesjs" CopySample.bare_checkout
              ["svgs"] eq_refl eq_refl eq_refl)
    as (e & w1 & Hrun & Hd & Hr & _).
  exists e, w1. auto.
Defined.

End CopyProps.

(** ** Degenerate view boxes, labels, and the catalog read back *)

Module NaNFacts.
Import JsNum.

Lemma add_NaN_l x : add NaN x = NaN.
Proof. reflexivity. Qed.
Lemma add_NaN_r x : add x NaN = NaN.
Proof. now destruct x. Qed.
Lemma sub_NaN_l x : sub NaN x = NaN.
Proof. reflexivity. Qed.
Lemma sub_NaN_r x : sub x NaN = NaN.
Proof. now destruct x. Qed.
Lemma mul_NaN_l x : mul NaN x = NaN.
Proof. reflexivity. Qed.
Lemma mul_NaN_r x : mul x NaN = NaN.
Proof. now destruct x. Qed.
Lemma div_NaN_l x : div NaN x = NaN.
Proof. reflexivity. Qed.
Lemma div_NaN_r x : div x NaN = NaN.
Proof. now destruct x. Qed.
Lemma min_NaN_l x : min NaN x = NaN.
Proof. reflexivity. Qed.
Lemma min_NaN_r x : min x NaN = NaN.
Proof. now destruct x. Qed.

End NaNFacts.

Module FitProps.
Import JsNum JsNumSpec JsNumFacts RoundFacts ViewBox Layout NaNFacts.

(** The positive infinity is never the smaller of two. *)
Lemma min_Inf_l (r : jsnum) : min (Inf false) r = r.
Proof. destruct r as [| [] | |]; reflexivity. Qed.

(** X23: the fit of a degenerate view box.  When the width or the height
    is missing or no number, the scale and both translations are NaN.  When
    both are zero, the scale is infinite (negative when one of them is -0)
    and the translations are NaN.  A width of +0 alone is no error: the
    scale is [innerH / height] as the code divides, whatever the height
    is; for a height between 2^-500 and 2^500 it is a positive number
    within one part in 2^52 of the exact quotient, and with a [minX] of +0
    the translation is 90, the middle of the cell. *)
Theorem fit_of_degenerate_box (vb : viewBox) :
  (num (width vb) = NaN \/ num (height vb) = NaN ->
   fit_of vb = {| scale := NaN; tx := NaN; ty := NaN |}) /\
  (forall s1 s2,
     width vb = Some (Zero s1) -> height vb = Some (Zero s2) ->
     scale (fit_of vb) = Inf (s1 || s2) /\
     tx (fit_of vb) = NaN /\ ty (fit_of vb) = NaN) /\
  (width vb = Some (Zero false) ->
   scale (fit_of vb) = div (of_Z innerH) (num (height vb))) /\
  (forall h,
     width vb = Some (Zero false) -> height vb = Some (Fin h) ->
     ~ (h == 0)%Q -> (2 ^ (-500) <= h <= 2 ^ 500)%Q ->
     exists s,
       scale (fit_of vb) = Fin s /\ (0 < s)%Q /\
       (Qabs (s - inject_Z innerH / h) <= inject_Z innerH / h * 2 ^ (-52))%Q /\
       (minX vb = Some (Zero false) -> tx (fit_of vb) = Fin 90)).
Proof.
  destruct vb as [mx my w h]. unfold fit_of, num. cbn [width height minX minY].
  split; [|split; [|split]].
  - intros [H|H]; rewrite H;
      rewrite ?div_NaN_r, ?min_NaN_l, ?min_NaN_r, ?mul_NaN_r, ?sub_NaN_r,
        ?div_NaN_l, ?add_NaN_r, ?sub_NaN_l; reflexivity.
  - intros s1 s2 -> ->.
    destruct s1, s2, mx as [[| | |]|], my as [[| | |]|]; repeat split.
  - intros ->. cbn [from_option id].
    change (div (of_Z innerW) (Zero false)) with (Inf false).
    apply min_Inf_l.
  - intros h0 -> -> Hh0 [Hl Hu]. cbn [from_option id].
    change (div (of_Z innerW) (Zero false)) with (Inf false).
    rewrite min_Inf_l.
    assert (HH : repr (of_Z innerH) (inject_Z innerH))
      by (split; [reflexivity | discriminate]).
    assert (Hh : repr (Fin h0) h0) by (split; [reflexivity | assumption]).
    destruct (quotient_near _ _ _ _ HH Hh ltac:(discriminate) ltac:(discriminate)
                Hl Hu) as (A & HA & Al & Au & A0 & _ & _).
    destruct (div (of_Z innerH) (Fin h0)) as [| |z|s] eqn:E; try contradiction.
    { simpl in HA. rewrite HA in A0. discriminate. }
    destruct HA as [HA _]. exists s. split; [reflexivity|].
    assert (S0 : (0 < s)%Q) by lra.
    split; [assumption|]. split.
    + assert (U : (2 ^ (-52) == 1 # 4503599627370496)%Q) by reflexivity.
      rewrite U. apply Qabs_Qle_condition. split; lra.
    + intros ->. cbn [from_option id].
      assert (N : negative (Fin s) = false).
      { cbn [negative]. apply Z.ltb_ge.
        unfold Qlt in S0. simpl in S0. lia. }
      cbn [mul]. rewrite N. reflexivity.
Qed.

End FitProps.

Module NameProps.
Import Str StrFacts Catalog.

(** X24: the label of a block names its file: for a file name that ends in
    [.svg], as all the files of a category do, the base name followed by
    [.svg] is the file name, so that two files of a category never share a
    label. *)
Theorem basename_svg_names_the_file (file : string) :
  endsWith ".svg" file = true ->
  basename_svg file +:+ ".svg" = file /\
  forall other, endsWith ".svg" other = true ->
                basename_svg other = basename_svg file -> other = file.
Proof.
  assert (H : forall f, endsWith ".svg" f = true -> basename_svg f +:+ ".svg" = f).
  { intros f Hf. unfold basename_svg. rewrite Hf. cbn [andb].
    destruct (String.eqb_spec f ".svg") as [->|N]; [reflexivity|].
    cbn [negb]. unfold endsWith in Hf. apply andb_prop in Hf as [_ Hf].
    apply String.eqb_eq in Hf. change (len ".svg") with 4%nat in Hf.
    rewrite <- Hf at 1. apply take_drop. }
  intros Hf. split; [now apply H|].
  intros other Ho E. rewrite <- (H _ Ho), <- (H _ Hf). now rewrite E.
Qed.

Lemma basename_svg_names_the_file_witness :
  basename_svg "part10.svg" +:+ ".svg" = "part10.svg".
Proof. exact (proj1 (basename_svg_names_the_file "part10.svg" eq_refl)). Defined.

End NameProps.

Module ReadBackFacts.
Import Str StrFacts RegExp RegExpFacts Sanitizer ViewBox ViewBoxSpec ViewBoxFacts.
Import JsNum Doc RootSpec RootFacts.

Lemma upcase_digit c : is_digit c = true -> upcase c = c.
Proof.
  intros H. apply is_digit_range in H. unfold upcase.
  replace ((97 <=? nat_of_ascii c)%nat) with false; [reflexivity|].
  symmetry. apply Nat.leb_gt. lia.
Qed.

Lemma search_digits_viewBox sw : forall pre s,
  all is_digit sw = true ->
  search_from re_viewBox pre (sw +:+ s)
  = search_from re_viewBox (rev_onto pre sw) s.
Proof.
  induction sw as [|c sw IH]; intros pre s Hd; [reflexivity|].
  simpl in Hd. apply andb_true_iff in Hd as [Hc Hd].
  change (String c sw +:+ s) with (String c (sw +:+ s)).
  rewrite search_step; [now apply IH|].
  rewrite match_at_viewBox.
  change (prefix_i viewBox_eq (String c (sw +:+ s)))
    with (Ascii.eqb (upcase "v") (upcase c)
          && prefix_i ("iewBox=" +:+ dq) (sw +:+ s)).
  rewrite (upcase_digit c Hc).
  rewrite (is_digit_other c (upcase "v") Hc);
    [reflexivity | right; apply Nat.ltb_lt; reflexivity].
Qed.

(** The reader of view boxes finds that of the root tag. *)
Lemma extractViewBox_tag sw sh rest :
  all is_digit sw = true -> sw <> "" ->
  all is_digit sh = true -> sh <> "" ->
  extractViewBox (tag_of sw sh +:+ rest)
  = parse_viewBox ("0 0 " +:+ sw +:+ " " +:+ sh).
Proof.
  intros Hw Nw Hh Nh.
  unfold extractViewBox, exec, tag_of, attr.
  rewrite !app_assoc. unfold dq. simpl String.append.
  repeat first
    [ rewrite search_step by (rewrite match_at_viewBox; reflexivity)
    | rewrite search_digits_viewBox by assumption ].
  set (v := "0 0 " +:+ sw +:+ " " +:+ sh).
  rewrite (search_from_here _ _ _ (10 + len v)%nat (Some v)); [reflexivity|].
  rewrite match_at_viewBox.
  change (prefix_i viewBox_eq _) with true. cbv iota.
  cbn [drop].
  assert (E : String "0" (String " " (String "0" (String " "
                (sw +:+ String " " (sh +:+ String "034" (String ">" rest))))))
              = v +:+ String "034" (">" +:+ rest)).
  { unfold v. rewrite !app_assoc. reflexivity. }
  rewrite E.
  rewrite span_app; [reflexivity | | reflexivity].
  unfold v. cbn [all String.append]. rewrite all_app. cbn [all].
  rewrite !all_digit_no_quote by assumption. reflexivity.
Qed.

End ReadBackFacts.

Module ReadBackProps.
Import Str StrFacts RegExp ViewBox JsNum Layout Doc IO Catalog CatalogFacts.
Import RootSpec RootFacts GridSpec LayoutFacts ReadBackFacts.

Lemma show_plain {P : Platform} z : 0 <= z < 10 ^ 21 -> show z = show_int z.
Proof.
  intros Hz. unfold show.
  assert (Hb : (Z.abs z <? 10 ^ 21) = true) by (apply Z.ltb_lt; lia).
  now rewrite Hb.
Qed.

(** X25: the catalog can be read by the reader it was made with: the view
    box that [extractViewBox] finds in the text of the document is
    [(0, 0, width, height)], the size of the document. *)
Theorem catalog_viewBox_reads_back {P : Platform} (w : world) (d : document)
    (w' : world) :
  build w = (Return d, w') ->
  doc_height d < 10 ^ 21 ->
  extractViewBox (render d)
  = {| minX := Some (of_Z 0); minY := Some (of_Z 0);
       width := Some (of_Z (doc_width d));
       height := Some (of_Z (doc_height d)) |}.
Proof.
  intros Hb Hbound.
  apply build_laid_out in Hb as ((Hy & _) & Hw).
  assert (Bw : 0 <= doc_width d < 10 ^ 21)
    by (rewrite Hw; vm_compute; split; congruence).
  assert (Bh : 0 <= doc_height d < 10 ^ 21) by (unfold padding in Hy; lia).
  destruct (show_int_digits _ (proj1 Bw)) as [Dw Nw].
  destruct (show_int_digits _ (proj1 Bh)) as [Dh Nh].
  unfold render, render_root_tag. rewrite !show_plain by assumption.
  change ("<svg " +:+ attr "xmlns" "http://www.w3.org/2000/svg" +:+ " "
          +:+ attr "width" (show_int (doc_width d)) +:+ " "
          +:+ attr "height" (show_int (doc_height d)) +:+ " "
          +:+ attr "viewBox" ("0 0 " +:+ show_int (doc_width d) +:+ " "
                              +:+ show_int (doc_height d)) +:+ ">")
    with (tag_of (show_int (doc_width d)) (show_int (doc_height d))).
  rewrite extractViewBox_tag by assumption.
  unfold parse_viewBox. rewrite split_viewBox by assumption.
  cbn [map]. rewrite !parseFloat_show_int by lia. reflexivity.
Qed.

Lemma catalog_viewBox_reads_back_witness :
  exists d,
    build (P := Example.platform) Example.scenario_world
      = (Return d, Example.scenario_world) /\
    extractViewBox (render (P := Example.platform) d)
    = {| minX := Some (of_Z 0); minY := Some (of_Z 0);
         width := Some (of_Z 1048); height := Some (of_Z 696) |}.
Proof.
  set (d := match fst (build (P := Example.platform) Example.scenario_world)
            with
            | Return d => d
            | Throw _ => {| doc_width := 0; doc_height := 0; doc_chunks := [] |}
            end).
  assert (Hb : build (P := Example.platform) Example.scenario_world
               = (Return d, Example.scenario_world))
    by (vm_compute; reflexivity).
  exists d. split; [exact Hb|].
  apply (catalog_viewBox_reads_back (P := Example.platform) _ _ _ Hb).
  reflexivity.
Defined.

End ReadBackProps.

(** ** What the prolog and the sanitizer remove *)

Module PrologFacts.
Import Str StrFacts RegExp RegExpFacts Sanitizer ViewBoxSpec ViewBoxFacts.
Import RootFacts UnwrapFacts.

(** The lazy star before a continuation that only a character outside the
    class lets through stops where the greedy one does. *)
Lemma star_lazy_span {R} p (k : string -> option R) :
  k "" = None -> (forall c s, p c = true -> k (String c s) = None) ->
  forall s, star_lazy p k s = k (snd (span p s)).
Proof.
  intros Hnil Hp. induction s as [|c s IH]; cbn [star_lazy span].
  - now rewrite Hnil.
  - destruct (p c) eqn:E.
    + rewrite (Hp c s E), IH. now destruct (span p s).
    + cbn [snd]. now destruct (k (String c s)).
Qed.

(** The characters of a match still to pass are dropped. *)
Lemma replace_all_from_drop r a : forall rest,
  replace_all_from r (len a) (a +:+ rest) = replace_all_from r 0 rest.
Proof.
  induction a as [|c a IH]; intros rest; simpl.
  - now destruct rest.
  - apply IH.
Qed.

(** A match of the whole of [item] at the head. *)
Lemma replace_all_head r item rest cap :
  item <> "" -> match_at r (item +:+ rest) = Some (len item, cap) ->
  replace_all r (item +:+ rest) = replace_all r rest.
Proof.
  intros Hne Hm. unfold replace_all.
  destruct item as [|c item]; [congruence|].
  change (String c item +:+ rest) with (String c (item +:+ rest)) in *.
  cbn [replace_all_from]. rewrite Hm. cbn [len String.length].
  apply replace_all_from_drop.
Qed.

(** A text in which no match starts is kept. *)
Lemma replace_all_keep r a : forall rest,
  (forall a1 a2, a = a1 +:+ a2 -> a2 <> "" -> match_at r (a2 +:+ rest) = None) ->
  replace_all r (a +:+ rest) = a +:+ replace_all r rest.
Proof.
  unfold replace_all. induction a as [|c a IH]; intros rest H; [reflexivity|].
  change (String c a +:+ rest) with (String c (a +:+ rest)).
  assert (Hm : match_at r (String c (a +:+ rest)) = None)
    by (apply (H "" (String c a) eq_refl); discriminate).
  cbn [replace_all_from]. rewrite Hm.
  change (String c a +:+ replace_all_from r 0 rest)
    with (String c (a +:+ replace_all_from r 0 rest)).
  f_equal. apply IH. intros a1 a2 E. apply (H (String c a1) a2). now rewrite E.
Qed.

Lemma match_at_xml_decl s :
  match_at re_xml_decl s =
  if prefix_i "<?xml" s then
    match snd (span (except ">") (drop 5 s)) with
    | String _ r => Some ((len s - len r)%nat, None)
    | EmptyString => None
    end
  else None.
Proof.
  unfold match_at, re_xml_decl.
  change (seq [lit_i "<?xml"; Star false (except ">"); Chr (only ">")])
    with (Seq (lit_i "<?xml") (Seq (Star false (except ">")) (Chr (only ">")))).
  cbn [run]. rewrite run_lit_i.
  destruct (prefix_i "<?xml" s); [|reflexivity].
  change (len "<?xml") with 5%nat. cbn [run].
  rewrite star_lazy_span.
  - pose proof (span_spec (except ">") (drop 5 s)) as Hs.
    destruct (span (except ">") (drop 5 s)) as [v rest].
    destruct (Hs _ _ eq_refl) as (_ & _ & Hc). cbn [snd].
    destruct rest as [|c r]; [reflexivity|].
    unfold except in Hc. apply negb_false_iff in Hc. unfold only. now rewrite Hc.
  - reflexivity.
  - intros c t Hc. unfold except in Hc. apply negb_true_iff in Hc.
    unfold only. now rewrite Hc.
Qed.

Lemma match_at_doctype s :
  match_at re_doctype s =
  if prefix_i "<!DOCTYPE" s then
    match snd (span (except ">") (drop 9 s)) with
    | String _ r => Some ((len s - len r)%nat, None)
    | EmptyString => None
    end
  else None.
Proof.
  unfold match_at, re_doctype.
  change (seq [lit_i "<!DOCTYPE"; Star false (except ">"); Chr (only ">")])
    with (Seq (lit_i "<!DOCTYPE") (Seq (Star false (except ">")) (Chr (only ">")))).
  cbn [run]. rewrite run_lit_i.
  destruct (prefix_i "<!DOCTYPE" s); [|reflexivity].
  change (len "<!DOCTYPE") with 9%nat. cbn [run].
  rewrite star_lazy_span.
  - pose proof (span_spec (except ">") (drop 9 s)) as Hs.
    destruct (span (except ">") (drop 9 s)) as [v rest].
    destruct (Hs _ _ eq_refl) as (_ & _ & Hc). cbn [snd].
    destruct rest as [|c r]; [reflexivity|].
    unfold except in Hc. apply negb_false_iff in Hc. unfold only. now rewrite Hc.
  - reflexivity.
  - intros c t Hc. unfold except in Hc. apply negb_true_iff in Hc.
    unfold only. now rewrite Hc.
Qed.

Lemma startsWith_app p t : startsWith p (p +:+ t) = true.
Proof.
  induction p as [|a p IH]; simpl; [reflexivity|].
  now rewrite Ascii.eqb_refl, IH.
Qed.

(** No comment ends inside a text that holds no [>]. *)
Lemma comment_end_not_inside x c rest :
  all (except ">") (String x c) = true ->
  startsWith "-->" (String x c +:+ "-->" +:+ rest) = false.
Proof.
  intros H. cbn [all] in H. apply andb_prop in H as [_ H].
  change (startsWith "-->" (String x c +:+ "-->" +:+ rest))
    with (Ascii.eqb "-" x && startsWith "->" (c +:+ "-->" +:+ rest)).
  destruct c as [|y [|z c]].
  - cbn. apply andb_false_r.
  - cbn. rewrite !andb_false_r. reflexivity.
  - cbn [all] in H. apply andb_prop in H as [_ H]. apply andb_prop in H as [Hz _].
    unfold except in Hz. apply negb_true_iff in Hz.
    change (startsWith "->" (String y (String z c) +:+ "-->" +:+ rest))
      with (Ascii.eqb "-" y
            && (Ascii.eqb ">" z && startsWith "" (c +:+ "-->" +:+ rest))).
    rewrite Hz. cbn [andb]. now rewrite !andb_false_r.
Qed.

Lemma star_lazy_comment {R} (K : string -> option R) (k : string -> option R) c :
  (forall s, K s = if startsWith "-->" s then k (drop 3 s) else None) ->
  forall rest x,
  all (except ">") c = true ->
  k rest = Some x ->
  star_lazy any K (c +:+ "-->" +:+ rest) = Some x.
Proof.
  intros HK. induction c as [|a c IH]; intros rest x Hc Hk.
  - change ("" +:+ "-->" +:+ rest) with (String "-" (String "-" (String ">" rest))).
    cbn [star_lazy]. rewrite HK. cbn [startsWith drop].
    rewrite !Ascii.eqb_refl. cbn [andb]. now rewrite Hk.
  - change (String a c +:+ "-->" +:+ rest)
      with (String a (c +:+ "-->" +:+ rest)).
    cbn [star_lazy]. rewrite HK.
    change (String a (c +:+ "-->" +:+ rest))
      with (String a c +:+ "-->" +:+ rest).
    rewrite (comment_end_not_inside a c rest Hc).
    cbn [all] in Hc. apply andb_prop in Hc as [_ Hc].
    change (any a) with true. cbv iota. now apply IH.
Qed.

Lemma match_at_comment c rest :
  all (except ">") c = true ->
  match_at re_comment ("<!--" +:+ c +:+ "-->" +:+ rest)
  = Some (len ("<!--" +:+ c +:+ "-->"), None).
Proof.
  intros Hc. unfold match_at, re_comment.
  change (seq [lit "<!--"; Star false any; lit "-->"])
    with (Seq (lit "<!--") (Seq (Star false any) (lit "-->"))).
  cbn [run]. rewrite run_lit.
  rewrite (startsWith_app "<!--" (c +:+ "-->" +:+ rest)).
  rewrite drop_app. cbn [run].
  apply (star_lazy_comment _
           (fun t => Some ((len ("<!--" +:+ c +:+ "-->" +:+ rest) - len t)%nat,
                           @None string))).
  - intros s. now rewrite run_lit.
  - exact Hc.
  - do 2 f_equal. rewrite !len_app. simpl. lia.
Qed.

(** No match of [r] starts inside an item that opens with its only [<],
    when none starts at its head and every match starts with a [<]. *)
Lemma no_match_inside r tail rest :
  (forall s, match_at r s <> None -> prefix_i "<" s = true) ->
  all (except "<") tail = true ->
  match_at r (String "<" tail +:+ rest) = None ->
  forall a1 a2, String "<" tail = a1 +:+ a2 -> a2 <> "" ->
                match_at r (a2 +:+ rest) = None.
Proof.
  intros Hr Ht H0 a1 a2 E Hne.
  destruct a1 as [|x a1]; [simpl in E; now subst a2|].
  simpl in E. injection E as _ E.
  destruct (match_at r (a2 +:+ rest)) eqn:Em; [|reflexivity].
  assert (Hp : prefix_i "<" (a2 +:+ rest) = true) by (apply Hr; congruence).
  rewrite E in Ht. apply all_suffix in Ht.
  destruct a2 as [|c a2]; [congruence|].
  cbn [all prefix_i String.append] in Ht, Hp.
  apply andb_prop in Ht as [Hc _]. rewrite andb_true_r, upcase_lt in Hp.
  unfold except in Hc. rewrite Hp in Hc. discriminate.
Qed.

Lemma xml_decl_starts s : match_at re_xml_decl s <> None -> prefix_i "<" s = true.
Proof.
  rewrite match_at_xml_decl. intros H.
  destruct s as [|c s]; cbn [prefix_i] in *; [congruence|].
  destruct (Ascii.eqb (upcase "<") (upcase c)); [reflexivity|].
  cbn [andb] in H. congruence.
Qed.

Lemma comment_starts s : match_at re_comment s <> None -> prefix_i "<" s = true.
Proof.
  unfold match_at, re_comment.
  change (seq [lit "<!--"; Star false any; lit "-->"])
    with (Seq (lit "<!--") (Seq (Star false any) (lit "-->"))).
  cbn [run]. rewrite run_lit. intros H.
  destruct s as [|c s]; [exfalso; apply H; reflexivity|].
  change (startsWith "<!--" (String c s))
    with (Ascii.eqb "<" c && startsWith "!--" s) in H.
  destruct (Ascii.eqb "<" c) eqn:E.
  - apply Ascii.eqb_eq in E as <-. reflexivity.
  - exfalso. apply H. reflexivity.
Qed.

End PrologFacts.

Module MetadataFacts.
Import Str StrFacts RegExp RegExpFacts Sanitizer ViewBoxSpec ViewBoxFacts.
Import RootFacts UnwrapFacts PrologFacts TagSpec.

Lemma prefix_i_len p : forall s, prefix_i p s = true -> (len p <= len s)%nat.
Proof.
  induction p as [|a p IH]; intros [|c s]; simpl; try discriminate; try lia.
  intros H. apply andb_prop in H as [_ H]. apply IH in H. lia.
Qed.

Lemma match_at_lit_i p s :
  match_at (lit_i p) s = if prefix_i p s then Some (len p, None) else None.
Proof.
  unfold match_at. rewrite run_lit_i.
  destruct (prefix_i p s) eqn:E; [|reflexivity].
  apply prefix_i_len in E. rewrite len_drop. do 2 f_equal. lia.
Qed.

(** Where the pattern does not start in [a], it starts in no suffix of
    it. *)
Lemma exec_lit_i_None p a :
  exec (lit_i p) a = None ->
  forall a1 a2, a = a1 +:+ a2 -> prefix_i p a2 = false.
Proof.
  intros H a1 a2 E. unfold exec in H. rewrite E in H.
  apply search_from_None_suffix in H. rewrite match_at_lit_i in H.
  now destruct (prefix_i p a2).
Qed.

(** The pattern is as long as a text at whose head it stands when it does
    not stand at the head of the text that follows. *)
Lemma prefix_i_inside p : forall a t,
  prefix_i p (a +:+ t) = true -> prefix_i p a = false -> (len a < len p)%nat.
Proof.
  induction p as [|x p IH]; intros a t H N; [now destruct a|].
  destruct a as [|c a]; [simpl; lia|].
  simpl in H, N. apply andb_prop in H as [Hc H]. rewrite Hc in N.
  simpl in N. apply (IH a t H) in N. simpl. lia.
Qed.

(** The last character of a text at the head of which the start of the
    pattern stands is a character of the pattern. *)
Lemma prefix_i_last p : forall b c t,
  prefix_i p ((b +:+ String c "") +:+ t) = true ->
  (len (b +:+ String c "") <= len p)%nat ->
  all (fun x => negb (Ascii.eqb (upcase x) (upcase c))) p = false.
Proof.
  induction p as [|x p IH]; intros b c t H L.
  - rewrite len_app in L. simpl in L. lia.
  - destruct b as [|y b].
    + simpl in H. apply andb_prop in H as [Hx _].
      cbn [all]. rewrite Hx. reflexivity.
    + simpl in H. apply andb_prop in H as [_ H].
      cbn [all]. rewrite (IH b c t H); [apply andb_false_r|].
      simpl in L. lia.
Qed.

(** No match of the pattern starts in [pre], whatever follows, when the
    pattern does not start in it and its last character is none of the
    pattern. *)
Lemma no_straddle p pre0 c t :
  exec (lit_i p) (pre0 +:+ String c "") = None ->
  all (fun x => negb (Ascii.eqb (upcase x) (upcase c))) p = true ->
  forall a1 a2, pre0 +:+ String c "" = a1 +:+ a2 -> a2 <> "" ->
                prefix_i p (a2 +:+ t) = false.
Proof.
  intros Hex Hc a1 a2 E Hne.
  pose proof (exec_lit_i_None _ _ Hex a1 a2 E) as Hin.
  destruct (prefix_i p (a2 +:+ t)) eqn:Ep; [|reflexivity].
  pose proof (prefix_i_inside _ _ _ Ep Hin) as Hlen.
  assert (Hlast : exists b, a2 = b +:+ String c "").
  { clear -E Hne. revert a1 a2 E Hne.
    induction pre0 as [|y pre0 IH]; intros a1 a2 E Hne.
    - destruct a1 as [|z a1].
      + exists "". simpl in E. now subst a2.
      + simpl in E. injection E as _ E. destruct a1; simpl in E; [congruence|discriminate].
    - destruct a1 as [|z a1].
      + exists (String y pre0). simpl in E. now subst a2.
      + simpl in E. injection E as _ E. now apply (IH a1). }
  destruct Hlast as (b & ->).
  rewrite (prefix_i_last p b c t Ep) in Hc; [discriminate | lia].
Qed.

Lemma prefix_i_cons x p c s :
  prefix_i (String x p) (String c s)
  = Ascii.eqb (upcase x) (upcase c) && prefix_i p s.
Proof. reflexivity. Qed.

Lemma prefix_i_self p t : prefix_i p (p +:+ t) = true.
Proof.
  induction p as [|a p IH]; simpl; [reflexivity|].
  now rewrite Ascii.eqb_refl, IH.
Qed.

(** The lazy star stops at the first place where [q] stands. *)
Lemma star_lazy_until {R} (K k : string -> option R) q rest x :
  (forall s, K s = if prefix_i q s then k (drop (len q) s) else None) ->
  k rest = Some x ->
  forall a,
  (forall a1 a2, a = a1 +:+ a2 -> a2 <> "" -> prefix_i q (a2 +:+ q +:+ rest) = false) ->
  star_lazy any K (a +:+ q +:+ rest) = Some x.
Proof.
  intros HK Hk. induction a as [|c a IH]; intros Ha.
  - change ("" +:+ q +:+ rest) with (q +:+ rest).
    assert (E : K (q +:+ rest) = Some x)
      by now rewrite HK, prefix_i_self, drop_app.
    destruct (q +:+ rest); cbn [star_lazy]; now rewrite E.
  - change (String c a +:+ q +:+ rest) with (String c (a +:+ q +:+ rest)).
    cbn [star_lazy]. rewrite HK.
    change (String c (a +:+ q +:+ rest)) with (String c a +:+ q +:+ rest).
    rewrite (Ha "" (String c a) eq_refl) by discriminate.
    change (any c) with true. cbv iota. apply IH.
    intros a1 a2 E Hne. apply (Ha (String c a1) a2); [now rewrite E|exact Hne].
Qed.

Lemma match_at_metadata a rest :
  exec (lit_i "</metadata>") a = None ->
  match_at re_metadata ("<metadata" +:+ a +:+ "</metadata>" +:+ rest)
  = Some (len ("<metadata" +:+ a +:+ "</metadata>"), None).
Proof.
  intros Ha. unfold match_at, re_metadata.
  change (seq [lit_i "<metadata"; Star false any; lit_i "</metadata>"])
    with (Seq (lit_i "<metadata") (Seq (Star false any) (lit_i "</metadata>"))).
  cbn [run]. rewrite run_lit_i.
  rewrite (prefix_i_self "<metadata" (a +:+ "</metadata>" +:+ rest)).
  rewrite drop_app. cbn [run].
  apply (star_lazy_until _
           (fun t => Some ((len ("<metadata" +:+ a +:+ "</metadata>" +:+ rest)
                            - len t)%nat, @None string))).
  - intros s. now rewrite run_lit_i.
  - do 2 f_equal. rewrite !len_app. simpl. lia.
  - intros a1 a2 E Hne.
    change ("</metadata>" +:+ rest) with (String "<" ("/metadata>" +:+ rest)).
    destruct a2 as [|c a2]; [congruence|].
    change (String c a2 +:+ String "<" ("/metadata>" +:+ rest))
      with (String c (a2 +:+ String "<" ("/metadata>" +:+ rest))).
    pose proof (exec_lit_i_None _ _ Ha a1 (String c a2) E) as Hin.
    change "</metadata>" with (String "<" "/metadata>") in Hin |- *.
    rewrite prefix_i_cons in Hin |- *.
    rewrite (prefix_i_stop "<" "/metadata>") by reflexivity. exact Hin.
Qed.

Lemma metadata_starts s :
  prefix_i "<metadata" s = false -> match_at re_metadata s = None.
Proof.
  intros H. unfold match_at, re_metadata.
  change (seq [lit_i "<metadata"; Star false any; lit_i "</metadata>"])
    with (Seq (lit_i "<metadata") (Seq (Star false any) (lit_i "</metadata>"))).
  cbn [run]. rewrite run_lit_i. now rewrite H.
Qed.

(** The metadata elements of what follows [pre] are all that goes. *)
Lemma replace_all_metadata_keep pre t :
  ends_clear_of "<metadata" pre ->
  exec (lit_i "<metadata") pre = None ->
  replace_all re_metadata (pre +:+ t) = pre +:+ replace_all re_metadata t.
Proof.
  intros [->|(pre0 & c & -> & Hc)] Hpre; [reflexivity|].
  apply replace_all_keep. intros a1 a2 E Hne.
  apply metadata_starts. now apply (no_straddle _ pre0 c t Hpre Hc a1 a2).
Qed.

End MetadataFacts.

Module MetadataProps.
Import Str StrFacts RegExp RegExpFacts Sanitizer ViewBoxSpec ViewBoxFacts.
Import TagSpec PrologFacts MetadataFacts.

(** X27: [sanitize] removes a metadata element: after a text [pre] that
    holds no start of one and ends with a character that is none of the
    start tag's (or is empty), an element whose content [a] holds no end
    tag goes whole, and the result is that of the text without it. *)
Theorem sanitize_removes_metadata (pre a rest : string) :
  ends_clear_of "<metadata" pre ->
  exec (lit_i "<metadata") pre = None ->
  exec (lit_i "</metadata>") a = None ->
  sanitize (pre +:+ "<metadata" +:+ a +:+ "</metadata>" +:+ rest)
  = sanitize (pre +:+ rest).
Proof.
  intros Hend Hpre Ha. unfold sanitize. do 3 f_equal.
  rewrite (replace_all_metadata_keep pre rest Hend Hpre).
  rewrite (replace_all_metadata_keep pre _ Hend Hpre). f_equal.
  pose proof (match_at_metadata a rest Ha) as Hm.
  assert (E : "<metadata" +:+ a +:+ "</metadata>" +:+ rest
              = ("<metadata" +:+ a +:+ "</metadata>") +:+ rest)
    by now rewrite !app_assoc.
  rewrite E in Hm |- *.
  eapply replace_all_head; [|exact Hm].
  change ("<metadata" +:+ a +:+ "</metadata>")
    with (String "<" ("metadata" +:+ a +:+ "</metadata>")).
  discriminate.
Qed.

Lemma sanitize_removes_metadata_witness :
  sanitize ("<svg>" +:+ "<metadata" +:+ "><rdf:RDF/>" +:+ "</metadata>" +:+ "<g/></svg>")
  = sanitize ("<svg>" +:+ "<g/></svg>").
Proof.
  apply (sanitize_removes_metadata "<svg>" "><rdf:RDF/>" "<g/></svg>").
  - right. exists "<svg", ">"%char. split; reflexivity.
  - vm_compute; reflexivity.
  - vm_compute; reflexivity.
Defined.

End MetadataProps.

Module PrologProps.
Import Str StrFacts RegExp RegExpFacts Sanitizer ViewBoxSpec ViewBoxFacts.
Import RootFacts UnwrapFacts PrologFacts.

(** X26: [stripProlog] removes what a prolog is made of: an XML
    declaration, a comment or a DOCTYPE at the head of the text goes, and
    the rest is stripped as it would be alone.  (The declaration and the
    DOCTYPE hold no [>] before their end; the comment and the DOCTYPE hold
    no [<] either, so that no other item starts inside them.) *)
Theorem stripProlog_removes_head (rest : string) :
  (forall a, all (except ">") a = true ->
     stripProlog ("<?xml" +:+ a +:+ ">" +:+ rest) = stripProlog rest) /\
  (forall c, all (except ">") c = true -> all (except "<") c = true ->
     stripProlog ("<!--" +:+ c +:+ "-->" +:+ rest) = stripProlog rest) /\
  (forall a, all (except ">") a = true -> all (except "<") a = true ->
     stripProlog ("<!DOCTYPE" +:+ a +:+ ">" +:+ rest) = stripProlog rest).
Proof.
  assert (Hitem : forall (open a close t : string),
            open +:+ a +:+ close +:+ t = (open +:+ a +:+ close) +:+ t)
    by (intros; now rewrite !app_assoc).
  split; [|split].
  - intros a Ha. unfold stripProlog. do 2 f_equal.
    rewrite Hitem. apply (replace_all_head _ _ _ None); [discriminate|].
    rewrite match_at_xml_decl, <- Hitem.
    change (prefix_i "<?xml" ("<?xml" +:+ a +:+ ">" +:+ rest)) with true.
    cbv iota. change (drop 5 ("<?xml" +:+ a +:+ ">" +:+ rest))
      with (a +:+ String ">" rest).
    rewrite (span_app _ _ ">" rest Ha eq_refl). cbn [snd].
    do 2 f_equal. rewrite !len_app. simpl. lia.
  - intros c Hc1 Hc2. unfold stripProlog. f_equal.
    rewrite Hitem. rewrite replace_all_keep.
    + apply (replace_all_head _ _ _ None); [discriminate|].
      rewrite <- Hitem. now apply match_at_comment.
    + change ("<!--" +:+ c +:+ "-->") with (String "<" ("!--" +:+ c +:+ "-->")).
      apply no_match_inside.
      * apply xml_decl_starts.
      * rewrite !all_app, Hc2. reflexivity.
      * rewrite match_at_xml_decl. reflexivity.
  - intros a Ha1 Ha2. unfold stripProlog.
    rewrite Hitem.
    assert (Hin : forall r t,
              (forall s, match_at r s <> None -> prefix_i "<" s = true) ->
              match_at r (("<!DOCTYPE" +:+ a +:+ ">") +:+ t) = None ->
              replace_all r (("<!DOCTYPE" +:+ a +:+ ">") +:+ t)
              = ("<!DOCTYPE" +:+ a +:+ ">") +:+ replace_all r t).
    { intros r t Hr H0. apply replace_all_keep.
      change ("<!DOCTYPE" +:+ a +:+ ">")
        with (String "<" ("!DOCTYPE" +:+ a +:+ ">")) in *.
      apply no_match_inside; [exact Hr | | exact H0].
      rewrite !all_app, Ha2. reflexivity. }
    rewrite Hin; [|apply xml_decl_starts|rewrite match_at_xml_decl; reflexivity].
    rewrite Hin; [|apply comment_starts|].
    + apply (replace_all_head _ _ _ None); [discriminate|].
      rewrite match_at_doctype, <- Hitem.
      change (prefix_i "<!DOCTYPE" ("<!DOCTYPE" +:+ a +:+ ">" +:+ _)) with true.
      cbv iota.
      change (drop 9 ("<!DOCTYPE" +:+ a +:+ ">"
                      +:+ replace_all re_comment (replace_all re_xml_decl rest)))
        with (a +:+ String ">"
                (replace_all re_comment (replace_all re_xml_decl rest))).
      rewrite (span_app _ _ ">" _ Ha1 eq_refl). cbn [snd].
      do 2 f_equal. rewrite !len_app. simpl. lia.
    + unfold match_at, re_comment.
      change (seq [lit "<!--"; Star false any; lit "-->"])
        with (Seq (lit "<!--") (Seq (Star false any) (lit "-->"))).
      cbn [run]. rewrite run_lit. reflexivity.
Qed.

End PrologProps.
